(** * The cluster registry of the driver: connection entries, request routing,
      health demotion and the endpoint diff engine.

    Shallow embedding of [internal/driver/cluster/cluster.go].

    - Go integers are mathematical integers ([Z]) with the wrap-around of the
      conversions written out ([wrap]).  Go's [int] is 32 or 64 bits wide
      depending on the target; the width is the parameter [int_size].
    - The registry is a record of the fields of the [cluster] struct.  The
      objects it only holds references to (connections, the rediscovery
      trigger, the broadcast channel) live in a store, so that a state change
      made through one reference is seen through every other one.
    - A method is a function from configurations to outcomes: it returns a
      value, or it panics; both carry the configuration reached.
    - The mutex is not modelled: every method body is one atomic step. *)

From Stdlib Require Import ZArith Lia Bool.
From stdpp Require Import gmap list strings sorting.

Open Scope Z_scope.

(** ** Machine integers *)

(** Width of Go's [int] on the target. *)
Inductive int_size := Int32 | Int64.

Definition bits (w : int_size) : Z :=
  match w with Int32 => 32 | Int64 => 64 end.

(** The value of [x] after conversion to a signed integer of [n] bits. *)
Definition wrap (n : Z) (x : Z) : Z :=
  (x + 2 ^ (n - 1)) mod 2 ^ n - 2 ^ (n - 1).

(** [int64(x)] and [int(x)]. *)
Definition int64 (x : Z) : Z := wrap 64 x.
Definition int (w : int_size) (x : Z) : Z := wrap (bits w) x.

(** ** Package [endpoint] *)

Module endpoint.

(** Modelled from the spec: the declaration of [endpoint.Endpoint], which
    lies outside [cluster.go].  An endpoint is the descriptor
    {NodeID, address, LoadFactor, Local}; [ID] is the integer the
    comparator reads, held as its mathematical value whatever integer type
    the field has; [LoadFactor] is only ever copied. *)
Record Endpoint := mk {
  ID : Z;
  Address : string;
  LoadFactor : Z;
  Local : bool
}.

(** The key of the registry's mapping. *)
Definition NodeID (e : Endpoint) : Z := ID e.

#[global] Instance Endpoint_eq_dec : EqDecision Endpoint.
Proof. solve_decision. Defined.

#[global] Instance Endpoint_inhabited : Inhabited Endpoint :=
  populate (mk 0 "" 0 false).

End endpoint.

(** ** The endpoint diff engine *)

(** [return int(int64(a.ID) - int64(b.ID))]; the subtraction is an [int64]
    subtraction and wraps as such. *)
Definition compareEndpoints (w : int_size) (a b : endpoint.Endpoint) : Z :=
  int w (int64 (int64 (endpoint.ID a) - int64 (endpoint.ID b))).

Section diffslice.
Context {St : Type}.
(** [cmp] is a callback; [None] is a panic inside it. *)
Variable cmp : nat -> nat -> option Z.
Variables eq add del : nat -> nat -> St -> St.
Variables a b : nat.

(** The first loop, [for i < a && j < b]. *)
Fixpoint diffslice_merge (fuel i j : nat) (s : St) : option (nat * nat * St) :=
  if (i <? a)%nat && (j <? b)%nat then
    match fuel with
    | O => None
    | S fuel' =>
        match cmp i j with
        | None => None
        | Some c =>
            if c <? 0 then diffslice_merge fuel' (S i) j (del i j s)
            else if 0 <? c then diffslice_merge fuel' i (S j) (add i j s)
            else diffslice_merge fuel' (S i) (S j) (eq i j s)
        end
    end
  else Some (i, j, s).

(** [for ; i < a; i++ { del(i, j) }] *)
Definition diffslice_del_tail (i j : nat) (s : St) : St :=
  foldl (fun s k => del k j s) s (seq i (a - i)).

(** [for ; j < b; j++ { add(i, j) }] *)
Definition diffslice_add_tail (i j : nat) (s : St) : St :=
  foldl (fun s k => add i k s) s (seq j (b - j)).

(** Each turn of the first loop advances [i] or [j], so [a + b] turns are
    enough. *)
Definition diffslice (s : St) : option St :=
  match diffslice_merge (a + b) 0 0 s with
  | None => None
  | Some (i, j, s1) =>
      let s2 := diffslice_del_tail i j s1 in
      (* after the second loop [i] is [max i a] *)
      Some (diffslice_add_tail (Nat.max i a) j s2)
  end.
End diffslice.

(** [curr[i]] and [next[j]] panic out of range. *)
Definition DiffEndpoints {St : Type} (w : int_size)
    (curr next : list endpoint.Endpoint)
    (eq add del : nat -> nat -> St -> St) (s : St) : option St :=
  diffslice
    (fun i j =>
       match curr !! i, next !! j with
       | Some x, Some y => Some (compareEndpoints w x y)
       | _, _ => None
       end)
    (fun i j => eq i j) (fun i j => add i j) (fun i j => del i j)
    (length curr) (length next) s.

(** The calls a run of the diff makes, in order. *)
Inductive diff_call :=
  | CallEq (i j : nat)
  | CallAdd (i j : nat)
  | CallDel (i j : nat).

#[global] Instance diff_call_eq_dec : EqDecision diff_call.
Proof. solve_decision. Defined.

Definition DiffEndpoints_calls (w : int_size)
    (curr next : list endpoint.Endpoint) : option (list diff_call) :=
  DiffEndpoints w curr next
    (fun i j l => l ++ [CallEq i j])
    (fun i j l => l ++ [CallAdd i j])
    (fun i j l => l ++ [CallDel i j]) [].

Definition is_eq (c : diff_call) : bool :=
  match c with CallEq _ _ => true | _ => false end.
Definition is_add (c : diff_call) : bool :=
  match c with CallAdd _ _ => true | _ => false end.
Definition is_del (c : diff_call) : bool :=
  match c with CallDel _ _ => true | _ => false end.

(** What the diff reports, as the specification words it: a matched pair, a
    removed element of the current list, an added element of the next one. *)
Inductive diff_report :=
  | Matched (i j : nat)
  | Removed (i : nat)
  | Added (j : nat).

#[global] Instance diff_report_eq_dec : EqDecision diff_report.
Proof. solve_decision. Defined.

Definition report_of (c : diff_call) : diff_report :=
  match c with
  | CallEq i j => Matched i j
  | CallAdd _ j => Added j
  | CallDel i _ => Removed i
  end.

(** The two-pointer merge of the specification, on the lists themselves:
    heads are compared by NodeID; equal heads are matched and both sides
    advance, the smaller head is reported (removed on the current side, added
    on the next side) and its side advances; what is left of either list when
    the other is exhausted is reported wholesale. *)
Fixpoint merge_spec (curr : list endpoint.Endpoint) (i : nat)
    (next : list endpoint.Endpoint) (j : nat) {struct curr} : list diff_report :=
  let fix inner (next : list endpoint.Endpoint) (j : nat) {struct next}
      : list diff_report :=
    match curr, next with
    | [], _ => Added <$> seq j (length next)
    | _, [] => Removed <$> seq i (length curr)
    | x :: curr', y :: next' =>
        if endpoint.ID x =? endpoint.ID y
        then Matched i j :: merge_spec curr' (S i) next' (S j)
        else if endpoint.ID x <? endpoint.ID y
        then Removed i :: merge_spec curr' (S i) next j
        else Added j :: inner next' (S j)
    end
  in inner next j.

(** The same merge with the verdicts of a comparator [cmp] on the heads:
    negative for a smaller head of [curr], positive for a smaller head of
    [next], zero for equal heads. *)
Fixpoint merge_by (cmp : endpoint.Endpoint -> endpoint.Endpoint -> Z)
    (curr : list endpoint.Endpoint) (i : nat)
    (next : list endpoint.Endpoint) (j : nat) {struct curr} : list diff_report :=
  let fix inner (next : list endpoint.Endpoint) (j : nat) {struct next}
      : list diff_report :=
    match curr, next with
    | [], _ => Added <$> seq j (length next)
    | _, [] => Removed <$> seq i (length curr)
    | x :: curr', y :: next' =>
        if cmp x y <? 0
        then Removed i :: merge_by cmp curr' (S i) next j
        else if 0 <? cmp x y
        then Added j :: inner next' (S j)
        else Matched i j :: merge_by cmp curr' (S i) next' (S j)
    end
  in inner next j.

(** The comparator is exact on a pair of lists when no difference of two
    NodeIDs, one from each list, leaves the range of [int]. *)
Definition cmp_exact (w : int_size) (curr next : list endpoint.Endpoint) : Prop :=
  forall x y, x ∈ curr -> y ∈ next ->
    - 2 ^ (bits w - 1) <= endpoint.ID x - endpoint.ID y < 2 ^ (bits w - 1).

(** The comparator tells NodeIDs apart on a pair of lists when no difference
    of two NodeIDs, one from each list, is as large as the number of values
    of [int]: so it is whenever NodeIDs are no wider than [int]. *)
Definition cmp_separates (w : int_size) (curr next : list endpoint.Endpoint) : Prop :=
  forall x y, x ∈ curr -> y ∈ next ->
    - 2 ^ bits w < endpoint.ID x - endpoint.ID y < 2 ^ bits w.

Definition no_common_ID (curr next : list endpoint.Endpoint) : Prop :=
  forall x y, x ∈ curr -> y ∈ next -> endpoint.ID x <> endpoint.ID y.

(** [sort.Slice] of the Go library on a short slice (fewer than 7 elements;
    from 7 on the library adds a Shell pass or switches algorithm) is this
    insertion sort: element [i] is swapped towards the front while
    [less(j, j-1)] holds. *)
Fixpoint sort_sink {A} (less : A -> A -> bool) (x : A) (sorted_rev : list A)
    : list A :=
  (* [sorted_rev]: the elements before [x], nearest first *)
  match sorted_rev with
  | [] => [x]
  | y :: rest => if less x y then y :: sort_sink less x rest else x :: sorted_rev
  end.

Definition sort_Slice {A} (less : A -> A -> bool) (es : list A) : list A :=
  reverse (foldl (fun done x => sort_sink less x done) [] es).

Definition SortEndpoints (w : int_size) (es : list endpoint.Endpoint)
    : list endpoint.Endpoint :=
  sort_Slice (fun x y => compareEndpoints w x y <? 0) es.

(** The run of [DiffEndpoints_calls] from the turn of the first loop that
    starts with [i], [j] and the calls [acc] made so far. *)
Definition diff_from (w : int_size) (curr next : list endpoint.Endpoint)
    (fuel i j : nat) (acc : list diff_call) : option (list diff_call) :=
  match
    diffslice_merge
      (fun i j =>
         match curr !! i, next !! j with
         | Some x, Some y => Some (compareEndpoints w x y)
         | _, _ => None
         end)
      (fun i j l => l ++ [CallEq i j])
      (fun i j l => l ++ [CallAdd i j])
      (fun i j l => l ++ [CallDel i j])
      (length curr) (length next) fuel i j acc
  with
  | None => None
  | Some (i', j', s1) =>
      Some (diffslice_add_tail (fun i j l => l ++ [CallAdd i j]) (length next)
              (Nat.max i' (length curr)) j'
              (diffslice_del_tail (fun i j l => l ++ [CallDel i j]) (length curr)
                 i' j' s1))
  end.

(** How many of the calls are of one kind. *)
Definition tally (kind : diff_call -> bool) (calls : list diff_call) : nat :=
  length (List.filter kind calls).

Definition is_matched (r : diff_report) : bool :=
  match r with Matched _ _ => true | _ => false end.
Definition is_removed (r : diff_report) : bool :=
  match r with Removed _ => true | _ => false end.
Definition is_added (r : diff_report) : bool :=
  match r with Added _ => true | _ => false end.

(** ** The packages the registry depends on *)

Module state.
(** Modelled from the spec: the runtime health of a connection, declared
    in package [cluster/stats/state], outside [cluster.go].  The registry
    names [Online] and [Banned]. *)
Inductive State := Unknown | Online | Banned | Offline.

#[global] Instance State_eq_dec : EqDecision State.
Proof. solve_decision. Defined.
End state.

Module info.
(** [info.Info{LoadFactor, Local}], replaced wholesale on every update. *)
Record Info := mk { LoadFactor : Z; Local : bool }.

#[global] Instance Info_eq_dec : EqDecision Info.
Proof. solve_decision. Defined.
End info.

Module conn.
(** [conn.Conn] has methods and is compared with [nil]: it is an
    interface.  A value is [nil] ([None]) or a reference to a connection
    object in the store. *)
Definition Conn := option nat.

(** Modelled from the spec: a connection object, of package [conn],
    outside [cluster.go].  It has the endpoint it was built for, a runtime
    health state, and a close operation; [closes] counts the calls of
    [Close] on it. *)
Record object := mk {
  ep : endpoint.Endpoint;
  st : state.State;
  closes : nat
}.

#[global] Instance object_eq_dec : EqDecision object.
Proof. solve_decision. Defined.

#[global] Instance object_inhabited : Inhabited object :=
  populate (mk inhabitant state.Unknown 0).
End conn.

Module balancer.
(** [balancer.Element]: the opaque handle of a registration; [nil] is
    [None]. *)
Definition Element := option nat.

(** The Balancer Port: the interface [balancer.Balancer], over the state
    [B] of an implementation.  [Next] may look at the connections (their
    health) and may change the balancer (a round-robin cursor). *)
Class Balancer (B : Type) := {
  Next : gmap nat conn.object -> B -> conn.Conn * B;
  Insert : conn.Conn -> info.Info -> B -> Element * B;
  Update : Element -> info.Info -> B -> B;
  Remove : Element -> B -> B;
  Contains : Element -> B -> bool
}.
End balancer.

Module entry.
(** [entry.Entry{Info, Conn, Handle}], the value stored per NodeID. *)
Record Entry := mk {
  Info : info.Info;
  Conn : conn.Conn;
  Handle : balancer.Element
}.

#[global] Instance Entry_eq_dec : EqDecision Entry.
Proof. solve_decision. Defined.
End entry.

Module repeater.
(** Modelled from the spec: the rediscovery trigger, of package
    [repeater], outside [cluster.go].  It is consumed through [Force] and
    [Stop] only; the object counts the calls of each. *)
Record object := mk { forced : nat; stopped : nat }.

#[global] Instance object_eq_dec : EqDecision object.
Proof. solve_decision. Defined.

#[global] Instance object_inhabited : Inhabited object := populate (mk 0 0).
End repeater.

(** ** Errors and panics *)

(** The sentinel errors, and [fmt.Errorf(prefix + "%w", err)]. *)
Inductive error :=
  | ErrClusterClosed
  | ErrClusterEmpty
  | ErrUnknownEndpoint
  | ErrNilBalancerElement          (* balancer.ErrNilBalancerElement *)
  | ErrUnknownBalancerElement      (* balancer.ErrUnknownBalancerElement *)
  | Errorf (prefix : string) (wrapped : error).

#[global] Instance error_eq_dec : EqDecision error.
Proof. solve_decision. Defined.

Definition pessimize_failed : string := "cluster: pessimize failed: ".

Inductive panic_value :=
  | PanicMsg (msg : string)        (* panic("...") *)
  | NilDereference                 (* a method call on a nil interface *)
  | CloseOfClosedChannel.

#[global] Instance panic_value_eq_dec : EqDecision panic_value.
Proof. solve_decision. Defined.

Module trace.
(** The observation events of [trace.Driver]; they are appended to a log
    and read by nobody. *)
Inductive event :=
  | ClusterGet
  | ClusterGetDone (e : endpoint.Endpoint) (err : option error)
  | ClusterInsert (e : endpoint.Endpoint)
  | ClusterInsertDone
  | ClusterUpdate (e : endpoint.Endpoint)
  | ClusterUpdateDone (s : state.State)
  | ClusterRemove (e : endpoint.Endpoint)
  | ClusterRemoveDone (s : state.State).
End trace.

(** ** The store *)

(** The objects the registry holds references to.  A reference always
    designates an object: lookups are total, and an object that was never
    built reads as the default one. *)
Record world := mkworld {
  conns : gmap nat conn.object;
  fresh_conn : nat;                      (* the next reference [conn.New] gives *)
  reps : gmap nat repeater.object;
  released : gset nat;                   (* the channels that were closed *)
  fresh_chan : nat;                      (* the next channel [make] gives *)
  traced : list trace.event;
  wg_done : list nat                     (* the wait groups marked done *)
}.

(** ** Options *)

Record optionsHolder := mkholder {
  wg : option nat;                       (* [wg.WG]: nil or a wait group *)
  connConfig : Z                         (* [conn.Config], passed through *)
}.

(** [type option func(options *optionsHolder)] *)
Definition cluster_option := optionsHolder -> optionsHolder.

Definition WithWG (w : nat) : cluster_option :=
  fun options => mkholder (Some w) (connConfig options).

Definition WithConnConfig (cfg : Z) : cluster_option :=
  fun options => mkholder (wg options) cfg.

(** [holder := optionsHolder{}; for _, o := range opts { o(&holder) }] *)
Definition apply_options (opts : list cluster_option) : optionsHolder :=
  foldl (fun holder o => o holder) (mkholder None 0) opts.

(** The value [public.ContextNodeID(ctx)] finds on the context. *)
Record context := mkctx { ContextNodeID : option Z }.

Section registry.
Context {B : Type} `{!balancer.Balancer B}.

(** The runtime state of a connection just built by [conn.New]; the
    constructor lies outside [cluster.go], so the state is a parameter. *)
Variable conn_init : state.State.

(** ** The registry *)

(** The fields of [cluster] that hold state ([trace] and [dial] are
    callbacks, [mu] is the lock).  After [Close] the map is nil, which
    reads like the empty map.  [ready] is an [int] that follows the
    length of the map ([ready_counts]); a map holds far fewer entries
    than [int] has values, so its wrap-around is out of reach and is not
    written. *)
Record cluster := mkcluster {
  balancer : B;
  explorer : option nat;               (* [repeater.Repeater]: nil or a trigger *)
  index : gmap Z entry.Entry;
  ready : Z;
  wait : option nat;                   (* [chan struct{}]: nil or a channel *)
  closed : bool
}.

Record config := mkconfig { reg : cluster; mem : world }.

Inductive outcome (A : Type) :=
  | Returned (v : A) (σ : config)
  | Panicked (p : panic_value) (σ : config).
Arguments Returned {A} v σ.
Arguments Panicked {A} p σ.

Definition final {A} (o : outcome A) : config :=
  match o with Returned _ σ => σ | Panicked _ σ => σ end.

Definition go (A : Type) : Type := config -> outcome A.

Definition ret {A} (v : A) : go A := fun σ => Returned v σ.

Definition bind {A C} (m : go A) (k : A -> go C) : go C :=
  fun σ =>
    match m σ with
    | Returned v σ' => k v σ'
    | Panicked p σ' => Panicked p σ'
    end.

Definition panic {A} (p : panic_value) : go A := fun σ => Panicked p σ.

Definition gets {A} (f : config -> A) : go A := fun σ => Returned (f σ) σ.

Definition modify (f : config -> config) : go unit :=
  fun σ => Returned tt (f σ).

(** [defer d(); body]: [d] runs when [body] is left, by return or by
    panic. *)
Definition defer {A} (d : go unit) (body : go A) : go A :=
  fun σ =>
    match body σ with
    | Returned v σ' =>
        match d σ' with
        | Returned _ σ'' => Returned v σ''
        | Panicked p σ'' => Panicked p σ''
        end
    | Panicked p σ' =>
        match d σ' with
        | Returned _ σ'' => Panicked p σ''
        | Panicked p' σ'' => Panicked p' σ''
        end
    end.

Notation "x <- m ;; k" := (bind m (fun x => k))
  (at level 100, m at next level, k at level 200, right associativity).
Notation "m ;; k" := (bind m (fun _ => k))
  (at level 100, k at level 200, right associativity).

Fixpoint for_each {A} (l : list A) (body : A -> go unit) : go unit :=
  match l with
  | [] => ret tt
  | x :: l' => body x ;; for_each l' body
  end.

(** *** Field updates *)

Definition with_reg (f : cluster -> cluster) (σ : config) : config :=
  mkconfig (f (reg σ)) (mem σ).
Definition with_mem (f : world -> world) (σ : config) : config :=
  mkconfig (reg σ) (f (mem σ)).

Definition set_balancer (b : B) (c : cluster) : cluster :=
  mkcluster b (explorer c) (index c) (ready c) (wait c) (closed c).
Definition set_explorer (r : option nat) (c : cluster) : cluster :=
  mkcluster (balancer c) r (index c) (ready c) (wait c) (closed c).
Definition set_index (m : gmap Z entry.Entry) (c : cluster) : cluster :=
  mkcluster (balancer c) (explorer c) m (ready c) (wait c) (closed c).
Definition set_ready (n : Z) (c : cluster) : cluster :=
  mkcluster (balancer c) (explorer c) (index c) n (wait c) (closed c).
Definition set_wait (ch : option nat) (c : cluster) : cluster :=
  mkcluster (balancer c) (explorer c) (index c) (ready c) ch (closed c).
Definition set_closed (v : bool) (c : cluster) : cluster :=
  mkcluster (balancer c) (explorer c) (index c) (ready c) (wait c) v.

Definition set_conns (m : gmap nat conn.object) (h : world) : world :=
  mkworld m (fresh_conn h) (reps h) (released h) (fresh_chan h)
    (traced h) (wg_done h).
Definition set_reps (m : gmap nat repeater.object) (h : world) : world :=
  mkworld (conns h) (fresh_conn h) m (released h) (fresh_chan h)
    (traced h) (wg_done h).

(** *** Connections, triggers, channels, wait groups, traces *)

(** Modelled from the spec: [conn.New] builds a new connection object for
    the endpoint; the result is never nil. *)
Definition conn_New (e : endpoint.Endpoint) : go conn.Conn :=
  fun σ =>
    let h := mem σ in
    let r := fresh_conn h in
    Returned (Some r)
      (mkconfig (reg σ)
         (mkworld (<[r := conn.mk e conn_init 0]> (conns h)) (S r) (reps h)
            (released h) (fresh_chan h) (traced h) (wg_done h))).

(** [c.Endpoint()] *)
Definition conn_Endpoint (c : conn.Conn) : go endpoint.Endpoint :=
  match c with
  | None => panic NilDereference
  | Some r => gets (fun σ => conn.ep (conns (mem σ) !!! r))
  end.

(** [c.Runtime().GetState()] *)
Definition conn_GetState (c : conn.Conn) : go state.State :=
  match c with
  | None => panic NilDereference
  | Some r => gets (fun σ => conn.st (conns (mem σ) !!! r))
  end.

Definition store_state (r : nat) (s : state.State) (h : world) : world :=
  let o := conns h !!! r in
  set_conns (<[r := conn.mk (conn.ep o) s (conn.closes o)]> (conns h)) h.

(** [c.Runtime().SetState(ctx, endpoint, s)] *)
Definition conn_SetState (c : conn.Conn) (s : state.State) : go unit :=
  match c with
  | None => panic NilDereference
  | Some r => modify (with_mem (store_state r s))
  end.

Definition store_close (r : nat) (h : world) : world :=
  let o := conns h !!! r in
  set_conns (<[r := conn.mk (conn.ep o) (conn.st o) (S (conn.closes o))]> (conns h)) h.

(** [_ = c.Close(ctx)] *)
Definition conn_Close (c : conn.Conn) : go unit :=
  match c with
  | None => panic NilDereference
  | Some r => modify (with_mem (store_close r))
  end.

Definition store_force (r : nat) (h : world) : world :=
  let o := reps h !!! r in
  set_reps (<[r := repeater.mk (S (repeater.forced o)) (repeater.stopped o)]> (reps h)) h.

Definition store_stop (r : nat) (h : world) : world :=
  let o := reps h !!! r in
  set_reps (<[r := repeater.mk (repeater.forced o) (S (repeater.stopped o))]> (reps h)) h.

(** [x.Force()] and [x.Stop()] on the interface value [x]. *)
Definition repeater_Force (x : option nat) : go unit :=
  match x with
  | None => panic NilDereference
  | Some r => modify (with_mem (store_force r))
  end.

Definition repeater_Stop (x : option nat) : go unit :=
  match x with
  | None => panic NilDereference
  | Some r => modify (with_mem (store_stop r))
  end.

(** [close(ch)] *)
Definition close_chan (ch : nat) : go unit :=
  fun σ =>
    let h := mem σ in
    if decide (ch ∈ released h) then Panicked CloseOfClosedChannel σ
    else Returned tt
           (mkconfig (reg σ)
              (mkworld (conns h) (fresh_conn h) (reps h) ({[ch]} ∪ released h)
                 (fresh_chan h) (traced h) (wg_done h))).

(** [make(chan struct{})] *)
Definition make_chan : go nat :=
  fun σ =>
    let h := mem σ in
    Returned (fresh_chan h)
      (mkconfig (reg σ)
         (mkworld (conns h) (fresh_conn h) (reps h) (released h)
            (S (fresh_chan h)) (traced h) (wg_done h))).

Definition emit (e : trace.event) : go unit :=
  modify (with_mem (fun h =>
    mkworld (conns h) (fresh_conn h) (reps h) (released h) (fresh_chan h)
      (traced h ++ [e]) (wg_done h))).

(** [if holder.wg != nil { holder.wg.Done() }] *)
Definition wg_Done (holder : optionsHolder) : go unit :=
  match wg holder with
  | None => ret tt
  | Some w =>
      modify (with_mem (fun h =>
        mkworld (conns h) (fresh_conn h) (reps h) (released h) (fresh_chan h)
          (traced h) (wg_done h ++ [w])))
  end.

(** *** The balancer, called through [c.balancer] *)

Definition balancer_Next : go conn.Conn :=
  fun σ =>
    let '(c, b) := balancer.Next (conns (mem σ)) (balancer (reg σ)) in
    Returned c (with_reg (set_balancer b) σ).

Definition balancer_Insert (c : conn.Conn) (i : info.Info) : go balancer.Element :=
  fun σ =>
    let '(h, b) := balancer.Insert c i (balancer (reg σ)) in
    Returned h (with_reg (set_balancer b) σ).

Definition balancer_Update (h : balancer.Element) (i : info.Info) : go unit :=
  modify (with_reg (fun c => set_balancer (balancer.Update h i (balancer c)) c)).

Definition balancer_Remove (h : balancer.Element) : go unit :=
  modify (with_reg (fun c => set_balancer (balancer.Remove h (balancer c)) c)).

(** Modelled from the spec: [Entry.InsertInto], of package [entry],
    outside [cluster.go], registers the entry with the Balancer Port and
    keeps the handle it obtains. *)
Definition entry_InsertInto (e : entry.Entry) : go entry.Entry :=
  h <- balancer_Insert (entry.Conn e) (entry.Info e) ;;
  ret (entry.mk (entry.Info e) (entry.Conn e) h).

(** Modelled from the spec: [Entry.RemoveFrom], of package [entry],
    outside [cluster.go], unregisters the entry from the Balancer Port;
    the port is never called with a nil handle. *)
Definition entry_RemoveFrom (e : entry.Entry) : go entry.Entry :=
  match entry.Handle e with
  | None => ret e
  | Some _ =>
      balancer_Remove (entry.Handle e) ;;
      ret (entry.mk (entry.Info e) (entry.Conn e) None)
  end.

(** ** The methods of the registry *)

(** [New(trace, dial, balancer)] *)
Definition New (b : B) : cluster :=
  mkcluster b None ∅ 0 None false.

(** [func (c *cluster) Force()] *)
Definition Force : go unit :=
  x <- gets (fun σ => explorer (reg σ)) ;;
  repeater_Force x.

(** [func (c *cluster) SetExplorer(repeater)] *)
Definition SetExplorer (r : option nat) : go unit :=
  modify (with_reg (set_explorer r)).

(** [func (c *cluster) Close(ctx) (err error)]; the map is walked in the
    order [map_to_list] gives, Go's order being unspecified. *)
Definition Close : go (option error) :=
  c <- gets reg ;;
  if closed c then ret None
  else
    (match explorer c with
     | Some _ => repeater_Stop (explorer c)
     | None => ret tt
     end) ;;
    modify (with_reg (set_closed true)) ;;
    modify (with_reg (set_wait None)) ;;
    modify (with_reg (set_index ∅)) ;;
    (match wait c with
     | Some ch => close_chan ch
     | None => ret tt
     end) ;;
    for_each (map_to_list (index c)) (fun '(_, e) =>
      match entry.Conn e with
      | Some _ => conn_Close (entry.Conn e)
      | None => ret tt
      end) ;;
    ret None.

(** [func (c *cluster) Get(ctx) (conn conn.Conn, err error)] *)
Definition Get (ctx : context) : go (conn.Conn * option error) :=
  c <- gets reg ;;
  if closed c then ret (None, Some ErrClusterClosed)
  else
    emit trace.ClusterGet ;;
    match
      match ContextNodeID ctx with
      | Some nodeID => index c !! nodeID
      | None => None
      end
    with
    | Some e => ret (entry.Conn e, None)
    | None =>
        cn <- balancer_Next ;;
        let err := match cn with None => Some ErrClusterEmpty | Some _ => None end in
        (* the argument [conn.Endpoint()] of [onDone] *)
        e <- conn_Endpoint cn ;;
        emit (trace.ClusterGetDone e err) ;;
        ret (cn, err)
    end.

(** [func (c *cluster) Insert(ctx, endpoint, opts...)].  The deferred
    calls run last, in the reverse of the order they were deferred in:
    [onDone()], the release of the gate, [holder.wg.Done()]. *)
Definition Insert (e : endpoint.Endpoint) (opts : list cluster_option) : go unit :=
  let holder := apply_options opts in
  defer (wg_Done holder)
    (cn <- conn_New e ;;
     c <- gets reg ;;
     if closed c then ret tt
     else
       match index c !! endpoint.NodeID e with
       | Some _ => panic (PanicMsg "ydb: can't insert already existing endpoint")
       | None =>
           emit (trace.ClusterInsert e) ;;
           let ent :=
             entry.mk (info.mk (endpoint.LoadFactor e) (endpoint.Local e)) cn None in
           ent <- entry_InsertInto ent ;;
           modify (with_reg (fun c => set_ready (ready c + 1) c)) ;;
           modify (with_reg (set_wait None)) ;;
           modify (with_reg (fun c =>
             set_index (<[endpoint.NodeID e := ent]> (index c)) c)) ;;
           emit trace.ClusterInsertDone ;;
           match wait c with
           | Some ch => close_chan ch
           | None => ret tt
           end
       end).

(** [func (c *cluster) Update(ctx, endpoint, opts...)] *)
Definition Update (e : endpoint.Endpoint) (opts : list cluster_option) : go unit :=
  emit (trace.ClusterUpdate e) ;;
  let holder := apply_options opts in
  defer (wg_Done holder)
    (c <- gets reg ;;
     if closed c then ret tt
     else
       match index c !! endpoint.NodeID e with
       | None => panic (PanicMsg "ydb: can't update not-existing endpoint")
       | Some ent =>
           match entry.Conn ent with
           | None => panic (PanicMsg "ydb: cluster entry with nil conn")
           | Some _ =>
               let ent :=
                 entry.mk (info.mk (endpoint.LoadFactor e) (endpoint.Local e))
                   (entry.Conn ent) (entry.Handle ent) in
               conn_SetState (entry.Conn ent) state.Online ;;
               modify (with_reg (fun c =>
                 set_index (<[endpoint.NodeID e := ent]> (index c)) c)) ;;
               (match entry.Handle ent with
                | Some _ => balancer_Update (entry.Handle ent) (entry.Info ent)
                | None => ret tt
                end) ;;
               (* deferred: [onDone(entry.Conn.Runtime().GetState())] *)
               s <- conn_GetState (entry.Conn ent) ;;
               emit (trace.ClusterUpdateDone s)
           end
       end).

(** [func (c *cluster) Remove(ctx, endpoint, opts...)] *)
Definition Remove (e : endpoint.Endpoint) (opts : list cluster_option) : go unit :=
  let holder := apply_options opts in
  defer (wg_Done holder)
    (c <- gets reg ;;
     if closed c then ret tt
     else
       match index c !! endpoint.NodeID e with
       | None => panic (PanicMsg "ydb: can't remove not-existing endpoint")
       | Some ent =>
           emit (trace.ClusterRemove e) ;;
           ent <- entry_RemoveFrom ent ;;
           modify (with_reg (fun c => set_ready (ready c - 1) c)) ;;
           modify (with_reg (fun c =>
             set_index (delete (endpoint.NodeID e) (index c)) c)) ;;
           (match entry.Conn ent with
            | Some _ => conn_Close (entry.Conn ent)
            | None => ret tt
            end) ;;
           (* the argument of [onDone] *)
           s <- conn_GetState (entry.Conn ent) ;;
           emit (trace.ClusterRemoveDone s)
       end).

Definition is_online (cs : gmap nat conn.object) (e : entry.Entry) : bool :=
  match entry.Conn e with
  | None => false
  | Some r => bool_decide (conn.st (cs !!! r) = state.Online)
  end.

(** [online := 0; for _, e := range c.index { if ... { online++ } }].
    [online] is at most the length of the map, and a map holds far fewer
    entries than [int] has values: the count does not wrap. *)
Definition count_online (cs : gmap nat conn.object) (m : gmap Z entry.Entry) : Z :=
  foldl (fun online '(_, e) => if is_online cs e then online + 1 else online)
    0 (map_to_list m).

(** [func (c *cluster) Pessimize(ctx, endpoint) (err error)] *)
Definition Pessimize (e : endpoint.Endpoint) : go (option error) :=
  c <- gets reg ;;
  if closed c then ret (Some (Errorf pessimize_failed ErrClusterClosed))
  else
    match index c !! endpoint.NodeID e with
    | None => ret (Some (Errorf pessimize_failed ErrUnknownEndpoint))
    | Some ent =>
        match entry.Handle ent with
        | None => ret (Some (Errorf pessimize_failed ErrNilBalancerElement))
        | Some _ =>
            if negb (balancer.Contains (entry.Handle ent) (balancer c))
            then ret (Some (Errorf pessimize_failed ErrUnknownBalancerElement))
            else
              _ep <- conn_Endpoint (entry.Conn ent) ;;
              conn_SetState (entry.Conn ent) state.Banned ;;
              (match explorer c with
               | Some _ =>
                   cs <- gets (fun σ => conns (mem σ)) ;;
                   let online := count_online cs (index c) in
                   if online * 2 <? Z.of_nat (size (index c))
                   then repeater_Force (explorer c)
                   else ret tt
               | None => ret tt
               end) ;;
              ret None
        end
    end.

(** [func (c *cluster) await() func() <-chan struct{}]: the function it
    returns gives the gate to wait on, and makes one when the gate is still
    the one seen at the time of the call. *)
Definition await : go (go (option nat)) :=
  prev <- gets (fun σ => wait (reg σ)) ;;
  ret (w <- gets (fun σ => wait (reg σ)) ;;
       if decide (w = prev) then
         w <- gets (fun σ => wait (reg σ)) ;;
         if decide (w = prev) then
           ch <- make_chan ;;
           modify (with_reg (set_wait (Some ch))) ;;
           ret (Some ch)
         else ret w
       else ret w).

(** The calls of the [Cluster] interface. *)
Inductive call :=
  | CallInsert (e : endpoint.Endpoint) (opts : list cluster_option)
  | CallUpdate (e : endpoint.Endpoint) (opts : list cluster_option)
  | CallGet (ctx : context)
  | CallPessimize (e : endpoint.Endpoint)
  | CallClose
  | CallRemove (e : endpoint.Endpoint) (opts : list cluster_option)
  | CallSetExplorer (r : option nat)
  | CallForce.

(** The configuration a call leaves, however it ends. *)
Definition after (k : call) (σ : config) : config :=
  match k with
  | CallInsert e opts => final (Insert e opts σ)
  | CallUpdate e opts => final (Update e opts σ)
  | CallGet ctx => final (Get ctx σ)
  | CallPessimize e => final (Pessimize e σ)
  | CallClose => final (Close σ)
  | CallRemove e opts => final (Remove e opts σ)
  | CallSetExplorer r => final (SetExplorer r σ)
  | CallForce => final (Force σ)
  end.

(** The number of entries of the map that hold the connection [r]. *)
Definition holders (r : nat) (m : gmap Z entry.Entry) : nat :=
  length (filter (fun p => entry.Conn p.2 = Some r) (map_to_list m)).

Definition closes_of (r : nat) (σ : config) : nat :=
  conn.closes (conns (mem σ) !!! r).
Definition state_of (r : nat) (σ : config) : state.State :=
  conn.st (conns (mem σ) !!! r).
Definition forced_of (r : nat) (σ : config) : nat :=
  repeater.forced (reps (mem σ) !!! r).
Definition stopped_of (r : nat) (σ : config) : nat :=
  repeater.stopped (reps (mem σ) !!! r).

(** The gate, when there is one, was not released yet. *)
Definition gate_open (σ : config) : Prop :=
  match wait (reg σ) with
  | Some ch => ch ∉ released (mem σ)
  | None => True
  end.

(** *** What the methods amount to *)

(** The store after [SetState(Banned)] on the connection [r]. *)
Definition banned (r : nat) (σ : config) : config :=
  mkconfig (reg σ) (store_state r state.Banned (mem σ)).

(** The configuration a [Pessimize] of an entry that holds the connection
    [r] reaches when it returns no error. *)
Definition demote (r : nat) (σ : config) : config :=
  let σ1 := banned r σ in
  match explorer (reg σ) with
  | Some x =>
      if count_online (conns (mem σ1)) (index (reg σ)) * 2
           <? Z.of_nat (size (index (reg σ)))
      then mkconfig (reg σ1) (store_force x (mem σ1))
      else σ1
  | None => σ1
  end.

Definition close_list (l : list (Z * entry.Entry)) (h : world) : world :=
  foldl (fun h p =>
           match entry.Conn p.2 with
           | Some r => store_close r h
           | None => h
           end) h l.

Definition stop_world (x : option nat) (h : world) : world :=
  match x with Some r => store_stop r h | None => h end.

Definition release_world (ch : option nat) (h : world) : world :=
  match ch with
  | Some c =>
      mkworld (conns h) (fresh_conn h) (reps h) ({[c]} ∪ released h)
        (fresh_chan h) (traced h) (wg_done h)
  | None => h
  end.

(** The configuration the first [Close] reaches. *)
Definition shut (σ : config) : config :=
  mkconfig
    (set_index ∅ (set_wait None (set_closed true (reg σ))))
    (close_list (map_to_list (index (reg σ)))
       (release_world (wait (reg σ)) (stop_world (explorer (reg σ)) (mem σ)))).

(** The registry after an [Insert] of a NodeID it did not hold. *)
Definition inserted (e : endpoint.Endpoint) (σ : config) : cluster :=
  let r := fresh_conn (mem σ) in
  let i := info.mk (endpoint.LoadFactor e) (endpoint.Local e) in
  let hb := balancer.Insert (Some r) i (balancer (reg σ)) in
  mkcluster hb.2 (explorer (reg σ))
    (<[endpoint.NodeID e := entry.mk i (Some r) hb.1]> (index (reg σ)))
    (ready (reg σ) + 1) None false.

(** The balancer after [Entry.RemoveFrom]. *)
Definition unregistered (ent : entry.Entry) (b : B) : B :=
  match entry.Handle ent with
  | Some _ => balancer.Remove (entry.Handle ent) b
  | None => b
  end.

(** *** Well-formed registries *)

(** Modelled from the spec: the implementations of the Balancer Port lie
    outside [cluster.go].  What the registry relies on from one: a
    registration gives a handle, the port contains it, and goes on
    containing the handles it contained. *)
Definition registers : Prop :=
  forall c i (b : B),
    (balancer.Insert c i b).1 <> None /\
    balancer.Contains (balancer.Insert c i b).1 (balancer.Insert c i b).2 = true /\
    forall h, balancer.Contains h b = true ->
              balancer.Contains h (balancer.Insert c i b).2 = true.

(** The registries [Insert] builds: open, every entry with a connection
    of its own and a handle the balancer contains. *)
Definition registered (σ : config) : Prop :=
  closed (reg σ) = false /\
  gate_open σ /\
  (forall k ent, index (reg σ) !! k = Some ent ->
     (exists r, entry.Conn ent = Some r /\ (r < fresh_conn (mem σ))%nat) /\
     entry.Handle ent <> None /\
     balancer.Contains (entry.Handle ent) (balancer (reg σ)) = true) /\
  (forall k1 k2 ent1 ent2,
     index (reg σ) !! k1 = Some ent1 -> index (reg σ) !! k2 = Some ent2 ->
     entry.Conn ent1 = entry.Conn ent2 -> k1 = k2).

Definition node_online (σ : config) (k : Z) : Prop :=
  exists ent r,
    index (reg σ) !! k = Some ent /\ entry.Conn ent = Some r /\
    state_of r σ = state.Online.

(** The online count [Pessimize] would find. *)
Definition online (σ : config) : Z :=
  count_online (conns (mem σ)) (index (reg σ)).

(** Every entry holds a connection. *)
Definition connected (σ : config) : Prop :=
  forall k ent, index (reg σ) !! k = Some ent -> entry.Conn ent <> None.

(** While the registry is open the ready counter is the number of
    entries. *)
Definition ready_counts (σ : config) : Prop :=
  closed (reg σ) = false ->
  ready (reg σ) = Z.of_nat (size (index (reg σ))).

(** The calls of a list, one after the other. *)
Definition after_all (ks : list call) (σ : config) : config :=
  foldl (fun σ k => after k σ) σ ks.

Definition insert_call (p : endpoint.Endpoint * list cluster_option) : call :=
  CallInsert p.1 p.2.

End registry.

Arguments Returned {B A} v σ.
Arguments Panicked {B A} p σ.
Arguments cluster B : clear implicits.
Arguments config B : clear implicits.
Arguments outcome B A : clear implicits.
Arguments go B A : clear implicits.
Arguments call : clear implicits.

(** The online entries of a list of entries, one by one. *)
Fixpoint tally_online (cs : gmap nat conn.object) (l : list (Z * entry.Entry)) : Z :=
  match l with
  | [] => 0
  | p :: l' => (if is_online cs p.2 then 1 else 0) + tally_online cs l'
  end.

(** The empty store. *)
Definition world0 : world := mkworld ∅ 0 ∅ ∅ 0 [] [].

(** ** A round-robin balancer

    A small implementation of the Balancer Port, for the worked examples:
    the registered connections in a queue, [Next] serving the front one and
    moving it to the back. *)
Module rr.
Record elem := mkelem { handle : nat; cn : conn.Conn; inf : info.Info }.

Record t := mk { queue : list elem; fresh : nat }.

Definition next (_ : gmap nat conn.object) (b : t) : conn.Conn * t :=
  match queue b with
  | [] => (None, b)
  | x :: q => (cn x, mk (q ++ [x]) (fresh b))
  end.

Definition insert (c : conn.Conn) (i : info.Info) (b : t) : balancer.Element * t :=
  (Some (fresh b), mk (queue b ++ [mkelem (fresh b) c i]) (S (fresh b))).

Definition has (h : balancer.Element) (x : elem) : bool :=
  bool_decide (h = Some (handle x)).

Definition update (h : balancer.Element) (i : info.Info) (b : t) : t :=
  mk ((fun x => if has h x then mkelem (handle x) (cn x) i else x) <$> queue b)
     (fresh b).

Definition remove (h : balancer.Element) (b : t) : t :=
  mk (filter (fun x => has h x = false) (queue b)) (fresh b).

Definition contains (h : balancer.Element) (b : t) : bool :=
  existsb (has h) (queue b).

Definition empty : t := mk [] 0.

#[global] Instance rr_balancer : balancer.Balancer t :=
  {| balancer.Next := next;
     balancer.Insert := insert;
     balancer.Update := update;
     balancer.Remove := remove;
     balancer.Contains := contains |}.
End rr.

(** ** Worked configurations *)

Module example.
Definition ep (n : Z) : endpoint.Endpoint := endpoint.mk n "" 0 false.

(** A new registry over the round-robin balancer. *)
Definition fresh : config rr.t := mkconfig (New rr.empty) world0.

(** The trigger 0 configured and the nodes 1, 2, 3, 4 inserted, their
    connections built online. *)
Definition four : config rr.t :=
  after_all state.Online
    [CallSetExplorer (Some 0%nat); CallInsert (ep 1) []; CallInsert (ep 2) [];
     CallInsert (ep 3) []; CallInsert (ep 4) []]
    fresh.

(** The same, the connections built offline. *)
Definition four_offline : config rr.t :=
  after_all state.Offline
    [CallSetExplorer (Some 0%nat); CallInsert (ep 1) []; CallInsert (ep 2) [];
     CallInsert (ep 3) []; CallInsert (ep 4) []]
    fresh.

(** [four] with a party waiting on the gate. *)
Definition gated : config rr.t :=
  final (bind await (fun gate => gate) four).

(** [four] after [Close]. *)
Definition shutdown : config rr.t := after state.Online CallClose four.

Definition one (cn : conn.Conn) (h : balancer.Element) (b : rr.t) : config rr.t :=
  mkconfig
    (mkcluster b None {[1 := entry.mk (info.mk 0 false) cn h]} 1 None false)
    (mkworld {[0%nat := conn.mk (ep 1) state.Online 0]} 1 ∅ ∅ 0 [] []).

(** Node 1 tracked without a connection, registered under the handle 0. *)
Definition stray : config rr.t :=
  one None (Some 0%nat) (rr.mk [rr.mkelem 0 None (info.mk 0 false)] 1).

(** Node 1 tracked without a handle. *)
Definition untracked : config rr.t := one (Some 0%nat) None rr.empty.

(** Node 1 with a handle the balancer does not contain. *)
Definition stale : config rr.t := one (Some 0%nat) (Some 7%nat) rr.empty.
End example.

(** ** Sorted lists and the positions a diff reports *)

(** A list of endpoints in strictly ascending order of NodeID. *)
Definition ascending (l : list endpoint.Endpoint) : Prop :=
  StronglySorted (fun a b => endpoint.ID a < endpoint.ID b) l.

(** The position of the current list, and the position of the next list, a
    report is about. *)
Definition report_curr (r : diff_report) : option nat :=
  match r with
  | Matched i _ => Some i
  | Removed i => Some i
  | Added _ => None
  end.

Definition report_next (r : diff_report) : option nat :=
  match r with
  | Matched _ j => Some j
  | Removed _ => None
  | Added j => Some j
  end.

(** The arguments [(i, j)] of a call. *)
Definition call_args (c : diff_call) : nat * nat :=
  match c with
  | CallEq i j => (i, j)
  | CallAdd i j => (i, j)
  | CallDel i j => (i, j)
  end.

(** The calls that advance the current list, and those that advance the next
    one. *)
Definition advances_curr (c : diff_call) : bool := is_eq c || is_del c.
Definition advances_next (c : diff_call) : bool := is_eq c || is_add c.

(** What a report of the merge says about the lists, from the positions
    [i] and [j] on. *)
Definition merge_sound (rs : list diff_report)
    (curr : list endpoint.Endpoint) (i : nat)
    (next : list endpoint.Endpoint) (j : nat) : Prop :=
  (forall a b, Matched a b ∈ rs <->
     exists p q x y, a = (i + p)%nat /\ b = (j + q)%nat /\
       curr !! p = Some x /\ next !! q = Some y /\ endpoint.ID x = endpoint.ID y) /\
  (forall a, Removed a ∈ rs <->
     exists p x, a = (i + p)%nat /\ curr !! p = Some x /\
       forall y, y ∈ next -> endpoint.ID y <> endpoint.ID x) /\
  (forall b, Added b ∈ rs <->
     exists q y, b = (j + q)%nat /\ next !! q = Some y /\
       forall x, x ∈ curr -> endpoint.ID x <> endpoint.ID y).

(** The calls follow the cursor [(i, j)] of the merge: each call is made with
    the cursor as its arguments, [eq] and [del] move [i], [eq] and [add]
    move [j]. *)
Fixpoint cursor_ok (i j : nat) (calls : list diff_call) : Prop :=
  match calls with
  | [] => True
  | c :: calls' =>
      call_args c = (i, j) /\
      cursor_ok (if advances_curr c then S i else i)
                (if advances_next c then S j else j) calls'
  end.

(** ** The connections of a registry *)

(** The connections are in order: every connection an entry holds was built
    by [conn.New] and was never closed, no two entries hold the same
    connection, no connection was closed twice, and the connections yet to be
    built were never closed. *)
Definition tidy {B : Type} (σ : config B) : Prop :=
  (forall k ent r,
     index (reg σ) !! k = Some ent -> entry.Conn ent = Some r ->
     (r < fresh_conn (mem σ))%nat /\ closes_of r σ = 0%nat) /\
  (forall k1 k2 ent1 ent2 r,
     index (reg σ) !! k1 = Some ent1 -> index (reg σ) !! k2 = Some ent2 ->
     entry.Conn ent1 = Some r -> entry.Conn ent2 = Some r -> k1 = k2) /\
  (forall r, (closes_of r σ <= 1)%nat) /\
  (forall r, (fresh_conn (mem σ) <= r)%nat -> closes_of r σ = 0%nat).

(** ** The diff as a driver of callbacks *)

(** One call, made on the callbacks [eq], [add] and [del]. *)
Definition run_call {St : Type} (eq add del : nat -> nat -> St -> St)
    (c : diff_call) (s : St) : St :=
  match c with
  | CallEq i j => eq i j s
  | CallAdd i j => add i j s
  | CallDel i j => del i j s
  end.

(** [o], then [m] unless [o] panicked: a panic of a callback ends the run of
    the diff. *)
Definition and_then {B : Type} (o : outcome B unit) (m : go B unit)
    : outcome B unit :=
  match o with
  | Returned _ σ => m σ
  | Panicked p σ => Panicked p σ
  end.

(** [l[i]], which panics out of range. *)
Definition at_index {B : Type} {A : Type} (l : list A) (i : nat)
    (k : A -> go B unit) : go B unit :=
  match l !! i with
  | Some x => k x
  | None => panic (PanicMsg "runtime error: index out of range")
  end.

(** Modelled from the spec: the owning driver, outside [cluster.go], turns a
    discovery snapshot into calls of the registry by way of the diff: a
    matched pair drives [Update], an added element [Insert], a removed one
    [Remove]. *)
Definition reconcile {B : Type} `{!balancer.Balancer B} (conn_init : state.State)
    (w : int_size) (curr next : list endpoint.Endpoint) (σ : config B)
    : option (outcome B unit) :=
  DiffEndpoints w curr next
    (fun _ j o => and_then o (at_index next j (fun e => Update e [])))
    (fun _ j o => and_then o (at_index next j (fun e => Insert conn_init e [])))
    (fun i _ o => and_then o (at_index curr i (fun e => Remove e [])))
    (Returned tt σ).

(** The call of the registry a report drives. *)
Definition apply_report {B : Type} `{!balancer.Balancer B} (conn_init : state.State)
    (curr next : list endpoint.Endpoint) (r : diff_report) (o : outcome B unit)
    : outcome B unit :=
  match r with
  | Matched _ j => and_then o (at_index next j (fun e => Update e []))
  | Added j => and_then o (at_index next j (fun e => Insert conn_init e []))
  | Removed i => and_then o (at_index curr i (fun e => Remove e []))
  end.

(** The call of the diff of [next] against [curr] that answers a call of the
    diff of [curr] against [next]: the two sides change places, an element
    removed one way is added the other way. *)
Definition mirror (c : diff_call) : diff_call :=
  match c with
  | CallEq i j => CallEq j i
  | CallAdd i j => CallDel j i
  | CallDel i j => CallAdd j i
  end.

(** ** Further worked configurations *)

(** The trigger 0 configured and the nodes 1, 2, 3, 4 inserted, their
    connections built in the state Unknown. *)
Definition four_unknown : config rr.t :=
  after_all state.Unknown
    [CallSetExplorer (Some 0%nat);
     CallInsert (example.ep 1) []; CallInsert (example.ep 2) [];
     CallInsert (example.ep 3) []; CallInsert (example.ep 4) []]
    example.fresh.

(** The same after an [Update] of each node. *)
Definition four_updated : config rr.t :=
  after_all state.Unknown
    [CallUpdate (example.ep 1) []; CallUpdate (example.ep 2) [];
     CallUpdate (example.ep 3) []; CallUpdate (example.ep 4) []]
    four_unknown.

(** * Proofs *)

(** ** The comparator *)

Lemma wrap_unique n x y k :
  0 < n -> - 2 ^ (n - 1) <= y < 2 ^ (n - 1) -> y = x + k * 2 ^ n -> wrap n x = y.
Proof.
  intros Hn Hy ->. unfold wrap.
  assert (H2 : 2 ^ n = 2 * 2 ^ (n - 1)).
  { rewrite <- Z.pow_succ_r by lia. f_equal. lia. }
  assert (Hp : 0 < 2 ^ (n - 1)) by (apply Z.pow_pos_nonneg; lia).
  replace (x + 2 ^ (n - 1)) with ((x + k * 2 ^ n + 2 ^ (n - 1)) + (- k) * 2 ^ n) by ring.
  rewrite Z.mod_add by lia.
  rewrite Z.mod_small by lia. lia.
Qed.

Lemma wrap_decomp n x :
  0 < n -> exists k, wrap n x = x + k * 2 ^ n /\ - 2 ^ (n - 1) <= wrap n x < 2 ^ (n - 1).
Proof.
  intros Hn. unfold wrap.
  assert (H2 : 2 ^ n = 2 * 2 ^ (n - 1)).
  { rewrite <- Z.pow_succ_r by lia. f_equal. lia. }
  assert (Hp : 0 < 2 ^ (n - 1)) by (apply Z.pow_pos_nonneg; lia).
  exists (- ((x + 2 ^ (n - 1)) / 2 ^ n)).
  pose proof (Z.div_mod (x + 2 ^ (n - 1)) (2 ^ n) ltac:(lia)).
  pose proof (Z.mod_pos_bound (x + 2 ^ (n - 1)) (2 ^ n) ltac:(lia)).
  split; lia.
Qed.

Lemma pow_64_bits w : exists m, 2 ^ 64 = m * 2 ^ bits w.
Proof. destruct w; [exists (2 ^ 32) | exists 1]; reflexivity. Qed.

Lemma bits_pos w : 0 < bits w.
Proof. destruct w; reflexivity. Qed.

Lemma compareEndpoints_wrap w a b :
  compareEndpoints w a b = wrap (bits w) (endpoint.ID a - endpoint.ID b).
Proof.
  unfold compareEndpoints, int, int64.
  destruct (wrap_decomp 64 (endpoint.ID a) ltac:(lia)) as (ka & Ha & _).
  destruct (wrap_decomp 64 (endpoint.ID b) ltac:(lia)) as (kb & Hb & _).
  destruct (wrap_decomp 64 (wrap 64 (endpoint.ID a) - wrap 64 (endpoint.ID b)) ltac:(lia))
    as (kc & Hc & _).
  destruct (wrap_decomp (bits w) (endpoint.ID a - endpoint.ID b) (bits_pos w))
    as (kd & Hd & Hr).
  destruct (pow_64_bits w) as (m & Hm).
  apply (wrap_unique _ _ _ (kd - (ka - kb + kc) * m) (bits_pos w) Hr).
  rewrite Hc, Ha, Hb, Hd. rewrite Hm. ring.
Qed.

Lemma compareEndpoints_exact w a b :
  - 2 ^ (bits w - 1) <= endpoint.ID a - endpoint.ID b < 2 ^ (bits w - 1) ->
  compareEndpoints w a b = endpoint.ID a - endpoint.ID b.
Proof.
  intros H. rewrite compareEndpoints_wrap.
  apply (wrap_unique _ _ _ 0 (bits_pos w) H). ring.
Qed.

Lemma compareEndpoints_same w x : compareEndpoints w x x = 0.
Proof.
  rewrite compareEndpoints_wrap, Z.sub_diag.
  apply (wrap_unique _ _ _ 0 (bits_pos w)); [|ring].
  destruct w; simpl; lia.
Qed.

(** Two NodeIDs less than the number of values of [int] apart compare equal
    only when they are equal. *)
Lemma compareEndpoints_zero w a b :
  - 2 ^ bits w < endpoint.ID a - endpoint.ID b < 2 ^ bits w ->
  compareEndpoints w a b = 0 -> endpoint.ID a = endpoint.ID b.
Proof.
  intros Hr Hz. rewrite compareEndpoints_wrap in Hz.
  destruct (wrap_decomp (bits w) (endpoint.ID a - endpoint.ID b) (bits_pos w))
    as (k & Hk & _).
  rewrite Hz in Hk.
  assert (0 < 2 ^ bits w) by (destruct w; reflexivity).
  assert (k = 0) by nia. subst k. lia.
Qed.

(** Where the difference fits in [int] the result has its sign. *)
Lemma compareEndpoints_sign w a b :
  - 2 ^ (bits w - 1) <= endpoint.ID a - endpoint.ID b < 2 ^ (bits w - 1) ->
  (compareEndpoints w a b < 0 <-> endpoint.ID a < endpoint.ID b) /\
  (compareEndpoints w a b = 0 <-> endpoint.ID a = endpoint.ID b) /\
  (compareEndpoints w a b > 0 <-> endpoint.ID a > endpoint.ID b).
Proof. intros H. rewrite compareEndpoints_exact by done. lia. Qed.

(** NodeIDs of 32 bits, unsigned, on a target whose [int] has 64: every
    difference fits. *)
Lemma compareEndpoints_uint32_Int64 a b :
  0 <= endpoint.ID a < 2 ^ 32 -> 0 <= endpoint.ID b < 2 ^ 32 ->
  compareEndpoints Int64 a b = endpoint.ID a - endpoint.ID b.
Proof. intros Ha Hb. apply compareEndpoints_exact. simpl. lia. Qed.


(** ** The sort *)

Section sorting.
Variable w : int_size.
Variable es : list endpoint.Endpoint.
Hypothesis exact : cmp_exact w es es.

Let desc : relation endpoint.Endpoint :=
  fun a b => endpoint.ID b <= endpoint.ID a.
Let less : endpoint.Endpoint -> endpoint.Endpoint -> bool :=
  fun x y => compareEndpoints w x y <? 0.

Lemma less_spec x y :
  x ∈ es -> y ∈ es -> less x y = true <-> endpoint.ID x < endpoint.ID y.
Proof.
  intros Hx Hy. unfold less.
  rewrite compareEndpoints_exact by (by apply exact). rewrite Z.ltb_lt. lia.
Qed.

Lemma sort_sink_spec x : forall l,
  x ∈ es -> (forall y, y ∈ l -> y ∈ es) -> Sorted desc l ->
  Sorted desc (sort_sink less x l) /\ sort_sink less x l ≡ₚ x :: l /\
  (forall y, desc y x -> HdRel desc y l -> HdRel desc y (sort_sink less x l)).
Proof.
  induction l as [|y l IH]; intros Hx Hl Hs; simpl.
  - split; [repeat constructor|]. split; [done|]. intros; by constructor.
  - apply Sorted_inv in Hs as [Hs Hhd].
    destruct (IH Hx (fun z Hz => Hl z (list_elem_of_further _ _ _ Hz)) Hs)
      as (IHs & IHp & IHh).
    destruct (less x y) eqn:Hlt.
    + apply less_spec in Hlt; [|done|apply Hl; by left].
      split; [|split].
      * constructor; [done|]. apply IHh; [unfold desc; lia|done].
      * rewrite IHp. apply perm_swap.
      * intros z _ Hz. apply HdRel_inv in Hz. by constructor.
    + assert (~ endpoint.ID x < endpoint.ID y) as Hge.
      { intros Hlt'. apply less_spec in Hlt'; [congruence|done|apply Hl; by left]. }
      split; [|split].
      * constructor; [by constructor|]. constructor. unfold desc. lia.
      * done.
      * intros z Hzx _. by constructor.
Qed.

Lemma sort_fold_spec : forall l acc,
  (forall y, y ∈ l -> y ∈ es) -> (forall y, y ∈ acc -> y ∈ es) ->
  Sorted desc acc ->
  Sorted desc (foldl (fun acc x => sort_sink less x acc) acc l) /\
  foldl (fun acc x => sort_sink less x acc) acc l ≡ₚ acc ++ l.
Proof.
  induction l as [|x l IH]; intros acc Hl Hd Hs; simpl.
  - by rewrite app_nil_r.
  - destruct (sort_sink_spec x acc) as (Hs1 & Hp1 & _);
      [apply Hl; by left | done | done |].
    destruct (IH (sort_sink less x acc)) as (Hs2 & Hp2); [| |done|].
    + intros y Hy. apply Hl. by right.
    + intros y Hy. rewrite Hp1 in Hy.
      apply elem_of_cons in Hy as [->|Hy]; [apply Hl; by left | by apply Hd].
    + split; [done|]. rewrite Hp2, Hp1. simpl. apply Permutation_middle.
Qed.

(** Where the comparator is exact on a slice, [SortEndpoints] leaves its
    elements in ascending order of NodeID. *)
Lemma SortEndpoints_sorts :
  Sorted (fun a b => endpoint.ID a <= endpoint.ID b) (SortEndpoints w es) /\
  SortEndpoints w es ≡ₚ es.
Proof.
  unfold SortEndpoints, sort_Slice.
  destruct (sort_fold_spec es []) as [Hs Hp]; [done | | constructor |].
  { intros y Hy. by apply elem_of_nil in Hy. }
  split.
  - apply Sorted_reverse in Hs. exact Hs.
  - etransitivity; [apply reverse_Permutation | exact Hp].
Qed.
End sorting.


(** ** The diff *)

Lemma foldl_snoc {A C} (f : A -> C) (l : list A) (acc : list C) :
  foldl (fun s k => s ++ [f k]) acc l = acc ++ (f <$> l).
Proof.
  revert acc. induction l as [|x l IH]; intros acc; simpl.
  - by rewrite app_nil_r.
  - rewrite IH. by rewrite <- app_assoc.
Qed.

Lemma merge_spec_nil i next j :
  merge_spec [] i next j = Added <$> seq j (length next).
Proof. by destruct next. Qed.

Lemma merge_spec_cons_nil x curr i j :
  merge_spec (x :: curr) i [] j = Removed <$> seq i (length (x :: curr)).
Proof. reflexivity. Qed.

Lemma merge_spec_cons_cons x curr i y next j :
  merge_spec (x :: curr) i (y :: next) j =
    if endpoint.ID x =? endpoint.ID y
    then Matched i j :: merge_spec curr (S i) next (S j)
    else if endpoint.ID x <? endpoint.ID y
    then Removed i :: merge_spec curr (S i) (y :: next) j
    else Added j :: merge_spec (x :: curr) i next (S j).
Proof. reflexivity. Qed.

Lemma merge_by_nil cmp i next j :
  merge_by cmp [] i next j = Added <$> seq j (length next).
Proof. by destruct next. Qed.

Lemma merge_by_cons_nil cmp x curr i j :
  merge_by cmp (x :: curr) i [] j = Removed <$> seq i (length (x :: curr)).
Proof. reflexivity. Qed.

Lemma merge_by_cons_cons cmp x curr i y next j :
  merge_by cmp (x :: curr) i (y :: next) j =
    if cmp x y <? 0
    then Removed i :: merge_by cmp curr (S i) (y :: next) j
    else if 0 <? cmp x y
    then Added j :: merge_by cmp (x :: curr) i next (S j)
    else Matched i j :: merge_by cmp curr (S i) next (S j).
Proof. reflexivity. Qed.

(** With a comparator that is exact on the lists, the verdicts are those of
    the order of the NodeIDs. *)
Lemma merge_by_exact w curr : forall i next j,
  cmp_exact w curr next ->
  merge_by (compareEndpoints w) curr i next j = merge_spec curr i next j.
Proof.
  induction curr as [|x curr IHc]; intros i next.
  - intros j _. by rewrite merge_by_nil, merge_spec_nil.
  - induction next as [|y next IHn]; intros j Hexact; [reflexivity|].
    rewrite merge_by_cons_cons, merge_spec_cons_cons.
    rewrite compareEndpoints_exact by (apply Hexact; by left).
    destruct (Z.eqb_spec (endpoint.ID x) (endpoint.ID y)) as [Heq|Hne].
    + replace (endpoint.ID x - endpoint.ID y <? 0) with false by lia.
      replace (0 <? endpoint.ID x - endpoint.ID y) with false by lia.
      f_equal. apply IHc. intros a b Ha Hb. apply Hexact; by right.
    + destruct (Z.ltb_spec (endpoint.ID x) (endpoint.ID y)) as [Hlt|Hge].
      * replace (endpoint.ID x - endpoint.ID y <? 0) with true by lia.
        f_equal. apply IHc. intros a b Ha Hb. apply Hexact; [by right|done].
      * replace (endpoint.ID x - endpoint.ID y <? 0) with false by lia.
        replace (0 <? endpoint.ID x - endpoint.ID y) with true by lia.
        f_equal. apply IHn. intros a b Ha Hb. apply Hexact; [done|by right].
Qed.

Lemma diffslice_merge_done {St} cmp (eqf addf delf : nat -> nat -> St -> St)
    a b fuel i j s :
  (i <? a)%nat && (j <? b)%nat = false ->
  diffslice_merge cmp eqf addf delf a b fuel i j s = Some (i, j, s).
Proof. intros Hc. destruct fuel; simpl; by rewrite Hc. Qed.

Section diff_proofs.
Variable w : int_size.
Variables curr next : list endpoint.Endpoint.

Lemma DiffEndpoints_calls_run :
  DiffEndpoints_calls w curr next = diff_from w curr next (length curr + length next) 0 0 [].
Proof. reflexivity. Qed.

Lemma diff_from_done fuel i j acc :
  (i <? length curr)%nat && (j <? length next)%nat = false ->
  diff_from w curr next fuel i j acc =
    Some (acc ++ ((fun k => CallDel k j) <$> seq i (length curr - i))
              ++ (CallAdd (Nat.max i (length curr)) <$> seq j (length next - j))).
Proof.
  intros Hc. unfold diff_from. rewrite diffslice_merge_done by done.
  unfold diffslice_add_tail, diffslice_del_tail.
  rewrite (foldl_snoc (fun k => CallDel k j)).
  rewrite (foldl_snoc (fun k => CallAdd _ k)).
  by rewrite <- app_assoc.
Qed.

Lemma diff_from_step fuel i j acc x y :
  curr !! i = Some x -> next !! j = Some y ->
  diff_from w curr next (S fuel) i j acc =
    let c := compareEndpoints w x y in
    if c <? 0 then diff_from w curr next fuel (S i) j (acc ++ [CallDel i j])
    else if 0 <? c then diff_from w curr next fuel i (S j) (acc ++ [CallAdd i j])
    else diff_from w curr next fuel (S i) (S j) (acc ++ [CallEq i j]).
Proof.
  intros Hx Hy. unfold diff_from. simpl.
  apply lookup_lt_Some in Hx as Hi. apply lookup_lt_Some in Hy as Hj.
  assert ((i <? length curr)%nat && (j <? length next)%nat = true) as ->.
  { apply andb_true_iff; split; apply Nat.ltb_lt; lia. }
  rewrite Hx, Hy. simpl.
  destruct (compareEndpoints w x y <? 0); [reflexivity|].
  destruct (0 <? compareEndpoints w x y); reflexivity.
Qed.

(** The run is the merge with the verdicts of [compareEndpoints]: it
    ends, and no index leaves its slice. *)
Lemma diff_from_merge fuel : forall i j acc,
  (length curr - i + (length next - j) <= fuel)%nat ->
  exists calls,
    diff_from w curr next fuel i j acc = Some (acc ++ calls) /\
    report_of <$> calls
    = merge_by (compareEndpoints w) (drop i curr) i (drop j next) j.
Proof.
  induction fuel as [|fuel IH]; intros i j acc Hfuel.
  - (* both sides are exhausted *)
    rewrite diff_from_done
      by (apply andb_false_iff; left; apply Nat.ltb_ge; lia).
    eexists; split; [reflexivity|].
    replace (length curr - i)%nat with 0%nat by lia.
    replace (length next - j)%nat with 0%nat by lia.
    rewrite drop_ge by lia. by rewrite (drop_ge next) by lia.
  - destruct (curr !! i) as [x|] eqn:Hx; last first.
    { apply lookup_ge_None in Hx.
      rewrite diff_from_done
        by (apply andb_false_iff; left; apply Nat.ltb_ge; lia).
      eexists; split; [reflexivity|].
      replace (length curr - i)%nat with 0%nat by lia.
      rewrite drop_ge by lia. rewrite merge_by_nil, length_drop. simpl.
      rewrite <- list_fmap_compose. reflexivity. }
    destruct (next !! j) as [y|] eqn:Hy; last first.
    { apply lookup_ge_None in Hy.
      rewrite diff_from_done
        by (apply andb_false_iff; right; apply Nat.ltb_ge; lia).
      eexists; split; [reflexivity|].
      replace (length next - j)%nat with 0%nat by lia.
      rewrite (drop_ge next) by lia.
      rewrite (drop_S _ _ _ Hx), merge_by_cons_nil.
      rewrite <- (drop_S _ _ _ Hx), length_drop. simpl. rewrite app_nil_r.
      rewrite <- list_fmap_compose. reflexivity. }
    rewrite (diff_from_step _ _ _ _ _ _ Hx Hy). cbv zeta.
    rewrite (drop_S _ _ _ Hx), (drop_S _ _ _ Hy), merge_by_cons_cons.
    apply lookup_lt_Some in Hx as Hi. apply lookup_lt_Some in Hy as Hj.
    destruct (compareEndpoints w x y <? 0).
    + destruct (IH (S i) j (acc ++ [CallDel i j]) ltac:(lia)) as (calls & -> & Hr).
      exists (CallDel i j :: calls). rewrite <- app_assoc. split; [reflexivity|].
      rewrite fmap_cons, Hr. simpl. by rewrite (drop_S _ _ _ Hy).
    + destruct (0 <? compareEndpoints w x y).
      * destruct (IH i (S j) (acc ++ [CallAdd i j]) ltac:(lia)) as (calls & -> & Hr).
        exists (CallAdd i j :: calls). rewrite <- app_assoc. split; [reflexivity|].
        rewrite fmap_cons, Hr. simpl. by rewrite (drop_S _ _ _ Hx).
      * destruct (IH (S i) (S j) (acc ++ [CallEq i j]) ltac:(lia)) as (calls & -> & Hr).
        exists (CallEq i j :: calls). rewrite <- app_assoc. split; [reflexivity|].
        rewrite fmap_cons, Hr. reflexivity.
Qed.
End diff_proofs.


(** Counting the reports of the merge. *)
Lemma filter_fmap_seq {A} (f : nat -> A) (p : A -> bool) i n :
  (forall k, p (f k) = true) -> List.filter p (f <$> seq i n) = f <$> seq i n.
Proof.
  intros Hp. revert i. induction n as [|n IH]; intros i; simpl; [done|].
  by rewrite Hp, IH.
Qed.

Lemma filter_fmap_seq_none {A} (f : nat -> A) (p : A -> bool) i n :
  (forall k, p (f k) = false) -> List.filter p (f <$> seq i n) = [].
Proof.
  intros Hp. revert i. induction n as [|n IH]; intros i; simpl; [done|].
  by rewrite Hp, IH.
Qed.

Lemma merge_by_counts cmp curr : forall i next j,
  (length (List.filter is_removed (merge_by cmp curr i next j))
   + length (List.filter is_matched (merge_by cmp curr i next j)) = length curr)%nat /\
  (length (List.filter is_added (merge_by cmp curr i next j))
   + length (List.filter is_matched (merge_by cmp curr i next j)) = length next)%nat.
Proof.
  induction curr as [|x curr IHc]; intros i next.
  - intros j. rewrite merge_by_nil.
    rewrite (filter_fmap_seq_none Added is_removed) by done.
    rewrite (filter_fmap_seq_none Added is_matched) by done.
    rewrite (filter_fmap_seq Added is_added) by done.
    rewrite length_fmap, length_seq. simpl. lia.
  - induction next as [|y next IHn]; intros j.
    + rewrite merge_by_cons_nil.
      rewrite (filter_fmap_seq_none Removed is_added) by done.
      rewrite (filter_fmap_seq_none Removed is_matched) by done.
      rewrite (filter_fmap_seq Removed is_removed) by done.
      rewrite length_fmap, length_seq. simpl. lia.
    + rewrite merge_by_cons_cons.
      destruct (cmp x y <? 0).
      * destruct (IHc (S i) (y :: next) j) as [H1 H2]. simpl in *. lia.
      * destruct (0 <? cmp x y).
        -- destruct (IHn (S j)) as [H1 H2]. simpl in *. lia.
        -- destruct (IHc (S i) next (S j)) as [H1 H2]. simpl. lia.
Qed.

Lemma merge_by_identical cmp l : forall i j,
  (forall x, x ∈ l -> cmp x x = 0) ->
  length (List.filter is_matched (merge_by cmp l i l j)) = length l.
Proof.
  induction l as [|x l IH]; intros i j Hrefl; [done|].
  rewrite merge_by_cons_cons, Hrefl by (by left). simpl.
  rewrite IH; [done|]. intros y Hy. apply Hrefl. by right.
Qed.

Lemma merge_by_disjoint cmp curr : forall i next j,
  (forall x y, x ∈ curr -> y ∈ next -> cmp x y <> 0) ->
  List.filter is_matched (merge_by cmp curr i next j) = [].
Proof.
  induction curr as [|x curr IHc]; intros i next.
  - intros j _. rewrite merge_by_nil.
    by rewrite (filter_fmap_seq_none Added is_matched).
  - induction next as [|y next IHn]; intros j Hd.
    + rewrite merge_by_cons_nil.
      by rewrite (filter_fmap_seq_none Removed is_matched).
    + rewrite merge_by_cons_cons.
      pose proof (Hd x y ltac:(by left) ltac:(by left)) as Hxy.
      destruct (Z.ltb_spec (cmp x y) 0); simpl.
      * apply IHc. intros a b Ha Hb. apply Hd; [by right | done].
      * destruct (Z.ltb_spec 0 (cmp x y)); simpl; [|lia].
        apply IHn. intros a b Ha Hb. apply Hd; [done | by right].
Qed.

Lemma tally_reports calls :
  tally is_del calls = length (List.filter is_removed (report_of <$> calls)) /\
  tally is_add calls = length (List.filter is_added (report_of <$> calls)) /\
  tally is_eq calls = length (List.filter is_matched (report_of <$> calls)).
Proof.
  unfold tally. induction calls as [|c calls (IH1 & IH2 & IH3)]; [done|].
  destruct c; simpl in *; rewrite ?IH1, ?IH2, ?IH3; done.
Qed.

(** On identical lists every turn finds equal heads, whatever the width of
    [int] and the NodeIDs. *)
Lemma diff_from_identical w l fuel : forall i acc,
  (length l - i <= fuel)%nat ->
  diff_from w l l fuel i i acc
  = Some (acc ++ ((fun k => CallEq k k) <$> seq i (length l - i))).
Proof.
  induction fuel as [|fuel IH]; intros i acc Hfuel.
  - rewrite diff_from_done by (apply andb_false_iff; left; apply Nat.ltb_ge; lia).
    replace (length l - i)%nat with 0%nat by lia. reflexivity.
  - destruct (l !! i) as [x|] eqn:Hx.
    + rewrite (diff_from_step _ _ _ _ _ _ _ x x Hx Hx). cbv zeta.
      rewrite compareEndpoints_same. simpl.
      apply lookup_lt_Some in Hx as Hi.
      rewrite IH by lia. rewrite <- app_assoc. simpl.
      replace (length l - i)%nat with (S (length l - S i)) by lia. reflexivity.
    + apply lookup_ge_None in Hx.
      rewrite diff_from_done by (apply andb_false_iff; left; apply Nat.ltb_ge; lia).
      replace (length l - i)%nat with 0%nat by lia. reflexivity.
Qed.

Lemma DiffEndpoints_identical w l :
  DiffEndpoints_calls w l l = Some ((fun k => CallEq k k) <$> seq 0 (length l)).
Proof.
  rewrite DiffEndpoints_calls_run, diff_from_identical by lia.
  by rewrite Nat.sub_0_r.
Qed.

(** Where [int] has 32 bits the diff takes the smaller head for the greater:
    the node 2147483651, present on both sides, is reported added and
    removed, not matched. *)
Remark DiffEndpoints_overflow_example :
  DiffEndpoints_calls Int32
    [example.ep 0; example.ep 2147483651] [example.ep 2147483651]
  = Some [CallAdd 0 0; CallDel 0 1; CallDel 1 1].
Proof. reflexivity. Qed.


(** ** The methods of the registry *)

Ltac go_unfold :=
  unfold bind, defer, gets, ret, panic, modify, emit, wg_Done,
    conn_New, conn_Endpoint, conn_GetState, conn_SetState, conn_Close,
    repeater_Force, repeater_Stop, balancer_Next, balancer_Insert,
    balancer_Update, balancer_Remove, with_reg, with_mem in *.

Section registry_proofs.
Context {B : Type} `{!balancer.Balancer B}.
Variable conn_init : state.State.
Implicit Types (σ : config B) (e : endpoint.Endpoint).

Lemma Insert_closed σ e opts :
  closed (reg σ) = true ->
  exists σ', Insert conn_init e opts σ = Returned tt σ' /\ reg σ' = reg σ.
Proof.
  intros Hc. unfold Insert. go_unfold. simpl. rewrite Hc.
  destruct (wg (apply_options opts)); simpl; eexists; split; reflexivity.
Qed.

Lemma Update_closed σ e opts :
  closed (reg σ) = true ->
  exists σ', Update e opts σ = Returned tt σ' /\ reg σ' = reg σ.
Proof.
  intros Hc. unfold Update. go_unfold. simpl. rewrite Hc.
  destruct (wg (apply_options opts)); simpl; eexists; split; reflexivity.
Qed.

Lemma Remove_closed σ e opts :
  closed (reg σ) = true ->
  exists σ', Remove e opts σ = Returned tt σ' /\ reg σ' = reg σ.
Proof.
  intros Hc. unfold Remove. go_unfold. simpl. rewrite Hc.
  destruct (wg (apply_options opts)); simpl; eexists; split; reflexivity.
Qed.

Lemma Get_closed σ ctx :
  closed (reg σ) = true ->
  Get ctx σ = Returned (None, Some ErrClusterClosed) σ.
Proof. intros Hc. unfold Get. go_unfold. by rewrite Hc. Qed.

Lemma Pessimize_closed σ e :
  closed (reg σ) = true ->
  Pessimize e σ = Returned (Some (Errorf pessimize_failed ErrClusterClosed)) σ.
Proof. intros Hc. unfold Pessimize. go_unfold. by rewrite Hc. Qed.

Lemma Close_closed σ :
  closed (reg σ) = true -> Close σ = Returned None σ.
Proof. intros Hc. unfold Close. go_unfold. by rewrite Hc. Qed.

Lemma after_closed k σ :
  closed (reg σ) = true -> closed (reg (after conn_init k σ)) = true.
Proof.
  intros Hc. destruct k; simpl.
  - destruct (Insert_closed σ e opts Hc) as (σ' & -> & Hr). simpl. by rewrite Hr.
  - destruct (Update_closed σ e opts Hc) as (σ' & -> & Hr). simpl. by rewrite Hr.
  - by rewrite Get_closed.
  - by rewrite Pessimize_closed.
  - by rewrite Close_closed.
  - destruct (Remove_closed σ e opts Hc) as (σ' & -> & Hr). simpl. by rewrite Hr.
  - done.
  - unfold Force. go_unfold. by destruct (explorer (reg σ)).
Qed.

Lemma after_all_closed ks σ :
  closed (reg σ) = true ->
  closed (reg (foldl (fun σ k => after conn_init k σ) σ ks)) = true.
Proof.
  revert σ. induction ks as [|k ks IH]; intros σ Hc; simpl; [done|].
  by apply IH, after_closed.
Qed.

(** Contract violations *)
Lemma Insert_existing σ e opts :
  closed (reg σ) = false ->
  is_Some (index (reg σ) !! endpoint.NodeID e) ->
  exists σ',
    Insert conn_init e opts σ
      = Panicked (PanicMsg "ydb: can't insert already existing endpoint") σ'
    /\ reg σ' = reg σ.
Proof.
  intros Hc [ent Hent]. unfold Insert. go_unfold. simpl. rewrite Hc, Hent.
  destruct (wg (apply_options opts)); simpl; eexists; split; reflexivity.
Qed.

Lemma Update_missing σ e opts :
  closed (reg σ) = false ->
  index (reg σ) !! endpoint.NodeID e = None ->
  exists σ',
    Update e opts σ
      = Panicked (PanicMsg "ydb: can't update not-existing endpoint") σ'
    /\ reg σ' = reg σ.
Proof.
  intros Hc Hent. unfold Update. go_unfold. simpl. rewrite Hc, Hent.
  destruct (wg (apply_options opts)); simpl; eexists; split; reflexivity.
Qed.

Lemma Update_nil_conn σ e opts ent :
  closed (reg σ) = false ->
  index (reg σ) !! endpoint.NodeID e = Some ent ->
  entry.Conn ent = None ->
  exists σ',
    Update e opts σ = Panicked (PanicMsg "ydb: cluster entry with nil conn") σ'
    /\ reg σ' = reg σ.
Proof.
  intros Hc Hent Hn. unfold Update. go_unfold. simpl. rewrite Hc, Hent, Hn.
  destruct (wg (apply_options opts)); simpl; eexists; split; reflexivity.
Qed.

Lemma Remove_missing σ e opts :
  closed (reg σ) = false ->
  index (reg σ) !! endpoint.NodeID e = None ->
  exists σ',
    Remove e opts σ
      = Panicked (PanicMsg "ydb: can't remove not-existing endpoint") σ'
    /\ reg σ' = reg σ.
Proof.
  intros Hc Hent. unfold Remove. go_unfold. simpl. rewrite Hc, Hent.
  destruct (wg (apply_options opts)); simpl; eexists; split; reflexivity.
Qed.

(** Routing *)
Lemma Get_hit σ nodeID ent :
  closed (reg σ) = false ->
  index (reg σ) !! nodeID = Some ent ->
  exists σ',
    Get (mkctx (Some nodeID)) σ = Returned (entry.Conn ent, None) σ'
    /\ reg σ' = reg σ /\ conns (mem σ') = conns (mem σ).
Proof.
  intros Hc Hent. unfold Get. go_unfold. simpl. rewrite Hc, Hent.
  eexists; split; [reflexivity|]. split; reflexivity.
Qed.

Lemma Get_miss σ nodeID :
  index (reg σ) !! nodeID = None ->
  Get (mkctx (Some nodeID)) σ = Get (mkctx None) σ.
Proof.
  intros Hent. unfold Get. go_unfold. simpl.
  destruct (closed (reg σ)); [reflexivity|]. simpl. by rewrite Hent.
Qed.

Lemma Get_no_selection σ ctx :
  closed (reg σ) = false ->
  match ContextNodeID ctx with
  | Some nodeID => index (reg σ) !! nodeID
  | None => None
  end = None ->
  (balancer.Next (conns (mem σ)) (balancer (reg σ))).1 = None ->
  exists σ', Get ctx σ = Panicked NilDereference σ'.
Proof.
  intros Hc Hhint Hnext. unfold Get. go_unfold. simpl. rewrite Hc. simpl.
  rewrite Hhint. simpl.
  destruct (balancer.Next (conns (mem σ)) (balancer (reg σ))) as [cn b] eqn:Hn.
  simpl in Hnext. subst cn. simpl. eexists; reflexivity.
Qed.

(** Health demotion *)
Lemma Pessimize_unknown σ e :
  closed (reg σ) = false ->
  index (reg σ) !! endpoint.NodeID e = None ->
  Pessimize e σ = Returned (Some (Errorf pessimize_failed ErrUnknownEndpoint)) σ.
Proof. intros Hc He. unfold Pessimize. go_unfold. by rewrite Hc, He. Qed.

Lemma Pessimize_nil_handle σ e ent :
  closed (reg σ) = false ->
  index (reg σ) !! endpoint.NodeID e = Some ent ->
  entry.Handle ent = None ->
  Pessimize e σ = Returned (Some (Errorf pessimize_failed ErrNilBalancerElement)) σ.
Proof. intros Hc He Hh. unfold Pessimize. go_unfold. by rewrite Hc, He, Hh. Qed.

Lemma Pessimize_stale_handle σ e ent :
  closed (reg σ) = false ->
  index (reg σ) !! endpoint.NodeID e = Some ent ->
  entry.Handle ent <> None ->
  balancer.Contains (entry.Handle ent) (balancer (reg σ)) = false ->
  Pessimize e σ
    = Returned (Some (Errorf pessimize_failed ErrUnknownBalancerElement)) σ.
Proof.
  intros Hc He Hh Hb. unfold Pessimize. go_unfold. rewrite Hc, He.
  destruct (entry.Handle ent) eqn:Hh'; [|done]. by rewrite Hb.
Qed.

Lemma store_state_lookup r s h :
  conn.st (conns (store_state r s h) !!! r) = s.
Proof. unfold store_state. simpl. by rewrite lookup_total_insert_eq. Qed.

Lemma store_force_forced r h x :
  repeater.forced (reps (store_force r h) !!! x)
    = (repeater.forced (reps h !!! x) + (if decide (r = x) then 1 else 0))%nat.
Proof.
  unfold store_force. simpl. destruct (decide (r = x)) as [->|Hne].
  - rewrite lookup_total_insert_eq. simpl. lia.
  - rewrite lookup_total_insert_ne by done. lia.
Qed.

Lemma Pessimize_ok σ e ent r :
  closed (reg σ) = false ->
  index (reg σ) !! endpoint.NodeID e = Some ent ->
  entry.Handle ent <> None ->
  balancer.Contains (entry.Handle ent) (balancer (reg σ)) = true ->
  entry.Conn ent = Some r ->
  Pessimize e σ = Returned None (demote r σ).
Proof.
  intros Hc He Hh Hb Hr. unfold Pessimize, demote, banned. go_unfold.
  rewrite Hc, He. destruct (entry.Handle ent) eqn:Hh'; [|done].
  rewrite Hb, Hr. simpl.
  destruct (explorer (reg σ)) as [x|]; simpl; [|reflexivity].
  destruct (_ <? _); reflexivity.
Qed.

Lemma Pessimize_nil_conn σ e ent :
  closed (reg σ) = false ->
  index (reg σ) !! endpoint.NodeID e = Some ent ->
  entry.Handle ent <> None ->
  balancer.Contains (entry.Handle ent) (balancer (reg σ)) = true ->
  entry.Conn ent = None ->
  Pessimize e σ = Panicked NilDereference σ.
Proof.
  intros Hc He Hh Hb Hr. unfold Pessimize. go_unfold.
  rewrite Hc, He. destruct (entry.Handle ent) eqn:Hh'; [|done].
  by rewrite Hb, Hr.
Qed.

(** Whatever the configuration, a [Pessimize] that returns no error went
    through the demotion. *)
Lemma Pessimize_success σ e σ' :
  Pessimize e σ = Returned None σ' ->
  exists ent r,
    closed (reg σ) = false /\
    index (reg σ) !! endpoint.NodeID e = Some ent /\
    entry.Handle ent <> None /\
    balancer.Contains (entry.Handle ent) (balancer (reg σ)) = true /\
    entry.Conn ent = Some r /\ σ' = demote r σ.
Proof.
  intros HP.
  destruct (closed (reg σ)) eqn:Hc.
  { rewrite Pessimize_closed in HP by done. discriminate. }
  destruct (index (reg σ) !! endpoint.NodeID e) as [ent|] eqn:He; last first.
  { rewrite Pessimize_unknown in HP by done. discriminate. }
  destruct (entry.Handle ent) as [h|] eqn:Hh; last first.
  { rewrite (Pessimize_nil_handle _ _ ent) in HP by done. discriminate. }
  destruct (balancer.Contains (entry.Handle ent) (balancer (reg σ))) eqn:Hb; last first.
  { rewrite (Pessimize_stale_handle _ _ ent) in HP by (done || congruence). discriminate. }
  destruct (entry.Conn ent) as [r|] eqn:Hr; last first.
  { rewrite (Pessimize_nil_conn _ _ ent) in HP by (done || congruence). discriminate. }
  rewrite (Pessimize_ok _ _ ent r) in HP by (done || congruence).
  exists ent, r. repeat split; try done; congruence.
Qed.

(** Shutdown *)
Lemma for_each_close l σ :
  for_each l (fun '(_, e) =>
      match entry.Conn e with
      | Some _ => conn_Close (entry.Conn e)
      | None => ret tt
      end) σ
  = Returned tt (mkconfig (reg σ) (close_list l (mem σ))).
Proof.
  revert σ. induction l as [|[k e] l IH]; intros σ; simpl.
  - by destruct σ.
  - unfold bind at 1. destruct (entry.Conn e) as [r|] eqn:Hr; simpl.
    + unfold modify, with_mem. rewrite IH. reflexivity.
    + unfold ret at 1. rewrite IH. reflexivity.
Qed.

Lemma Close_open σ :
  closed (reg σ) = false -> gate_open σ ->
  Close σ = Returned None (shut σ).
Proof.
  intros Hc Hg. unfold Close, shut. unfold bind at 1. unfold gets at 1.
  rewrite Hc. unfold gate_open in Hg.
  destruct σ as [c h]; simpl in *.
  destruct (explorer c) as [x|] eqn:Hx, (wait c) as [ch|] eqn:Hw;
    unfold bind, ret, modify, repeater_Stop, with_reg, with_mem, close_chan;
    simpl; rewrite ?decide_False by done; rewrite for_each_close; simpl;
    reflexivity.
Qed.

Lemma close_list_closes l : forall h r,
  conn.closes (conns (close_list l h) !!! r)
  = (conn.closes (conns h !!! r)
     + length (filter (fun p : Z * entry.Entry => entry.Conn p.2 = Some r) l))%nat.
Proof.
  induction l as [|[k e] l IH]; intros h r; simpl.
  { lia. }
  rewrite IH, filter_cons. simpl.
  destruct (entry.Conn e) as [r'|] eqn:Hr.
  - unfold store_close. simpl. destruct (decide (r' = r)) as [->|Hne].
    + rewrite decide_True by done. rewrite lookup_total_insert_eq. simpl. lia.
    + rewrite decide_False by congruence.
      rewrite lookup_total_insert_ne by done. lia.
  - rewrite decide_False by done. lia.
Qed.

Lemma close_list_rest l : forall h,
  reps (close_list l h) = reps h /\ released (close_list l h) = released h.
Proof.
  induction l as [|[k e] l IH]; intros h; simpl; [done|].
  destruct (IH (match entry.Conn e with Some r => store_close r h | None => h end))
    as [-> ->].
  by destruct (entry.Conn e).
Qed.

Lemma shut_closes σ r :
  closes_of r (shut σ) = (closes_of r σ + holders r (index (reg σ)))%nat.
Proof.
  unfold closes_of, shut, holders. simpl. rewrite close_list_closes.
  f_equal. by destruct (wait (reg σ)), (explorer (reg σ)).
Qed.

Lemma shut_stopped σ x :
  stopped_of x (shut σ)
  = (stopped_of x σ + (if decide (explorer (reg σ) = Some x) then 1 else 0))%nat.
Proof.
  unfold stopped_of, shut. simpl.
  destruct (close_list_rest (map_to_list (index (reg σ)))
    (release_world (wait (reg σ)) (stop_world (explorer (reg σ)) (mem σ)))) as [-> _].
  assert (reps (release_world (wait (reg σ)) (stop_world (explorer (reg σ)) (mem σ)))
          = reps (stop_world (explorer (reg σ)) (mem σ))) as ->
    by (by destruct (wait (reg σ))).
  destruct (explorer (reg σ)) as [y|]; simpl.
  - destruct (decide (y = x)) as [->|Hne].
    + rewrite decide_True by done. rewrite lookup_total_insert_eq. simpl. lia.
    + rewrite decide_False by congruence.
      rewrite lookup_total_insert_ne by done. lia.
  - try (rewrite decide_False by done). lia.
Qed.

Lemma shut_released σ ch :
  wait (reg σ) = Some ch -> ch ∈ released (mem (shut σ)).
Proof.
  intros Hw. unfold shut. simpl.
  destruct (close_list_rest (map_to_list (index (reg σ)))
    (release_world (wait (reg σ)) (stop_world (explorer (reg σ)) (mem σ)))) as [_ ->].
  rewrite Hw. simpl. set_solver.
Qed.
End registry_proofs.


Section removal.
Context {B : Type} `{!balancer.Balancer B}.
Implicit Types (σ : config B) (e : endpoint.Endpoint).


Lemma Remove_present σ e opts ent r :
  closed (reg σ) = false ->
  index (reg σ) !! endpoint.NodeID e = Some ent ->
  entry.Conn ent = Some r ->
  exists σ',
    Remove e opts σ = Returned tt σ' /\
    index (reg σ') = delete (endpoint.NodeID e) (index (reg σ)) /\
    ready (reg σ') = ready (reg σ) - 1 /\
    balancer (reg σ') = unregistered ent (balancer (reg σ)) /\
    closes_of r σ' = S (closes_of r σ).
Proof.
  intros Hc He Hr. unfold Remove, entry_RemoveFrom, unregistered, closes_of.
  go_unfold. simpl. rewrite Hc, He. simpl.
  destruct (entry.Handle ent); simpl; rewrite Hr; simpl;
    destruct (wg (apply_options opts)); simpl;
    eexists; (split; [reflexivity|]); simpl;
    rewrite lookup_total_insert_eq; done.
Qed.

Lemma Remove_nil_conn σ e opts ent :
  closed (reg σ) = false ->
  index (reg σ) !! endpoint.NodeID e = Some ent ->
  entry.Conn ent = None ->
  exists σ',
    Remove e opts σ = Panicked NilDereference σ' /\
    index (reg σ') = delete (endpoint.NodeID e) (index (reg σ)) /\
    ready (reg σ') = ready (reg σ) - 1 /\
    balancer (reg σ') = unregistered ent (balancer (reg σ)) /\
    conns (mem σ') = conns (mem σ).
Proof.
  intros Hc He Hr. unfold Remove, entry_RemoveFrom, unregistered.
  go_unfold. simpl. rewrite Hc, He. simpl.
  destruct (entry.Handle ent); simpl; rewrite Hr; simpl;
    destruct (wg (apply_options opts)); simpl;
    eexists; (split; [reflexivity|]); done.
Qed.

(** [Get] has no way to return the "cluster empty" error: the error is
    set when the selection is nil, and the next step calls a method on the
    selection. *)
Lemma Get_never_ClusterEmpty σ ctx c σ' :
  Get ctx σ <> Returned (c, Some ErrClusterEmpty) σ'.
Proof.
  unfold Get. go_unfold. destruct (closed (reg σ)); [discriminate|].
  simpl.
  destruct (match ContextNodeID ctx with
            | Some nodeID => index (reg σ) !! nodeID
            | None => None
            end); [discriminate|].
  simpl. destruct (balancer.Next _ _) as [[r|] b]; simpl; discriminate.
Qed.
End removal.

Lemma filter_none {A} (P : A -> Prop) `{!forall x, Decision (P x)} (l : list A) :
  (forall x, x ∈ l -> ~ P x) -> filter P l = [].
Proof.
  intros Hn. destruct (filter P l) as [|x l'] eqn:Hf; [done|].
  assert (x ∈ filter P l) as [HP Hin]%list_elem_of_filter by (rewrite Hf; by left).
  by destruct (Hn x Hin).
Qed.

Section holders_facts.
Lemma holders_one (m : gmap Z entry.Entry) k ent r :
  m !! k = Some ent -> entry.Conn ent = Some r ->
  (forall k' ent', m !! k' = Some ent' -> entry.Conn ent' = Some r -> k' = k) ->
  holders r m = 1%nat.
Proof.
  intros Hk Hr Hone. unfold holders.
  rewrite <- (insert_delete_id m k ent Hk).
  rewrite (Permutation_length
             (filter_Permutation _ _ _
                (map_to_list_insert (delete k m) k ent (lookup_delete_eq m k)))).
  rewrite filter_cons. simpl. rewrite decide_True by done. simpl. f_equal.
  rewrite filter_none; [done|].
  intros [k' ent'] Hin%elem_of_map_to_list Heq. simpl in Heq.
  destruct (decide (k' = k)) as [->|Hne].
  - by rewrite lookup_delete_eq in Hin.
  - rewrite lookup_delete_ne in Hin by done. by apply Hne, (Hone k' ent').
Qed.
End holders_facts.


(** ** Counting the online entries *)

Lemma count_online_tally cs m :
  count_online cs m = tally_online cs (map_to_list m).
Proof.
  unfold count_online.
  assert (forall l acc,
    foldl (fun online '(_, e) => if is_online cs e then online + 1 else online) acc l
    = acc + tally_online cs l) as Hgen.
  { induction l as [|[k e] l IH]; intros acc; simpl; [lia|].
    rewrite IH. destruct (is_online cs e); lia. }
  by rewrite Hgen.
Qed.

Lemma tally_online_perm cs l1 l2 :
  l1 ≡ₚ l2 -> tally_online cs l1 = tally_online cs l2.
Proof. induction 1; simpl; lia. Qed.

Lemma count_online_empty cs : count_online cs ∅ = 0.
Proof. by rewrite count_online_tally, map_to_list_empty. Qed.

Lemma count_online_insert cs m k e :
  m !! k = None ->
  count_online cs (<[k := e]> m)
  = count_online cs m + (if is_online cs e then 1 else 0).
Proof.
  intros Hk. rewrite !count_online_tally.
  rewrite (tally_online_perm _ _ _ (map_to_list_insert m k e Hk)). simpl. lia.
Qed.

Lemma count_online_store cs m r o :
  (forall k e, m !! k = Some e -> entry.Conn e <> Some r) ->
  count_online (<[r := o]> cs) m = count_online cs m.
Proof.
  intros Hfree. rewrite !count_online_tally.
  assert (forall l, (forall k e, (k, e) ∈ l -> entry.Conn e <> Some r) ->
            tally_online (<[r := o]> cs) l = tally_online cs l) as Hgen.
  { induction l as [|[k e] l IH]; intros Hl; simpl; [done|].
    rewrite IH by (intros k' e' Hin; apply (Hl k' e'); by right).
    f_equal. unfold is_online.
    pose proof (Hl k e ltac:(by left)) as Hne.
    destruct (entry.Conn e) as [r'|]; [|done].
    by rewrite lookup_total_insert_ne by congruence. }
  apply Hgen. intros k e Hin. apply (Hfree k e). by apply elem_of_map_to_list.
Qed.

(** ** Registries built by insertion *)

Section scenario.
Context {B : Type} `{!balancer.Balancer B}.
Variable conn_init : state.State.
Implicit Types (σ : config B) (e : endpoint.Endpoint).

Lemma Insert_fresh σ e opts :
  closed (reg σ) = false -> gate_open σ ->
  index (reg σ) !! endpoint.NodeID e = None ->
  exists σ',
    Insert conn_init e opts σ = Returned tt σ' /\
    reg σ' = inserted e σ /\
    conns (mem σ')
      = <[fresh_conn (mem σ) := conn.mk e conn_init 0]> (conns (mem σ)) /\
    fresh_conn (mem σ') = S (fresh_conn (mem σ)) /\
    reps (mem σ') = reps (mem σ).
Proof.
  intros Hc Hg He. unfold Insert, inserted, entry_InsertInto. go_unfold.
  unfold gate_open in Hg. simpl. rewrite Hc, He. simpl.
  destruct (balancer.Insert _ _ _) as [h b'] eqn:Hins. simpl.
  unfold close_chan. simpl.
  destruct (wait (reg σ)) as [ch|]; simpl;
    rewrite ?decide_False by done;
    destruct (wg (apply_options opts)); simpl;
    eexists; (split; [reflexivity|]);
    unfold set_index, set_wait, set_ready, set_balancer; simpl; rewrite ?Hc;
    repeat split; reflexivity.
Qed.

Hypothesis laws : registers.

Lemma Insert_registered σ e opts :
  registered σ ->
  index (reg σ) !! endpoint.NodeID e = None ->
  exists σ',
    Insert conn_init e opts σ = Returned tt σ' /\
    registered σ' /\
    explorer (reg σ') = explorer (reg σ) /\
    reps (mem σ') = reps (mem σ) /\
    size (index (reg σ')) = S (size (index (reg σ))) /\
    (forall k, index (reg σ') !! k = None <->
               k <> endpoint.NodeID e /\ index (reg σ) !! k = None) /\
    (forall k, node_online σ k -> node_online σ' k) /\
    (conn_init = state.Online ->
       node_online σ' (endpoint.NodeID e) /\ online σ' = online σ + 1).
Proof.
  intros (Hc & Hg & Hent & Hinj) He.
  destruct (Insert_fresh σ e opts Hc Hg He) as (σ' & HI & Hreg & Hcs & Hfr & Hrp).
  exists σ'. split; [done|].
  set (r0 := fresh_conn (mem σ)) in *.
  set (i0 := info.mk (endpoint.LoadFactor e) (endpoint.Local e)) in *.
  destruct (laws (Some r0) i0 (balancer (reg σ))) as (Hh & Hin & Hkeep).
  assert (Hidx : index (reg σ')
    = <[endpoint.NodeID e :=
          entry.mk i0 (Some r0) (balancer.Insert (Some r0) i0 (balancer (reg σ))).1]>
        (index (reg σ))) by (by rewrite Hreg).
  assert (Hbal : balancer (reg σ')
    = (balancer.Insert (Some r0) i0 (balancer (reg σ))).2) by (by rewrite Hreg).
  assert (Hold : forall k ent, index (reg σ) !! k = Some ent ->
            entry.Conn ent <> Some r0).
  { intros k ent Hk Heq. destruct (Hent k ent Hk) as ((r & Hr & Hlt) & _).
    rewrite Hr in Heq. injection Heq as ->. unfold r0 in Hlt. lia. }
  split_and!.
  - (* the invariant *)
    split; [by rewrite Hreg|]. split.
    { unfold gate_open. by rewrite Hreg. }
    split.
    + intros k ent. rewrite Hidx, Hbal, Hfr.
      destruct (decide (k = endpoint.NodeID e)) as [->|Hne].
      * rewrite lookup_insert_eq. intros [= <-]. simpl.
        split; [exists r0; split; [done|lia]|]. by split.
      * rewrite lookup_insert_ne by done. intros Hk.
        destruct (Hent k ent Hk) as ((r & Hr & Hlt) & Hhd & Hct).
        split; [exists r; split; [done|lia]|]. split; [done|]. by apply Hkeep.
    + intros k1 k2 ent1 ent2. rewrite Hidx.
      destruct (decide (k1 = endpoint.NodeID e)) as [->|Hne1],
               (decide (k2 = endpoint.NodeID e)) as [->|Hne2];
        rewrite ?lookup_insert_eq, ?lookup_insert_ne by done; try done.
      * intros [= <-] Hk2 Heq. simpl in Heq. by destruct (Hold k2 ent2 Hk2).
      * intros Hk1 [= <-] Heq. simpl in Heq. by destruct (Hold k1 ent1 Hk1).
      * apply Hinj.
  - by rewrite Hreg.
  - done.
  - rewrite Hidx. by apply map_size_insert_None.
  - intros k. rewrite Hidx. destruct (decide (k = endpoint.NodeID e)) as [->|Hne].
    + rewrite lookup_insert_eq. split; [done|]. by intros [? _].
    + rewrite lookup_insert_ne by done. tauto.
  - intros k (ent & r & Hk & Hr & Hst). exists ent, r.
    assert (k <> endpoint.NodeID e) by congruence.
    rewrite Hidx, lookup_insert_ne by done. split; [done|]. split; [done|].
    unfold state_of in *. rewrite Hcs.
    rewrite lookup_total_insert_ne; [done|].
    intros Heq. apply (Hold k ent Hk). congruence.
  - intros ->. split.
    + eexists _, r0. rewrite Hidx, lookup_insert_eq.
      split; [reflexivity|]. split; [reflexivity|].
      unfold state_of. rewrite Hcs. by rewrite lookup_total_insert_eq.
    + unfold online. rewrite Hidx, Hcs.
      rewrite count_online_insert by done.
      rewrite count_online_store by done.
      unfold is_online. simpl. rewrite lookup_total_insert_eq. simpl. done.
Qed.
End scenario.

Section demotion.
Context {B : Type} `{!balancer.Balancer B}.
Implicit Types (σ : config B) (e : endpoint.Endpoint).

Lemma demote_reg r σ : reg (demote r σ) = reg σ.
Proof.
  unfold demote, banned. destruct (explorer (reg σ)); [|done].
  by destruct (_ <? _).
Qed.

Lemma demote_conns r σ :
  conns (mem (demote r σ)) = conns (store_state r state.Banned (mem σ)).
Proof.
  unfold demote, banned. destruct (explorer (reg σ)); [|done].
  by destruct (_ <? _).
Qed.

Lemma demote_fresh r σ : fresh_conn (mem (demote r σ)) = fresh_conn (mem σ).
Proof.
  unfold demote, banned. destruct (explorer (reg σ)); [|done].
  by destruct (_ <? _).
Qed.

Lemma demote_released r σ : released (mem (demote r σ)) = released (mem σ).
Proof.
  unfold demote, banned. destruct (explorer (reg σ)); [|done].
  by destruct (_ <? _).
Qed.

Lemma demote_state r σ : state_of r (demote r σ) = state.Banned.
Proof. unfold state_of. rewrite demote_conns. apply store_state_lookup. Qed.

Lemma demote_state_ne r r' σ :
  r <> r' -> state_of r' (demote r σ) = state_of r' σ.
Proof.
  intros Hne. unfold state_of. rewrite demote_conns. unfold store_state. simpl.
  by rewrite lookup_total_insert_ne.
Qed.

Lemma demote_forced r σ x :
  explorer (reg σ) = Some x ->
  forced_of x (demote r σ)
  = (forced_of x σ
     + (if (online (demote r σ) * 2 <? Z.of_nat (size (index (reg (demote r σ)))))%Z
        then 1 else 0))%nat.
Proof.
  intros Hx. unfold online. rewrite demote_conns, demote_reg.
  unfold forced_of, demote, banned. rewrite Hx. simpl.
  destruct (_ <? _); simpl.
  - rewrite lookup_total_insert_eq. simpl. lia.
  - lia.
Qed.

(** Banning the one connection of an entry takes that entry out of the
    online count when it was in it. *)
Lemma online_demote σ k ent r :
  index (reg σ) !! k = Some ent -> entry.Conn ent = Some r ->
  (forall k' ent', index (reg σ) !! k' = Some ent' ->
                   entry.Conn ent' = Some r -> k' = k) ->
  online (demote r σ)
  = online σ - (if decide (state_of r σ = state.Online) then 1 else 0).
Proof.
  intros Hk Hr Hone. unfold online. rewrite demote_conns, demote_reg.
  unfold store_state, state_of. simpl.
  rewrite <- (insert_delete_id (index (reg σ)) k ent Hk).
  rewrite !count_online_insert by apply lookup_delete_eq.
  rewrite count_online_store.
  - unfold is_online. rewrite Hr, lookup_total_insert_eq. simpl.
    destruct (decide (conn.st (conns (mem σ) !!! r) = state.Online)) as [Ho|Ho].
    + rewrite bool_decide_eq_true_2 by done. lia.
    + rewrite bool_decide_eq_false_2 by done. lia.
  - intros k' ent' Hk' Heq.
    destruct (decide (k' = k)) as [->|Hne].
    + by rewrite lookup_delete_eq in Hk'.
    + rewrite lookup_delete_ne in Hk' by done. by apply Hne, (Hone k' ent').
Qed.

Lemma Pessimize_registered σ e :
  registered σ ->
  node_online σ (endpoint.NodeID e) ->
  exists σ',
    Pessimize e σ = Returned None σ' /\
    registered σ' /\
    reg σ' = reg σ /\
    online σ' = online σ - 1 /\
    (forall x, explorer (reg σ) = Some x ->
       forced_of x σ'
       = (forced_of x σ
          + (if ((online σ - 1) * 2 <? Z.of_nat (size (index (reg σ))))%Z
             then 1 else 0))%nat) /\
    (forall k, k <> endpoint.NodeID e -> node_online σ k -> node_online σ' k).
Proof.
  intros (Hc & Hg & Hent & Hinj) (ent & r & Hk & Hr & Hst).
  destruct (Hent _ _ Hk) as (_ & Hh & Hb).
  exists (demote r σ). split; [by apply (Pessimize_ok _ _ ent)|].
  assert (Hone : forall k' ent', index (reg σ) !! k' = Some ent' ->
            entry.Conn ent' = Some r -> k' = endpoint.NodeID e).
  { intros k' ent' Hk' Hr'. apply (Hinj k' _ ent' ent); congruence. }
  assert (Hon : online (demote r σ) = online σ - 1).
  { rewrite (online_demote σ _ ent r Hk Hr Hone). by rewrite decide_True. }
  split_and!.
  - split; [by rewrite demote_reg|]. split.
    { unfold gate_open in *. by rewrite demote_reg, demote_released. }
    rewrite demote_reg, demote_fresh. by split.
  - apply demote_reg.
  - done.
  - intros x Hx. rewrite (demote_forced r σ x Hx). by rewrite Hon, demote_reg.
  - intros k Hne (ent' & r' & Hk' & Hr' & Hst'). exists ent', r'.
    rewrite demote_reg. split; [done|]. split; [done|].
    rewrite demote_state_ne; [done|].
    intros <-. by apply Hne, (Hone k ent').
Qed.
End demotion.

Section topology.
Context {B : Type} `{!balancer.Balancer B}.
Variable conn_init : state.State.
Hypothesis laws : registers (B := B).
Hypothesis init_online : conn_init = state.Online.
Implicit Types (σ : config B) (e : endpoint.Endpoint).


Lemma Insert_many (es : list (endpoint.Endpoint * list cluster_option)) : forall σ,
  registered σ ->
  NoDup ((fun p => endpoint.NodeID p.1) <$> es) ->
  (forall p, p ∈ es -> index (reg σ) !! endpoint.NodeID p.1 = None) ->
  let σ' := after_all conn_init (insert_call <$> es) σ in
  registered σ' /\
  explorer (reg σ') = explorer (reg σ) /\
  reps (mem σ') = reps (mem σ) /\
  size (index (reg σ')) = (size (index (reg σ)) + length es)%nat /\
  online σ' = online σ + Z.of_nat (length es) /\
  (forall p, p ∈ es -> node_online σ' (endpoint.NodeID p.1)) /\
  (forall k, node_online σ k -> node_online σ' k).
Proof.
  induction es as [|[e opts] es IH]; intros σ Hreg Hnd Hfresh.
  - cbn. split_and!; try done; lia || (intros p Hp; by apply elem_of_nil in Hp).
  - rewrite fmap_cons in Hnd. apply NoDup_cons in Hnd as [Hnotin Hnd].
    cbn [fst] in Hnotin.
    destruct (Insert_registered conn_init laws σ e opts Hreg)
      as (σ1 & HI & Hreg1 & Hx1 & Hr1 & Hs1 & Hnone1 & Hon1 & Hnew1).
    { apply (Hfresh (e, opts)). by left. }
    destruct (Hnew1 init_online) as [Hnode1 Hcount1].
    assert (Hstep : after_all conn_init (insert_call <$> (e, opts) :: es) σ
                    = after_all conn_init (insert_call <$> es) σ1).
    { unfold after_all. rewrite fmap_cons. cbn [foldl].
      change (insert_call (e, opts)) with (CallInsert e opts).
      cbn [after]. by rewrite HI. }
    cbv zeta. rewrite Hstep.
    destruct (IH σ1 Hreg1 Hnd) as (Hreg' & Hx' & Hr' & Hs' & Hc' & Hnodes' & Hkeep').
    { intros p Hp. apply Hnone1. split.
      - intros Heq. apply Hnotin. rewrite <- Heq.
        apply (list_elem_of_fmap_2 (fun p => endpoint.NodeID p.1)); done.
      - apply Hfresh. by right. }
    split_and!.
    + done.
    + congruence.
    + congruence.
    + rewrite Hs', Hs1. cbn [length]. lia.
    + rewrite Hc', Hcount1. cbn [length]. lia.
    + intros p [->|Hp]%elem_of_cons; [by apply Hkeep'|by apply Hnodes'].
    + intros k Hk. by apply Hkeep', Hon1.
Qed.

(** Four nodes inserted into a new registry with a trigger, three of them
    pessimized: the first two demotions leave half of the nodes or more
    online, the third does not. *)
Lemma three_of_four (b : B) (h : world) (x : nat)
    (es : list (endpoint.Endpoint * list cluster_option)) (p1 p2 p3 : endpoint.Endpoint) :
  length es = 4%nat ->
  NoDup ((fun p => endpoint.NodeID p.1) <$> es) ->
  NoDup (endpoint.NodeID <$> [p1; p2; p3]) ->
  (forall p, p ∈ [p1; p2; p3] ->
     endpoint.NodeID p ∈ (fun p => endpoint.NodeID p.1) <$> es) ->
  let σ4 :=
    after_all conn_init (CallSetExplorer (Some x) :: (insert_call <$> es))
      (mkconfig (New b) h) in
  exists σ5 σ6 σ7,
    Pessimize p1 σ4 = Returned None σ5 /\
    Pessimize p2 σ5 = Returned None σ6 /\
    Pessimize p3 σ6 = Returned None σ7 /\
    forced_of x σ4 = repeater.forced (reps h !!! x) /\
    forced_of x σ5 = forced_of x σ4 /\
    forced_of x σ6 = forced_of x σ4 /\
    forced_of x σ7 = S (forced_of x σ4).
Proof.
  intros Hlen Hnd Hpd Hin σ4.
  set (σ0 := mkconfig (set_explorer (Some x) (New b)) h : config B).
  assert (Hσ4 : σ4 = after_all conn_init (insert_call <$> es) σ0) by reflexivity.
  assert (Hreg0 : registered σ0).
  { unfold registered, gate_open, σ0. cbn.
    split_and!; try done; intros *; by rewrite lookup_empty. }
  destruct (Insert_many es σ0 Hreg0 Hnd) as (Hreg4 & Hx4 & Hr4 & Hs4 & Hc4 & Hon4 & _).
  { intros p _. apply lookup_empty. }
  rewrite <- Hσ4 in *. clear Hσ4.
  assert (Hsize : size (index (reg σ4)) = 4%nat).
  { rewrite Hs4, Hlen. cbn. by rewrite map_size_empty. }
  assert (Hcount : online σ4 = 4).
  { rewrite Hc4, Hlen. unfold online. cbn. by rewrite count_online_empty. }
  assert (Hexp : explorer (reg σ4) = Some x) by (by rewrite Hx4).
  assert (Hnode : forall p, p ∈ [p1; p2; p3] -> node_online σ4 (endpoint.NodeID p)).
  { intros p Hp. destruct (list_elem_of_fmap_1 _ _ _ (Hin p Hp)) as (q & -> & Hq).
    by apply Hon4. }
  cbn in Hpd.
  apply NoDup_cons in Hpd as [Hn1 Hpd]. apply NoDup_cons in Hpd as [Hn2 _].
  apply not_elem_of_cons in Hn1 as [Hn12 Hn13].
  apply not_elem_of_cons in Hn13 as [Hn13 _].
  apply not_elem_of_cons in Hn2 as [Hn23 _].
  destruct (Pessimize_registered σ4 p1 Hreg4) as (σ5 & HP5 & Hreg5 & Hrg5 & Hc5 & Hf5 & Hk5).
  { apply Hnode. set_solver. }
  destruct (Pessimize_registered σ5 p2 Hreg5) as (σ6 & HP6 & Hreg6 & Hrg6 & Hc6 & Hf6 & Hk6).
  { apply Hk5; [congruence|]. apply Hnode. set_solver. }
  destruct (Pessimize_registered σ6 p3 Hreg6) as (σ7 & HP7 & Hreg7 & Hrg7 & Hc7 & Hf7 & Hk7).
  { apply Hk6; [congruence|]. apply Hk5; [congruence|]. apply Hnode. set_solver. }
  exists σ5, σ6, σ7. split; [done|]. split; [done|]. split; [done|].
  specialize (Hf5 x Hexp).
  specialize (Hf6 x ltac:(by rewrite Hrg5)).
  specialize (Hf7 x ltac:(by rewrite Hrg6, Hrg5)).
  rewrite Hrg6, Hrg5, Hsize, Hc6, Hc5, Hcount in Hf7.
  rewrite Hrg5, Hsize, Hc5, Hcount in Hf6.
  rewrite Hsize, Hcount in Hf5.
  change (if ((4 - 1) * 2 <? Z.of_nat 4)%Z then 1 else 0)%nat with 0%nat in Hf5.
  change (if ((4 - 1 - 1) * 2 <? Z.of_nat 4)%Z then 1 else 0)%nat with 0%nat in Hf6.
  change (if ((4 - 1 - 1 - 1) * 2 <? Z.of_nat 4)%Z then 1 else 0)%nat with 1%nat in Hf7.
  split.
  { unfold forced_of. by rewrite Hr4. }
  lia.
Qed.
End topology.

Lemma rr_registers : registers (B := rr.t).
Proof.
  intros c i b. simpl. unfold rr.insert, rr.contains. simpl. split; [done|].
  split.
  - rewrite existsb_app. simpl. unfold rr.has at 2. simpl.
    rewrite bool_decide_eq_true_2 by done. by rewrite orb_true_r.
  - intros h Hh. rewrite existsb_app. by rewrite Hh.
Qed.

(** The gate is open in every configuration the calls of the interface
    reach from a new registry. *)
Section gate.
Context {B : Type} `{!balancer.Balancer B}.
Variable conn_init : state.State.

Lemma gate_open_same (σ σ' : config B) :
  wait (reg σ') = wait (reg σ) -> released (mem σ') = released (mem σ) ->
  gate_open σ -> gate_open σ'.
Proof. unfold gate_open. by intros -> ->. Qed.

Lemma gate_open_after k (σ : config B) :
  gate_open σ -> gate_open (after conn_init k σ).
Proof.
  intros Hg. destruct k; simpl.
  - (* Insert *)
    destruct (closed (reg σ)) eqn:Hc.
    { destruct (Insert_closed conn_init σ e opts Hc) as (σ' & HI & Hr).
      rewrite HI. simpl. unfold Insert in HI. go_unfold. simpl in HI.
      rewrite Hc in HI. unfold gate_open in *. rewrite Hr.
      destruct (wg (apply_options opts)); simpl in HI;
        injection HI as <-; simpl; done. }
    destruct (index (reg σ) !! endpoint.NodeID e) as [ent|] eqn:He.
    { destruct (Insert_existing conn_init σ e opts Hc (mk_is_Some _ _ He))
        as (σ' & HI & Hr).
      rewrite HI. simpl. unfold Insert in HI. go_unfold. simpl in HI.
      rewrite Hc, He in HI. unfold gate_open in *. rewrite Hr.
      destruct (wg (apply_options opts)); simpl in HI;
        injection HI as <-; simpl; done. }
    destruct (Insert_fresh conn_init σ e opts Hc Hg He) as (σ' & -> & Hr & _).
    simpl. unfold gate_open. by rewrite Hr.
  - (* Update *)
    unfold Update. go_unfold. simpl.
    destruct (closed (reg σ)).
    { by destruct (wg (apply_options opts)). }
    destruct (index (reg σ) !! endpoint.NodeID e) as [ent|];
      [|by destruct (wg (apply_options opts))].
    destruct (entry.Conn ent);
      [|by destruct (wg (apply_options opts))].
    simpl. destruct (entry.Handle ent); simpl;
      by destruct (wg (apply_options opts)).
  - (* Get *)
    unfold Get. go_unfold. destruct (closed (reg σ)); [done|]. simpl.
    destruct (match ContextNodeID ctx with
              | Some nodeID => index (reg σ) !! nodeID
              | None => None
              end); [done|].
    simpl. destruct (balancer.Next _ _) as [[r|] b]; done.
  - (* Pessimize *)
    unfold Pessimize. go_unfold. destruct (closed (reg σ)); [done|].
    destruct (index (reg σ) !! endpoint.NodeID e) as [ent|]; [|done].
    destruct (entry.Handle ent); [|done].
    destruct (balancer.Contains _ _); [|done]. simpl.
    destruct (entry.Conn ent); [|done]. simpl.
    destruct (explorer (reg σ)); [|done]. simpl.
    by destruct (_ <? _).
  - (* Close *)
    destruct (closed (reg σ)) eqn:Hc.
    + by rewrite Close_closed.
    + by rewrite Close_open.
  - (* Remove *)
    unfold Remove, entry_RemoveFrom. go_unfold. simpl.
    destruct (closed (reg σ)).
    { by destruct (wg (apply_options opts)). }
    destruct (index (reg σ) !! endpoint.NodeID e) as [ent|];
      [|by destruct (wg (apply_options opts))].
    simpl. destruct (entry.Handle ent); simpl;
      destruct (entry.Conn ent); simpl;
      by destruct (wg (apply_options opts)).
  - done.
  - unfold Force. go_unfold. by destruct (explorer (reg σ)).
Qed.

Lemma gate_open_reached ks (b : B) (h : world) :
  gate_open (after_all conn_init ks (mkconfig (New b) h)).
Proof.
  assert (forall (σ : config B), gate_open σ ->
            gate_open (after_all conn_init ks σ)) as Hgen.
  { induction ks as [|k ks IH]; intros σ Hg; [done|].
    apply IH. by apply gate_open_after. }
  by apply Hgen.
Qed.
End gate.

(** The ready counter is the number of entries in every open configuration
    the calls of the interface reach from a new registry. *)
Section counters.
Context {B : Type} `{!balancer.Balancer B}.
Variable conn_init : state.State.

Lemma Pessimize_reg e (σ : config B) : reg (final (Pessimize e σ)) = reg σ.
Proof.
  unfold Pessimize. go_unfold. destruct (closed (reg σ)); [done|].
  destruct (index (reg σ) !! endpoint.NodeID e) as [ent|]; [|done].
  destruct (entry.Handle ent); [|done].
  destruct (balancer.Contains _ _); [|done]. simpl.
  destruct (entry.Conn ent); [|done]. simpl.
  destruct (explorer (reg σ)); [|done]. simpl.
  by destruct (_ <? _).
Qed.

Lemma ready_counts_after k (σ : config B) :
  ready_counts σ -> ready_counts (after conn_init k σ).
Proof.
  unfold ready_counts. intros Hr. destruct k; simpl.
  - (* Insert *)
    unfold Insert, entry_InsertInto, close_chan. go_unfold. simpl.
    destruct (closed (reg σ)) eqn:Hc.
    { destruct (wg (apply_options opts)); simpl; congruence. }
    destruct (index (reg σ) !! endpoint.NodeID e) as [ent|] eqn:He.
    { destruct (wg (apply_options opts)); simpl; auto. }
    simpl. destruct (balancer.Insert _ _ _) as [h b']. simpl.
    destruct (wait (reg σ)) as [ch|]; simpl;
      try destruct (decide (ch ∈ released (mem σ)));
      destruct (wg (apply_options opts)); simpl; intros _;
      rewrite map_size_insert_None by done; rewrite Hr by done; lia.
  - (* Update *)
    unfold Update. go_unfold. simpl.
    destruct (closed (reg σ)) eqn:Hc.
    { destruct (wg (apply_options opts)); simpl; congruence. }
    destruct (index (reg σ) !! endpoint.NodeID e) as [ent|] eqn:He;
      [|destruct (wg (apply_options opts)); simpl; auto].
    destruct (entry.Conn ent);
      [|destruct (wg (apply_options opts)); simpl; auto].
    simpl. destruct (entry.Handle ent); simpl;
      destruct (wg (apply_options opts)); simpl; intros _;
      rewrite map_size_insert_Some by (by eexists); auto.
  - (* Get *)
    unfold Get. go_unfold. destruct (closed (reg σ)) eqn:Hc; [simpl; congruence|].
    simpl.
    destruct (match ContextNodeID ctx with
              | Some nodeID => index (reg σ) !! nodeID
              | None => None
              end); [simpl; auto|].
    simpl. destruct (balancer.Next _ _) as [[r|] b]; simpl; auto.
  - (* Pessimize *)
    by rewrite Pessimize_reg.
  - (* Close *)
    unfold Close, close_chan. unfold bind at 1. unfold gets at 1.
    destruct (closed (reg σ)) eqn:Hc; [simpl; congruence|].
    destruct σ as [c h]; simpl in *.
    destruct (explorer c), (wait c) as [ch|];
      unfold bind, ret, modify, repeater_Stop, with_reg, with_mem; simpl;
      try destruct (decide (ch ∈ released _)); simpl;
      rewrite ?for_each_close; simpl; discriminate.
  - (* Remove *)
    unfold Remove, entry_RemoveFrom. go_unfold. simpl.
    destruct (closed (reg σ)) eqn:Hc.
    { destruct (wg (apply_options opts)); simpl; congruence. }
    destruct (index (reg σ) !! endpoint.NodeID e) as [ent|] eqn:He;
      [|destruct (wg (apply_options opts)); simpl; auto].
    assert (size (index (reg σ)) <> 0%nat) as Hpos.
    { apply (map_size_ne_0_lookup_2 _ (endpoint.NodeID e)). by eexists. }
    simpl. destruct (entry.Handle ent); simpl;
      destruct (entry.Conn ent); simpl;
      destruct (wg (apply_options opts)); simpl; intros _;
      rewrite map_size_delete_Some by (by eexists); rewrite Hr by done; lia.
  - done.
  - unfold Force. go_unfold. by destruct (explorer (reg σ)).
Qed.

Lemma connected_after k (σ : config B) :
  connected σ -> connected (after conn_init k σ).
Proof.
  unfold connected. intros Hcn. destruct k; simpl.
  - (* Insert *)
    unfold Insert, entry_InsertInto, close_chan. go_unfold. simpl.
    destruct (closed (reg σ)) eqn:Hc.
    { destruct (wg (apply_options opts)); simpl; auto. }
    destruct (index (reg σ) !! endpoint.NodeID e) as [ent|] eqn:He.
    { destruct (wg (apply_options opts)); simpl; auto. }
    simpl. destruct (balancer.Insert _ _ _) as [h b']. simpl.
    destruct (wait (reg σ)) as [ch|]; simpl;
      try destruct (decide (ch ∈ released (mem σ)));
      destruct (wg (apply_options opts)); simpl; intros k ent';
      (destruct (decide (k = endpoint.NodeID e)) as [->|Hne];
       [rewrite lookup_insert_eq; by intros [= <-]
       |rewrite lookup_insert_ne by done; apply Hcn]).
  - (* Update *)
    unfold Update. go_unfold. simpl.
    destruct (closed (reg σ)) eqn:Hc.
    { destruct (wg (apply_options opts)); simpl; auto. }
    destruct (index (reg σ) !! endpoint.NodeID e) as [ent|] eqn:He;
      [|destruct (wg (apply_options opts)); simpl; auto].
    destruct (entry.Conn ent) eqn:Hr;
      [|destruct (wg (apply_options opts)); simpl; auto].
    simpl. destruct (entry.Handle ent); simpl;
      destruct (wg (apply_options opts)); simpl; intros k ent';
      (destruct (decide (k = endpoint.NodeID e)) as [->|Hne];
       [rewrite lookup_insert_eq; by intros [= <-]
       |rewrite lookup_insert_ne by done; apply Hcn]).
  - (* Get *)
    unfold Get. go_unfold. destruct (closed (reg σ)) eqn:Hc; [simpl; auto|].
    simpl.
    destruct (match ContextNodeID ctx with
              | Some nodeID => index (reg σ) !! nodeID
              | None => None
              end); [simpl; auto|].
    simpl. destruct (balancer.Next _ _) as [[r|] b]; simpl; auto.
  - (* Pessimize *)
    by rewrite Pessimize_reg.
  - (* Close *)
    unfold Close, close_chan. unfold bind at 1. unfold gets at 1.
    destruct (closed (reg σ)) eqn:Hc; [simpl; auto|].
    destruct σ as [c h]; simpl in *.
    destruct (explorer c), (wait c) as [ch|];
      unfold bind, ret, modify, repeater_Stop, with_reg, with_mem; simpl;
      try destruct (decide (ch ∈ released _)); simpl;
      rewrite ?for_each_close; simpl; intros k ent;
      by rewrite lookup_empty.
  - (* Remove *)
    unfold Remove, entry_RemoveFrom. go_unfold. simpl.
    destruct (closed (reg σ)) eqn:Hc.
    { destruct (wg (apply_options opts)); simpl; auto. }
    destruct (index (reg σ) !! endpoint.NodeID e) as [ent|] eqn:He;
      [|destruct (wg (apply_options opts)); simpl; auto].
    simpl. destruct (entry.Handle ent); simpl;
      destruct (entry.Conn ent); simpl;
      destruct (wg (apply_options opts)); simpl; intros k ent';
      (destruct (decide (k = endpoint.NodeID e)) as [->|Hne];
       [by rewrite lookup_delete_eq
       |rewrite lookup_delete_ne by done; apply Hcn]).
  - done.
  - unfold Force. go_unfold. by destruct (explorer (reg σ)).
Qed.

(** With a [conn.New] that gives a connection, every entry the calls of
    the interface store has one. *)
Lemma connected_reached ks (b : B) (h : world) :
  connected (after_all conn_init ks (mkconfig (New b) h)).
Proof.
  assert (forall (σ : config B), connected σ ->
            connected (after_all conn_init ks σ)) as Hgen.
  { induction ks as [|k ks IH]; intros σ Hg; [done|].
    apply IH. by apply connected_after. }
  apply Hgen. intros k ent. simpl. by rewrite lookup_empty.
Qed.

Lemma ready_counts_reached ks (b : B) (h : world) :
  ready_counts (after_all conn_init ks (mkconfig (New b) h)).
Proof.
  assert (forall (σ : config B), ready_counts σ ->
            ready_counts (after_all conn_init ks σ)) as Hgen.
  { induction ks as [|k ks IH]; intros σ Hg; [done|].
    apply IH. by apply ready_counts_after. }
  apply Hgen. intros _. simpl. by rewrite map_size_empty.
Qed.
End counters.

(** With connections that [conn.New] builds in another state than Online,
    the same four insertions leave no node online, and each of the three
    pessimizations calls [Force]. *)
Remark three_of_four_offline :
  forced_of 0
    (after_all state.Offline
       [CallPessimize (example.ep 1); CallPessimize (example.ep 2);
        CallPessimize (example.ep 3)]
       example.four_offline) = 3%nat.
Proof. vm_compute. reflexivity. Qed.

(** Four entries, all online, three of them pessimized: however the
    registry came to hold them. *)
Section four_online.
Context {B : Type} `{!balancer.Balancer B}.
Implicit Types (σ : config B) (e : endpoint.Endpoint).

Lemma tally_online_all cs (l : list (Z * entry.Entry)) :
  (forall p, p ∈ l -> is_online cs p.2 = true) ->
  tally_online cs l = Z.of_nat (length l).
Proof.
  induction l as [|p l IH]; intros Hl; [done|].
  cbn [tally_online length]. rewrite Hl by left.
  rewrite IH by (intros q Hq; apply Hl; by right). lia.
Qed.

Lemma online_all σ :
  (forall k, is_Some (index (reg σ) !! k) -> node_online σ k) ->
  online σ = Z.of_nat (size (index (reg σ))).
Proof.
  intros Hall. unfold online.
  rewrite count_online_tally, tally_online_all, length_map_to_list; [done|].
  intros [k ent] Hin%elem_of_map_to_list. simpl.
  destruct (Hall k (mk_is_Some _ _ Hin)) as (ent' & r & He & Hr & Hs).
  rewrite Hin in He. injection He as <-.
  unfold is_online. rewrite Hr. by apply bool_decide_eq_true_2.
Qed.

Lemma pessimize_three_online σ (x : nat) (p1 p2 p3 : endpoint.Endpoint) :
  registered σ ->
  explorer (reg σ) = Some x ->
  size (index (reg σ)) = 4%nat ->
  (forall k, is_Some (index (reg σ) !! k) -> node_online σ k) ->
  NoDup (endpoint.NodeID <$> [p1; p2; p3]) ->
  (forall p, p ∈ [p1; p2; p3] -> is_Some (index (reg σ) !! endpoint.NodeID p)) ->
  exists σ5 σ6 σ7,
    Pessimize p1 σ = Returned None σ5 /\
    Pessimize p2 σ5 = Returned None σ6 /\
    Pessimize p3 σ6 = Returned None σ7 /\
    forced_of x σ5 = forced_of x σ /\
    forced_of x σ6 = forced_of x σ /\
    forced_of x σ7 = S (forced_of x σ).
Proof.
  intros Hreg4 Hexp Hsize Hall Hpd Hin.
  assert (Hcount : online σ = 4) by (by rewrite online_all, Hsize).
  assert (Hnode : forall p, p ∈ [p1; p2; p3] -> node_online σ (endpoint.NodeID p)).
  { intros p Hp. by apply Hall, Hin. }
  cbn in Hpd.
  apply NoDup_cons in Hpd as [Hn1 Hpd]. apply NoDup_cons in Hpd as [Hn2 _].
  apply not_elem_of_cons in Hn1 as [Hn12 Hn13].
  apply not_elem_of_cons in Hn13 as [Hn13 _].
  apply not_elem_of_cons in Hn2 as [Hn23 _].
  destruct (Pessimize_registered σ p1 Hreg4) as (σ5 & HP5 & Hreg5 & Hrg5 & Hc5 & Hf5 & Hk5).
  { apply Hnode. set_solver. }
  destruct (Pessimize_registered σ5 p2 Hreg5) as (σ6 & HP6 & Hreg6 & Hrg6 & Hc6 & Hf6 & Hk6).
  { apply Hk5; [congruence|]. apply Hnode. set_solver. }
  destruct (Pessimize_registered σ6 p3 Hreg6) as (σ7 & HP7 & Hreg7 & Hrg7 & Hc7 & Hf7 & Hk7).
  { apply Hk6; [congruence|]. apply Hk5; [congruence|]. apply Hnode. set_solver. }
  exists σ5, σ6, σ7. split; [done|]. split; [done|]. split; [done|].
  specialize (Hf5 x Hexp).
  specialize (Hf6 x ltac:(by rewrite Hrg5)).
  specialize (Hf7 x ltac:(by rewrite Hrg6, Hrg5)).
  rewrite Hrg6, Hrg5, Hsize, Hc6, Hc5, Hcount in Hf7.
  rewrite Hrg5, Hsize, Hc5, Hcount in Hf6.
  rewrite Hsize, Hcount in Hf5.
  change (if ((4 - 1) * 2 <? Z.of_nat 4)%Z then 1 else 0)%nat with 0%nat in Hf5.
  change (if ((4 - 1 - 1) * 2 <? Z.of_nat 4)%Z then 1 else 0)%nat with 0%nat in Hf6.
  change (if ((4 - 1 - 1 - 1) * 2 <? Z.of_nat 4)%Z then 1 else 0)%nat with 1%nat in Hf7.
  lia.
Qed.

End four_online.

(** [Get] past the hint: the selection of the balancer decides. *)
Section selection.
Context {B : Type} `{!balancer.Balancer B}.
Implicit Types (σ : config B).

Lemma Get_selection σ ctx :
  closed (reg σ) = false ->
  match ContextNodeID ctx with
  | Some nodeID => index (reg σ) !! nodeID
  | None => None
  end = None ->
  (forall r b',
     balancer.Next (conns (mem σ)) (balancer (reg σ)) = (Some r, b') ->
     exists σ',
       Get ctx σ = Returned (Some r, None) σ' /\
       reg σ' = set_balancer b' (reg σ) /\ conns (mem σ') = conns (mem σ)) /\
  (forall b',
     balancer.Next (conns (mem σ)) (balancer (reg σ)) = (None, b') ->
     exists σ',
       Get ctx σ = Panicked NilDereference σ' /\
       reg σ' = set_balancer b' (reg σ) /\ conns (mem σ') = conns (mem σ)).
Proof.
  intros Hc Hm. split.
  - intros r b' Hn. unfold Get. go_unfold. rewrite Hc. simpl.
    rewrite Hm. simpl. rewrite Hn. simpl. by eexists.
  - intros b' Hn. unfold Get. go_unfold. rewrite Hc. simpl.
    rewrite Hm. simpl. rewrite Hn. simpl. by eexists.
Qed.
End selection.

(** On every pair of lists, sorted or not, [DiffEndpoints] returns,
    and the calls it makes are those of the two-pointer merge with the
    verdicts of the comparator: equal heads are matched and both sides
    advance, a smaller head of [curr] is removed and [curr] advances, a
    smaller head of [next] is added and [next] advances, and the tail left
    on either side is reported wholesale; every element of [curr] is matched
    or removed, once, every element of [next] matched or added, once.  For
    identical lists it makes [length curr] calls of [eq] and no other.  For
    lists with no common NodeID, where the comparator tells NodeIDs apart,
    it makes [length curr] calls of [del], [length next] calls of [add] and
    none of [eq].  On lists on which the comparator is exact its verdicts
    are the order of the NodeIDs. *)
Lemma DiffEndpoints_two_pointer_merge (w : int_size)
    (curr next : list endpoint.Endpoint) :
  exists calls,
    DiffEndpoints_calls w curr next = Some calls /\
    report_of <$> calls = merge_by (compareEndpoints w) curr 0 next 0 /\
    (tally is_del calls + tally is_eq calls = length curr)%nat /\
    (tally is_add calls + tally is_eq calls = length next)%nat /\
    (curr = next ->
       tally is_eq calls = length curr /\
       tally is_add calls = 0%nat /\
       tally is_del calls = 0%nat) /\
    (cmp_separates w curr next -> no_common_ID curr next ->
       tally is_del calls = length curr /\
       tally is_add calls = length next /\
       tally is_eq calls = 0%nat) /\
    (cmp_exact w curr next ->
       report_of <$> calls = merge_spec curr 0 next 0).
Proof.
  destruct (diff_from_merge w curr next (length curr + length next) 0 0 [])
    as (calls & Hrun & Hrep); [lia|].
  rewrite !drop_0 in Hrep. exists calls.
  split; [by rewrite DiffEndpoints_calls_run|]. split; [done|].
  destruct (tally_reports calls) as (Hd & Ha & He).
  destruct (merge_by_counts (compareEndpoints w) curr 0 next 0) as [Hc1 Hc2].
  rewrite <- Hrep in Hc1, Hc2. rewrite <- Hd, <- He in Hc1. rewrite <- Ha, <- He in Hc2.
  split; [done|]. split; [done|]. split; [|split].
  - intros <-.
    pose proof (merge_by_identical (compareEndpoints w) curr 0 0
                  (fun x _ => compareEndpoints_same w x)) as Hm.
    rewrite <- Hrep, <- He in Hm. lia.
  - intros Hsep Hdis.
    assert (List.filter is_matched (report_of <$> calls) = []) as Hm.
    { rewrite Hrep. apply merge_by_disjoint. intros x y Hx Hy Hz.
      apply (Hdis x y Hx Hy). apply (compareEndpoints_zero w); [by apply Hsep|done]. }
    rewrite Hm in He. simpl in He. lia.
  - intros Hexact. by rewrite <- (merge_by_exact w curr 0 next 0 Hexact).
Qed.


(** * The claims *)

(** C1 (the code departs from the claim).  On a new registry, never inserted
    into and not closed, a [Get] whose context carries no node-affinity hint
    finds no connection in the balancer, sets the "cluster empty" error, and
    then panics on [conn.Endpoint()], the selection being nil: the error is
    not returned to the caller. *)
Theorem Get_empty_registry_aborts :
  Get (mkctx None) example.fresh
  = Panicked NilDereference
      (mkconfig (New rr.empty) (mkworld ∅ 0 ∅ ∅ 0 [trace.ClusterGet] [])).
Proof. reflexivity. Qed.

(** C2.  [Pessimize] returns the wrapped "cluster closed" error on a closed
    registry; otherwise the wrapped "unknown endpoint" error when the NodeID
    is not in the mapping; otherwise the wrapped nil-element error when the
    entry has no handle; otherwise the wrapped unknown-element error when the
    balancer does not contain the handle; the four kinds are distinct and
    the configuration is left as it was.  When none applies, the entry's
    connection, [r], is marked Banned and no error is returned. *)
Theorem Pessimize_outcomes {B} `{!balancer.Balancer B}
    (σ : config B) (e : endpoint.Endpoint) :
  (closed (reg σ) = true ->
     Pessimize e σ = Returned (Some (Errorf pessimize_failed ErrClusterClosed)) σ) /\
  (closed (reg σ) = false ->
   index (reg σ) !! endpoint.NodeID e = None ->
     Pessimize e σ = Returned (Some (Errorf pessimize_failed ErrUnknownEndpoint)) σ) /\
  (forall ent,
     closed (reg σ) = false ->
     index (reg σ) !! endpoint.NodeID e = Some ent ->
     entry.Handle ent = None ->
     Pessimize e σ
       = Returned (Some (Errorf pessimize_failed ErrNilBalancerElement)) σ) /\
  (forall ent,
     closed (reg σ) = false ->
     index (reg σ) !! endpoint.NodeID e = Some ent ->
     entry.Handle ent <> None ->
     balancer.Contains (entry.Handle ent) (balancer (reg σ)) = false ->
     Pessimize e σ
       = Returned (Some (Errorf pessimize_failed ErrUnknownBalancerElement)) σ) /\
  (forall ent r,
     closed (reg σ) = false ->
     index (reg σ) !! endpoint.NodeID e = Some ent ->
     entry.Handle ent <> None ->
     balancer.Contains (entry.Handle ent) (balancer (reg σ)) = true ->
     entry.Conn ent = Some r ->
     exists σ',
       Pessimize e σ = Returned None σ' /\
       state_of r σ' = state.Banned /\
       reg σ' = reg σ) /\
  NoDup [ErrClusterClosed; ErrUnknownEndpoint;
         ErrNilBalancerElement; ErrUnknownBalancerElement].
Proof.
  split_and!.
  - apply Pessimize_closed.
  - apply Pessimize_unknown.
  - intros ent. apply Pessimize_nil_handle.
  - intros ent. apply Pessimize_stale_handle.
  - intros ent r Hc He Hh Hb Hr. exists (demote r σ).
    split; [by apply (Pessimize_ok _ _ ent)|].
    split; [apply demote_state | apply demote_reg].
  - apply (bool_decide_unpack _). reflexivity.
Qed.

(** C3 (amended).  When [Pessimize] returns no error on a registry with a
    trigger [x], the entry's connection is Banned, and [Force] was called on
    [x] once if the online count taken after that, doubled, is less than the
    number of entries of the mapping, and not at all otherwise.  In
    particular, on a registry that holds four nodes, each registered with
    the balancer and each with its connection Online, the pessimization of
    three of them calls [Force] once, and does so at the third.  A new
    registry is such after the insertion of four nodes when the balancer
    keeps its registrations and [conn.New] builds connections Online. *)
Theorem Pessimize_forces_rediscovery {B} `{!balancer.Balancer B}
    (conn_init : state.State) :
  (forall (σ σ' : config B) (e : endpoint.Endpoint) (x : nat),
     explorer (reg σ) = Some x ->
     Pessimize e σ = Returned None σ' ->
     (exists ent r,
        index (reg σ) !! endpoint.NodeID e = Some ent /\
        entry.Conn ent = Some r /\ state_of r σ' = state.Banned) /\
     forced_of x σ'
     = (forced_of x σ
        + (if (online σ' * 2 <? Z.of_nat (size (index (reg σ'))))%Z
           then 1 else 0))%nat) /\
  (forall (σ : config B) (x : nat) (p1 p2 p3 : endpoint.Endpoint),
     registered σ ->
     explorer (reg σ) = Some x ->
     size (index (reg σ)) = 4%nat ->
     (forall k, is_Some (index (reg σ) !! k) -> node_online σ k) ->
     NoDup (endpoint.NodeID <$> [p1; p2; p3]) ->
     (forall p, p ∈ [p1; p2; p3] ->
        is_Some (index (reg σ) !! endpoint.NodeID p)) ->
     exists σ5 σ6 σ7,
       Pessimize p1 σ = Returned None σ5 /\
       Pessimize p2 σ5 = Returned None σ6 /\
       Pessimize p3 σ6 = Returned None σ7 /\
       forced_of x σ5 = forced_of x σ /\
       forced_of x σ6 = forced_of x σ /\
       forced_of x σ7 = S (forced_of x σ)) /\
  (registers (B := B) -> conn_init = state.Online ->
   forall (b : B) (h : world) (x : nat)
          (es : list (endpoint.Endpoint * list cluster_option))
          (p1 p2 p3 : endpoint.Endpoint),
     length es = 4%nat ->
     NoDup ((fun p => endpoint.NodeID p.1) <$> es) ->
     NoDup (endpoint.NodeID <$> [p1; p2; p3]) ->
     (forall p, p ∈ [p1; p2; p3] ->
        endpoint.NodeID p ∈ (fun p => endpoint.NodeID p.1) <$> es) ->
     let σ4 :=
       after_all conn_init (CallSetExplorer (Some x) :: (insert_call <$> es))
         (mkconfig (New b) h) in
     exists σ5 σ6 σ7,
       Pessimize p1 σ4 = Returned None σ5 /\
       Pessimize p2 σ5 = Returned None σ6 /\
       Pessimize p3 σ6 = Returned None σ7 /\
       forced_of x σ4 = repeater.forced (reps h !!! x) /\
       forced_of x σ5 = forced_of x σ4 /\
       forced_of x σ6 = forced_of x σ4 /\
       forced_of x σ7 = S (forced_of x σ4)).
Proof.
  split_and!.
  - intros σ σ' e x Hx HP.
    destruct (Pessimize_success _ _ _ HP) as (ent & r & Hc & He & Hh & Hb & Hr & ->).
    split.
    + exists ent, r. split; [done|]. split; [done|]. apply demote_state.
    + by apply demote_forced.
  - intros σ x p1 p2 p3. apply pessimize_three_online.
  - intros laws Hinit b h x es p1 p2 p3. by apply three_of_four.
Qed.

(** C3, the claim as worded.  Where [conn.New] builds a connection in
    another state than Online (here Unknown), four nodes are inserted into a
    new registry with a trigger and three of them pessimized: each of the
    three calls returns no error and each calls [Force], three calls and not
    one.  With an [Update] of each node before, which sets its connection
    Online, [Force] is called at the third only. *)
Lemma Pessimize_forces_rediscovery_counterexample :
  (exists σ5 σ6 σ7,
     Pessimize (example.ep 1) four_unknown = Returned None σ5 /\
     Pessimize (example.ep 2) σ5 = Returned None σ6 /\
     Pessimize (example.ep 3) σ6 = Returned None σ7 /\
     forced_of 0 four_unknown = 0%nat /\
     forced_of 0 σ5 = 1%nat /\ forced_of 0 σ6 = 2%nat /\ forced_of 0 σ7 = 3%nat) /\
  (exists σ5 σ6 σ7,
     Pessimize (example.ep 1) four_updated = Returned None σ5 /\
     Pessimize (example.ep 2) σ5 = Returned None σ6 /\
     Pessimize (example.ep 3) σ6 = Returned None σ7 /\
     forced_of 0 four_updated = 0%nat /\
     forced_of 0 σ5 = 0%nat /\ forced_of 0 σ6 = 0%nat /\ forced_of 0 σ7 = 1%nat).
Proof.
  split.
  - exists (after state.Unknown (CallPessimize (example.ep 1)) four_unknown),
      (after_all state.Unknown
         [CallPessimize (example.ep 1); CallPessimize (example.ep 2)] four_unknown),
      (after_all state.Unknown
         [CallPessimize (example.ep 1); CallPessimize (example.ep 2);
          CallPessimize (example.ep 3)] four_unknown).
    split_and!; vm_compute; reflexivity.
  - exists (after state.Unknown (CallPessimize (example.ep 1)) four_updated),
      (after_all state.Unknown
         [CallPessimize (example.ep 1); CallPessimize (example.ep 2)] four_updated),
      (after_all state.Unknown
         [CallPessimize (example.ep 1); CallPessimize (example.ep 2);
          CallPessimize (example.ep 3)] four_updated).
    split_and!; vm_compute; reflexivity.
Qed.

(** C4.  Once the registry is closed it stays closed through every
    sequence of calls, and in every such configuration: [Insert], [Update]
    and [Remove] return and leave the registry (mapping, ready counter,
    balancer and the rest) as it was, [Get] returns the "cluster closed"
    error, and [Pessimize] returns that error wrapped. *)
Theorem closed_registry_is_inert {B} `{!balancer.Balancer B}
    (conn_init : state.State) (σ : config B) :
  closed (reg σ) = true ->
  (forall ks, closed (reg (after_all conn_init ks σ)) = true) /\
  (forall e opts,
     exists σ', Insert conn_init e opts σ = Returned tt σ' /\ reg σ' = reg σ) /\
  (forall e opts,
     exists σ', Update e opts σ = Returned tt σ' /\ reg σ' = reg σ) /\
  (forall e opts,
     exists σ', Remove e opts σ = Returned tt σ' /\ reg σ' = reg σ) /\
  (forall ctx, Get ctx σ = Returned (None, Some ErrClusterClosed) σ) /\
  (forall e,
     Pessimize e σ
     = Returned (Some (Errorf pessimize_failed ErrClusterClosed)) σ).
Proof.
  intros Hc. split_and!.
  - intros ks. by apply after_all_closed.
  - intros e opts. by apply Insert_closed.
  - intros e opts. by apply Update_closed.
  - intros e opts. by apply Remove_closed.
  - intros ctx. by apply Get_closed.
  - intros e. by apply Pessimize_closed.
Qed.

(** C5.  On a registry that is not closed, a [Get] whose context pins a
    NodeID of the mapping returns the connection of that entry with no
    error, whatever the balancer would select and whatever the health of the
    connection; the registry, its balancer included, is left as it was.  So
    it is after that node was pessimized.  When the pinned NodeID is not in
    the mapping, [Get] does what it does without a hint, and that is the
    selection of the balancer: the connection [Next] gives is returned with
    no error and the balancer is left as [Next] left it; when [Next] gives
    none, the call ends as C1 has it. *)
Theorem Get_node_affinity {B} `{!balancer.Balancer B}
    (σ : config B) (nodeID : Z) :
  closed (reg σ) = false ->
  (forall ent,
     index (reg σ) !! nodeID = Some ent ->
     (exists σ',
        Get (mkctx (Some nodeID)) σ = Returned (entry.Conn ent, None) σ' /\
        reg σ' = reg σ /\ conns (mem σ') = conns (mem σ)) /\
     (forall e σ1,
        endpoint.NodeID e = nodeID ->
        Pessimize e σ = Returned None σ1 ->
        exists r σ2,
          entry.Conn ent = Some r /\ state_of r σ1 = state.Banned /\
          Get (mkctx (Some nodeID)) σ1 = Returned (Some r, None) σ2)) /\
  (index (reg σ) !! nodeID = None ->
     Get (mkctx (Some nodeID)) σ = Get (mkctx None) σ /\
     (forall r b',
        balancer.Next (conns (mem σ)) (balancer (reg σ)) = (Some r, b') ->
        exists σ',
          Get (mkctx (Some nodeID)) σ = Returned (Some r, None) σ' /\
          reg σ' = set_balancer b' (reg σ) /\ conns (mem σ') = conns (mem σ)) /\
     (forall b',
        balancer.Next (conns (mem σ)) (balancer (reg σ)) = (None, b') ->
        exists σ',
          Get (mkctx (Some nodeID)) σ = Panicked NilDereference σ' /\
          reg σ' = set_balancer b' (reg σ) /\ conns (mem σ') = conns (mem σ))).
Proof.
  intros Hc. split.
  - intros ent He. split; [by apply Get_hit|].
    intros e σ1 <- HP.
    destruct (Pessimize_success _ _ _ HP) as (ent' & r & _ & He' & _ & _ & Hr & ->).
    assert (ent' = ent) as -> by congruence.
    destruct (Get_hit (demote r σ) (endpoint.NodeID e) ent) as (σ2 & HG & _).
    { by rewrite demote_reg. }
    { by rewrite demote_reg. }
    exists r, σ2. split; [done|]. split; [apply demote_state|]. by rewrite <- Hr.
  - intros He. split; [by apply Get_miss|].
    by apply (Get_selection σ (mkctx (Some nodeID))).
Qed.

(** C6 (the code departs from the claim).  Where [int] has 32 bits, on
    the ascending lists of NodeIDs [0; 2147483651] and [2147483651] the
    comparator takes 0 for the greater of the heads: the diff reports the
    node 2147483651, which is on both sides, added and then removed with the
    tail, and matches nothing, where the merge by numeric order removes the
    node 0 and matches the node 2147483651. *)
Theorem DiffEndpoints_misses_match_on_overflow :
  ascending [example.ep 0; example.ep 2147483651] /\
  ascending [example.ep 2147483651] /\
  compareEndpoints Int32 (example.ep 0) (example.ep 2147483651) = 2147483645 /\
  DiffEndpoints_calls Int32
    [example.ep 0; example.ep 2147483651] [example.ep 2147483651]
  = Some [CallAdd 0 0; CallDel 0 1; CallDel 1 1] /\
  merge_spec [example.ep 0; example.ep 2147483651] 0 [example.ep 2147483651] 0
  = [Removed 0; Matched 1 0].
Proof.
  split_and!; try reflexivity; repeat constructor; simpl; lia.
Qed.

(** C7 (the code departs from the claim).  [compareEndpoints] is the
    difference of the NodeIDs cut to the width of [int].  Where [int] has 32
    bits, the NodeIDs 4294967295 and 0 compare as -1, the greater as the
    smaller, and [SortEndpoints] puts a slice that was ascending into
    descending order; where NodeIDs fill 64 bits, 9223372036854775808 and 0
    (unsigned), or 9223372036854775807 and -1 (signed), compare negative on
    every target. *)
Theorem compareEndpoints_overflows :
  compareEndpoints Int32 (example.ep 4294967295) (example.ep 0) = -1 /\
  compareEndpoints Int32 (example.ep 0) (example.ep 4294967295) = 1 /\
  SortEndpoints Int32 [example.ep 0; example.ep 4294967295]
    = [example.ep 4294967295; example.ep 0] /\
  compareEndpoints Int64 (example.ep 9223372036854775808) (example.ep 0)
    = -9223372036854775808 /\
  compareEndpoints Int64 (example.ep 9223372036854775807) (example.ep (-1))
    = -9223372036854775808.
Proof. repeat split; reflexivity. Qed.

(** C8.  On a registry whose gate, when there is one, was not released
    yet: [Close] returns no error; a second [Close] returns no error and
    changes nothing, so no connection is closed again; and when the registry
    was open, the first [Close] marked it closed, called [Stop] once on the
    trigger when one was set, released the gate when there was one, and
    called [Close] on every connection once per entry that holds it: once
    for a connection one entry holds, never for a connection no entry
    holds. *)
Theorem Close_idempotent {B} `{!balancer.Balancer B} (σ : config B) :
  gate_open σ ->
  exists σ1,
    Close σ = Returned None σ1 /\
    Close σ1 = Returned None σ1 /\
    closed (reg σ1) = true /\
    (closed (reg σ) = false ->
       (forall x,
          stopped_of x σ1
          = (stopped_of x σ
             + (if decide (explorer (reg σ) = Some x) then 1 else 0))%nat) /\
       (forall ch, wait (reg σ) = Some ch -> ch ∈ released (mem σ1)) /\
       (forall r,
          closes_of r σ1 = (closes_of r σ + holders r (index (reg σ)))%nat) /\
       (forall k ent r,
          index (reg σ) !! k = Some ent -> entry.Conn ent = Some r ->
          (forall k' ent', index (reg σ) !! k' = Some ent' ->
                           entry.Conn ent' = Some r -> k' = k) ->
          closes_of r σ1 = S (closes_of r σ)) /\
       (forall r,
          (forall k ent, index (reg σ) !! k = Some ent ->
                         entry.Conn ent <> Some r) ->
          closes_of r σ1 = closes_of r σ)).
Proof.
  intros Hg. destruct (closed (reg σ)) eqn:Hc.
  - exists σ. rewrite Close_closed by done. by repeat split.
  - exists (shut σ). rewrite Close_open by done.
    split; [done|]. split; [by apply Close_closed|]. split; [done|].
    intros _. split_and!.
    + apply shut_stopped.
    + apply shut_released.
    + apply shut_closes.
    + intros k ent r Hk Hr Hone.
      rewrite shut_closes, (holders_one _ k ent r) by done. lia.
    + intros r Hfree. rewrite shut_closes. unfold holders.
      rewrite filter_none; [simpl; lia|].
      intros [k ent] Hin%elem_of_map_to_list. by apply Hfree in Hin.
Qed.

(** C9.  On a registry that is not closed, [Insert] of a NodeID of the
    mapping, [Update] of a NodeID that is not in the mapping or of an entry
    with no connection, and [Remove] of a NodeID that is not in the mapping
    each panic, and leave the registry (mapping, ready counter, balancer) as
    it was. *)
Theorem contract_violations_abort {B} `{!balancer.Balancer B}
    (conn_init : state.State) (σ : config B)
    (e : endpoint.Endpoint) (opts : list cluster_option) :
  closed (reg σ) = false ->
  (is_Some (index (reg σ) !! endpoint.NodeID e) ->
     exists σ',
       Insert conn_init e opts σ
         = Panicked (PanicMsg "ydb: can't insert already existing endpoint") σ'
       /\ reg σ' = reg σ) /\
  (index (reg σ) !! endpoint.NodeID e = None ->
     exists σ',
       Update e opts σ
         = Panicked (PanicMsg "ydb: can't update not-existing endpoint") σ'
       /\ reg σ' = reg σ) /\
  (forall ent,
     index (reg σ) !! endpoint.NodeID e = Some ent -> entry.Conn ent = None ->
     exists σ',
       Update e opts σ = Panicked (PanicMsg "ydb: cluster entry with nil conn") σ'
       /\ reg σ' = reg σ) /\
  (index (reg σ) !! endpoint.NodeID e = None ->
     exists σ',
       Remove e opts σ
         = Panicked (PanicMsg "ydb: can't remove not-existing endpoint") σ'
       /\ reg σ' = reg σ).
Proof.
  intros Hc. split_and!.
  - by apply Insert_existing.
  - by apply Update_missing.
  - intros ent. by apply Update_nil_conn.
  - by apply Remove_missing.
Qed.


(** * The claims at work *)

Lemma Pessimize_outcomes_witness :
  Pessimize (example.ep 1) example.shutdown
    = Returned (Some (Errorf pessimize_failed ErrClusterClosed)) example.shutdown /\
  Pessimize (example.ep 9) example.four
    = Returned (Some (Errorf pessimize_failed ErrUnknownEndpoint)) example.four /\
  Pessimize (example.ep 1) example.untracked
    = Returned (Some (Errorf pessimize_failed ErrNilBalancerElement)) example.untracked /\
  Pessimize (example.ep 1) example.stale
    = Returned (Some (Errorf pessimize_failed ErrUnknownBalancerElement)) example.stale /\
  exists σ',
    Pessimize (example.ep 1) example.four = Returned None σ' /\
    state_of 0 σ' = state.Banned /\ reg σ' = reg example.four.
Proof.
  split_and!.
  - apply (Pessimize_outcomes example.shutdown (example.ep 1)).
    vm_compute. reflexivity.
  - apply (Pessimize_outcomes example.four (example.ep 9)); vm_compute; reflexivity.
  - destruct (Pessimize_outcomes example.untracked (example.ep 1))
      as (_ & _ & Hnil & _).
    apply (Hnil (entry.mk (info.mk 0 false) (Some 0%nat) None));
      vm_compute; reflexivity.
  - destruct (Pessimize_outcomes example.stale (example.ep 1))
      as (_ & _ & _ & Hstale & _).
    apply (Hstale (entry.mk (info.mk 0 false) (Some 0%nat) (Some 7%nat)));
      [vm_compute; reflexivity | vm_compute; reflexivity | discriminate
      | vm_compute; reflexivity].
  - destruct (Pessimize_outcomes example.four (example.ep 1))
      as (_ & _ & _ & _ & Hok & _).
    apply (Hok (entry.mk (info.mk 0 false) (Some 0%nat) (Some 0%nat)));
      [vm_compute; reflexivity | vm_compute; reflexivity | discriminate
      | vm_compute; reflexivity | reflexivity].
Defined.

Lemma Pessimize_forces_rediscovery_witness :
  explorer (reg example.four) = Some 0%nat /\
  Pessimize (example.ep 1) example.four = Returned None (demote 0 example.four) /\
  forced_of 0 (demote 0 example.four)
    = (forced_of 0 example.four
       + (if (online (demote 0 example.four) * 2
                <? Z.of_nat (size (index (reg (demote 0 example.four)))))%Z
          then 1 else 0))%nat /\
  exists σ5 σ6 σ7,
    Pessimize (example.ep 2) example.four = Returned None σ5 /\
    Pessimize (example.ep 4) σ5 = Returned None σ6 /\
    Pessimize (example.ep 1) σ6 = Returned None σ7 /\
    forced_of 0 example.four = 0%nat /\
    forced_of 0 σ5 = forced_of 0 example.four /\
    forced_of 0 σ6 = forced_of 0 example.four /\
    forced_of 0 σ7 = S (forced_of 0 example.four).
Proof.
  destruct (Pessimize_forces_rediscovery (B := rr.t) state.Online)
    as (Hgen & _ & Hfour).
  assert (Hx : explorer (reg example.four) = Some 0%nat) by reflexivity.
  assert (HP : Pessimize (example.ep 1) example.four
               = Returned None (demote 0 example.four))
    by (vm_compute; reflexivity).
  split; [exact Hx|]. split; [exact HP|]. split.
  - exact (proj2 (Hgen example.four _ (example.ep 1) 0%nat Hx HP)).
  - apply (Hfour rr_registers eq_refl rr.empty world0 0%nat
             [(example.ep 1, []); (example.ep 2, []); (example.ep 3, []); (example.ep 4, [])]
             (example.ep 2) (example.ep 4) (example.ep 1)).
    + reflexivity.
    + apply (bool_decide_unpack _). vm_compute. reflexivity.
    + apply (bool_decide_unpack _). vm_compute. reflexivity.
    + intros p Hp. apply (bool_decide_unpack _).
      apply list_elem_of_In in Hp. simpl in Hp.
      destruct Hp as [<-|[<-|[<-|[]]]]; vm_compute; reflexivity.
Defined.

Lemma closed_registry_is_inert_witness :
  closed (reg example.shutdown) = true /\
  closed (reg (after_all state.Online
                 [CallInsert (example.ep 5) []; CallUpdate (example.ep 1) [];
                  CallRemove (example.ep 2) []; CallGet (mkctx None);
                  CallPessimize (example.ep 3); CallClose]
                 example.shutdown)) = true /\
  Get (mkctx (Some 1)) example.shutdown
    = Returned (None, Some ErrClusterClosed) example.shutdown.
Proof.
  assert (Hc : closed (reg example.shutdown) = true) by (vm_compute; reflexivity).
  destruct (closed_registry_is_inert state.Online example.shutdown Hc)
    as (Hflag & _ & _ & _ & Hget & _).
  split; [exact Hc|]. split; [apply Hflag | apply Hget].
Defined.

Lemma Get_node_affinity_witness :
  closed (reg example.four) = false /\
  (exists σ',
     Get (mkctx (Some 3)) example.four = Returned (Some 2%nat, None) σ' /\
     reg σ' = reg example.four /\ conns (mem σ') = conns (mem example.four)) /\
  Get (mkctx (Some 9)) example.four = Get (mkctx None) example.four /\
  (exists σ',
     Get (mkctx (Some 9)) example.four = Returned (Some 0%nat, None) σ' /\
     reg σ'
     = set_balancer
         (rr.mk [rr.mkelem 1 (Some 1%nat) (info.mk 0 false);
                 rr.mkelem 2 (Some 2%nat) (info.mk 0 false);
                 rr.mkelem 3 (Some 3%nat) (info.mk 0 false);
                 rr.mkelem 0 (Some 0%nat) (info.mk 0 false)] 4)
         (reg example.four) /\
     conns (mem σ') = conns (mem example.four)).
Proof.
  assert (Hc : closed (reg example.four) = false) by (vm_compute; reflexivity).
  split; [exact Hc|].
  destruct (Get_node_affinity example.four 3 Hc) as [Hhit _].
  destruct (Get_node_affinity example.four 9 Hc) as [_ Hmiss].
  destruct Hmiss as (Hsame & Hsel & _); [vm_compute; reflexivity|].
  split_and!.
  - apply (Hhit (entry.mk (info.mk 0 false) (Some 2%nat) (Some 2%nat))).
    vm_compute. reflexivity.
  - exact Hsame.
  - apply Hsel. vm_compute. reflexivity.
Defined.

Lemma Close_idempotent_witness :
  gate_open example.gated /\
  wait (reg example.gated) = Some 0%nat /\
  exists σ1,
    Close example.gated = Returned None σ1 /\
    Close σ1 = Returned None σ1 /\
    closed (reg σ1) = true /\
    stopped_of 0 σ1 = 1%nat /\
    0%nat ∈ released (mem σ1) /\
    closes_of 2 σ1 = 1%nat.
Proof.
  assert (Hg : gate_open example.gated).
  { apply (bool_decide_unpack _). vm_compute. reflexivity. }
  assert (Hw : wait (reg example.gated) = Some 0%nat) by (vm_compute; reflexivity).
  split; [exact Hg|]. split; [exact Hw|].
  destruct (Close_idempotent example.gated Hg) as (σ1 & H1 & H2 & H3 & Heff).
  destruct Heff as (Hstop & Hrel & Hcl & _); [vm_compute; reflexivity|].
  exists σ1. split; [exact H1|]. split; [exact H2|]. split; [exact H3|].
  split; [|split].
  - rewrite Hstop. vm_compute. reflexivity.
  - exact (Hrel 0%nat Hw).
  - rewrite Hcl. vm_compute. reflexivity.
Defined.

Lemma contract_violations_abort_witness :
  closed (reg example.four) = false /\
  (exists σ',
     Insert state.Online (example.ep 1) [] example.four
       = Panicked (PanicMsg "ydb: can't insert already existing endpoint") σ'
     /\ reg σ' = reg example.four) /\
  (exists σ',
     Update (example.ep 9) [] example.four
       = Panicked (PanicMsg "ydb: can't update not-existing endpoint") σ'
     /\ reg σ' = reg example.four) /\
  (exists σ',
     Remove (example.ep 9) [] example.four
       = Panicked (PanicMsg "ydb: can't remove not-existing endpoint") σ'
     /\ reg σ' = reg example.four) /\
  (exists σ',
     Update (example.ep 1) [] example.stray
       = Panicked (PanicMsg "ydb: cluster entry with nil conn") σ'
     /\ reg σ' = reg example.stray).
Proof.
  assert (Hc : closed (reg example.four) = false) by (vm_compute; reflexivity).
  split; [exact Hc|].
  destruct (contract_violations_abort state.Online example.four (example.ep 1) [] Hc)
    as (Hins & _).
  destruct (contract_violations_abort state.Online example.four (example.ep 9) [] Hc)
    as (_ & Hupd & _ & Hrem).
  destruct (contract_violations_abort state.Online example.stray (example.ep 1) [] eq_refl)
    as (_ & _ & Hnil & _).
  split_and!.
  - apply Hins. eexists. vm_compute. reflexivity.
  - apply Hupd. vm_compute. reflexivity.
  - apply Hrem. vm_compute. reflexivity.
  - apply (Hnil (entry.mk (info.mk 0 false) None (Some 0%nat))); vm_compute; reflexivity.
Defined.


(** * Further properties of the comparator, the sort and the diff *)

(** X1. Where the difference of two NodeIDs fits in [int] (strictly inside
    its range), [compareEndpoints] returns the difference itself: it is
    antisymmetric, negative exactly for a smaller first NodeID, zero exactly
    for equal NodeIDs, positive exactly for a larger first NodeID. *)
Theorem compareEndpoints_three_way (w : int_size) (a b : endpoint.Endpoint) :
  - 2 ^ (bits w - 1) < endpoint.ID a - endpoint.ID b < 2 ^ (bits w - 1) ->
  compareEndpoints w a b = endpoint.ID a - endpoint.ID b /\
  compareEndpoints w b a = - compareEndpoints w a b /\
  (compareEndpoints w a b < 0 <-> endpoint.ID a < endpoint.ID b) /\
  (compareEndpoints w a b = 0 <-> endpoint.ID a = endpoint.ID b) /\
  (0 < compareEndpoints w a b <-> endpoint.ID b < endpoint.ID a).
Proof.
  intros Hr.
  rewrite (compareEndpoints_exact w a b) by lia.
  rewrite (compareEndpoints_exact w b a) by lia.
  lia.
Qed.

Lemma compareEndpoints_three_way_witness :
  compareEndpoints Int32 (example.ep 5) (example.ep 2000000000) = 5 - 2000000000 /\
  compareEndpoints Int32 (example.ep 2000000000) (example.ep 5)
    = - compareEndpoints Int32 (example.ep 5) (example.ep 2000000000).
Proof.
  destruct (compareEndpoints_three_way Int32 (example.ep 5) (example.ep 2000000000))
    as (H1 & H2 & _).
  - simpl. lia.
  - split; [exact H1 | exact H2].
Defined.

Lemma ascending_cons x l :
  ascending (x :: l) ->
  ascending l /\ forall z, z ∈ l -> endpoint.ID x < endpoint.ID z.
Proof.
  intros Hs. apply StronglySorted_inv in Hs as [Hl Hx].
  split; [exact Hl|]. intros z Hz. rewrite Forall_forall in Hx. by apply Hx.
Qed.

Lemma elem_of_Added_seq r j n :
  r ∈ Added <$> seq j n <-> exists q, r = Added (j + q) /\ (q < n)%nat.
Proof.
  rewrite list_elem_of_fmap. split.
  - intros (k & -> & Hk). apply elem_of_seq in Hk.
    exists (k - j)%nat. split; [f_equal; lia | lia].
  - intros (q & -> & Hq). exists (j + q)%nat. split; [done|].
    apply elem_of_seq. lia.
Qed.

Lemma elem_of_Removed_seq r i n :
  r ∈ Removed <$> seq i n <-> exists p, r = Removed (i + p) /\ (p < n)%nat.
Proof.
  rewrite list_elem_of_fmap. split.
  - intros (k & -> & Hk). apply elem_of_seq in Hk.
    exists (k - i)%nat. split; [f_equal; lia | lia].
  - intros (p & -> & Hp). exists (i + p)%nat. split; [done|].
    apply elem_of_seq. lia.
Qed.

Lemma merge_spec_sound curr : forall i next j,
  ascending curr -> ascending next ->
  merge_sound (merge_spec curr i next j) curr i next j.
Proof.
  induction curr as [|x curr IHc]; intros i next j Hc Hn.
  { rewrite merge_spec_nil. split_and!.
    - intros a b. rewrite elem_of_Added_seq. split.
      + by intros (q & [=] & _).
      + by intros (p & q & x & y & _ & _ & [=] & _).
    - intros a. rewrite elem_of_Added_seq. split.
      + by intros (q & [=] & _).
      + by intros (p & x & _ & [=] & _).
    - intros b. rewrite elem_of_Added_seq. split.
      + intros (q & [= ->] & Hq).
        destruct (lookup_lt_is_Some_2 next q Hq) as [y Hy].
        exists q, y. split_and!; [done..|]. intros x Hx. by apply elem_of_nil in Hx.
      + intros (q & y & -> & Hy & _). exists q. split; [done|].
        by eapply lookup_lt_Some. }
  induction next as [|y next IHn] in j, Hn |- *.
  { rewrite merge_spec_cons_nil. split_and!.
    - intros a b. rewrite elem_of_Removed_seq. split.
      + by intros (q & [=] & _).
      + by intros (p & q & x' & y & _ & _ & _ & [=] & _).
    - intros a. rewrite elem_of_Removed_seq. split.
      + intros (p & [= ->] & Hp).
        destruct (lookup_lt_is_Some_2 (x :: curr) p Hp) as [x' Hx'].
        exists p, x'. split_and!; [done..|]. intros y Hy. by apply elem_of_nil in Hy.
      + intros (p & x' & -> & Hx' & _). exists p. split; [done|].
        by eapply lookup_lt_Some.
    - intros b. rewrite elem_of_Removed_seq. split.
      + by intros (q & [=] & _).
      + by intros (q & y & _ & [=] & _). }
  destruct (ascending_cons _ _ Hc) as [Hc' Hx].
  destruct (ascending_cons _ _ Hn) as [Hn' Hy].
  rewrite merge_spec_cons_cons.
  destruct (endpoint.ID x =? endpoint.ID y) eqn:Heq.
  { apply Z.eqb_eq in Heq.
    destruct (IHc (S i) next (S j) Hc' Hn') as (IHm & IHr & IHa).
    split_and!.
    - intros a b. rewrite elem_of_cons, IHm. split.
      + intros [[= -> ->]|(p & q & x' & y' & -> & -> & Hp & Hq & He)].
        * exists 0%nat, 0%nat, x, y. split_and!; [lia | lia | done..].
        * exists (S p), (S q), x', y'. split_and!; [lia | lia | done..].
      + intros (p & q & x' & y' & -> & -> & Hp & Hq & He).
        destruct p as [|p], q as [|q]; simpl in Hp, Hq.
        * left. f_equal; lia.
        * injection Hp as <-. apply list_elem_of_lookup_2 in Hq.
          specialize (Hy _ Hq). lia.
        * injection Hq as <-. apply list_elem_of_lookup_2 in Hp.
          specialize (Hx _ Hp). lia.
        * right. exists p, q, x', y'. split_and!; [lia | lia | done..].
    - intros a. rewrite elem_of_cons, IHr. split.
      + intros [[=]|(p & x' & -> & Hp & Hne)].
        exists (S p), x'. split_and!; [lia | done |].
        intros y' [->|Hy']%elem_of_cons; [|by apply Hne].
        apply list_elem_of_lookup_2 in Hp. specialize (Hx _ Hp). lia.
      + intros (p & x' & -> & Hp & Hne). destruct p as [|p]; simpl in Hp.
        * injection Hp as <-. exfalso. apply (Hne y); [left | done].
        * right. exists p, x'. split_and!; [lia | done |].
          intros y' Hy'. apply Hne. by right.
    - intros b. rewrite elem_of_cons, IHa. split.
      + intros [[=]|(q & y' & -> & Hq & Hne)].
        exists (S q), y'. split_and!; [lia | done |].
        intros x' [->|Hx']%elem_of_cons; [|by apply Hne].
        apply list_elem_of_lookup_2 in Hq. specialize (Hy _ Hq). lia.
      + intros (q & y' & -> & Hq & Hne). destruct q as [|q]; simpl in Hq.
        * injection Hq as <-. exfalso. apply (Hne x); [left | done].
        * right. exists q, y'. split_and!; [lia | done |].
          intros x' Hx'. apply Hne. by right. }
  apply Z.eqb_neq in Heq.
  destruct (endpoint.ID x <? endpoint.ID y) eqn:Hlt.
  { apply Z.ltb_lt in Hlt.
    assert (Hall : forall y', y' ∈ y :: next -> endpoint.ID x < endpoint.ID y').
    { intros y' [->|Hy']%elem_of_cons; [done|]. specialize (Hy _ Hy'). lia. }
    destruct (IHc (S i) (y :: next) j Hc' Hn) as (IHm & IHr & IHa).
    split_and!.
    - intros a b. rewrite elem_of_cons, IHm. split.
      + intros [[=]|(p & q & x' & y' & -> & -> & Hp & Hq & He)].
        exists (S p), q, x', y'. split_and!; [lia | lia | done..].
      + intros (p & q & x' & y' & -> & -> & Hp & Hq & He).
        destruct p as [|p]; simpl in Hp.
        * injection Hp as <-. apply list_elem_of_lookup_2 in Hq.
          specialize (Hall _ Hq). lia.
        * right. exists p, q, x', y'. split_and!; [lia | lia | done..].
    - intros a. rewrite elem_of_cons, IHr. split.
      + intros [[= ->]|(p & x' & -> & Hp & Hne)].
        * exists 0%nat, x. split_and!; [lia | done |].
          intros y' Hy'. specialize (Hall _ Hy'). lia.
        * exists (S p), x'. split_and!; [lia | done..].
      + intros (p & x' & -> & Hp & Hne). destruct p as [|p]; simpl in Hp.
        * left. f_equal. lia.
        * right. exists p, x'. split_and!; [lia | done..].
    - intros b. rewrite elem_of_cons, IHa. split.
      + intros [[=]|(q & y' & -> & Hq & Hne)].
        exists q, y'. split_and!; [done | done |].
        intros x' [->|Hx']%elem_of_cons; [|by apply Hne].
        apply list_elem_of_lookup_2 in Hq. specialize (Hall _ Hq). lia.
      + intros (q & y' & -> & Hq & Hne). right.
        exists q, y'. split_and!; [done | done |].
        intros x' Hx'. apply Hne. by right. }
  apply Z.ltb_ge in Hlt.
  assert (Hall : forall x', x' ∈ x :: curr -> endpoint.ID y < endpoint.ID x').
  { intros x' [->|Hx']%elem_of_cons; [lia|]. specialize (Hx _ Hx'). lia. }
  destruct (IHn (S j) Hn') as (IHm & IHr & IHa).
  split_and!.
  - intros a b. rewrite elem_of_cons, IHm. split.
    + intros [[=]|(p & q & x' & y' & -> & -> & Hp & Hq & He)].
      exists p, (S q), x', y'. split_and!; [lia | lia | done..].
    + intros (p & q & x' & y' & -> & -> & Hp & Hq & He).
      destruct q as [|q]; simpl in Hq.
      * injection Hq as <-. apply list_elem_of_lookup_2 in Hp.
        specialize (Hall _ Hp). lia.
      * right. exists p, q, x', y'. split_and!; [lia | lia | done..].
  - intros a. rewrite elem_of_cons, IHr. split.
    + intros [[=]|(p & x' & -> & Hp & Hne)].
      exists p, x'. split_and!; [done | done |].
      intros y' [->|Hy']%elem_of_cons; [|by apply Hne].
      apply list_elem_of_lookup_2 in Hp. specialize (Hall _ Hp). lia.
    + intros (p & x' & -> & Hp & Hne). right.
      exists p, x'. split_and!; [done | done |].
      intros y' Hy'. apply Hne. by right.
  - intros b. rewrite elem_of_cons, IHa. split.
    + intros [[= ->]|(q & y' & -> & Hq & Hne)].
      * exists 0%nat, y. split_and!; [lia | done |].
        intros x' Hx'. specialize (Hall _ Hx'). lia.
      * exists (S q), y'. split_and!; [lia | done..].
    + intros (q & y' & -> & Hq & Hne). destruct q as [|q]; simpl in Hq.
      * left. f_equal. lia.
      * right. exists q, y'. split_and!; [lia | done..].
Qed.

Lemma Matched_report (calls : list diff_call) a b :
  Matched a b ∈ report_of <$> calls <-> CallEq a b ∈ calls.
Proof.
  rewrite list_elem_of_fmap. split.
  - intros ([] & [=] & Hc). by subst.
  - intros Hc. by exists (CallEq a b).
Qed.

Lemma Removed_report (calls : list diff_call) a :
  Removed a ∈ report_of <$> calls <-> exists j, CallDel a j ∈ calls.
Proof.
  rewrite list_elem_of_fmap. split.
  - intros ([] & [=] & Hc). subst. by eexists.
  - intros (j & Hc). by exists (CallDel a j).
Qed.

Lemma Added_report (calls : list diff_call) b :
  Added b ∈ report_of <$> calls <-> exists i, CallAdd i b ∈ calls.
Proof.
  rewrite list_elem_of_fmap. split.
  - intros ([] & [=] & Hc). subst. by eexists.
  - intros (i & Hc). by exists (CallAdd i b).
Qed.

(** The run of the diff as a merge of the two lists. *)
Lemma DiffEndpoints_calls_merge w curr next :
  exists calls,
    DiffEndpoints_calls w curr next = Some calls /\
    report_of <$> calls = merge_by (compareEndpoints w) curr 0 next 0.
Proof.
  rewrite DiffEndpoints_calls_run.
  destruct (diff_from_merge w curr next (length curr + length next) 0 0 [])
    as (calls & Hrun & Hrep); [lia|].
  exists calls. split; [exact Hrun|]. by rewrite Hrep, !drop_0.
Qed.

Lemma DiffEndpoints_calls_sound w curr next :
  cmp_exact w curr next -> ascending curr -> ascending next ->
  exists calls,
    DiffEndpoints_calls w curr next = Some calls /\
    (forall i j, CallEq i j ∈ calls <->
       exists x y, curr !! i = Some x /\ next !! j = Some y /\
                   endpoint.ID x = endpoint.ID y) /\
    (forall i, (exists j, CallDel i j ∈ calls) <->
       exists x, curr !! i = Some x /\
                 forall y, y ∈ next -> endpoint.ID y <> endpoint.ID x) /\
    (forall j, (exists i, CallAdd i j ∈ calls) <->
       exists y, next !! j = Some y /\
                 forall x, x ∈ curr -> endpoint.ID x <> endpoint.ID y).
Proof.
  intros Hex Hc Hn.
  destruct (DiffEndpoints_calls_merge w curr next) as (calls & Hrun & Hrep).
  rewrite merge_by_exact in Hrep by exact Hex.
  destruct (merge_spec_sound curr 0 next 0 Hc Hn) as (Hm & Hr & Ha).
  rewrite <- Hrep in Hm, Hr, Ha.
  exists calls. split; [exact Hrun|]. split_and!.
  - intros i j. rewrite <- Matched_report, Hm. split.
    + intros (p & q & x & y & -> & -> & H). by exists x, y.
    + intros (x & y & H). by exists i, j, x, y.
  - intros i. rewrite <- Removed_report, Hr. split.
    + intros (p & x & -> & H). by exists x.
    + intros (x & H). by exists i, x.
  - intros j. rewrite <- Added_report, Ha. split.
    + intros (q & y & -> & H). by exists y.
    + intros (y & H). by exists j, y.
Qed.

(** X2. On two lists in strictly ascending order of NodeID, compared exactly,
    the diff terminates and reports the set differences: [eq(i, j)] is called
    exactly for the pairs of positions that hold the same NodeID, [del] exactly
    for the positions of [curr] whose NodeID [next] does not hold, [add]
    exactly for the positions of [next] whose NodeID [curr] does not hold. *)
Theorem DiffEndpoints_reports_differences (w : int_size)
    (curr next : list endpoint.Endpoint) :
  cmp_exact w curr next -> ascending curr -> ascending next ->
  exists calls,
    DiffEndpoints_calls w curr next = Some calls /\
    (forall i j, CallEq i j ∈ calls <->
       exists x y, curr !! i = Some x /\ next !! j = Some y /\
                   endpoint.ID x = endpoint.ID y) /\
    (forall i, (exists j, CallDel i j ∈ calls) <->
       exists x, curr !! i = Some x /\
                 forall y, y ∈ next -> endpoint.ID y <> endpoint.ID x) /\
    (forall j, (exists i, CallAdd i j ∈ calls) <->
       exists y, next !! j = Some y /\
                 forall x, x ∈ curr -> endpoint.ID x <> endpoint.ID y).
Proof. apply DiffEndpoints_calls_sound. Qed.

Lemma DiffEndpoints_reports_differences_witness :
  exists calls,
    DiffEndpoints_calls Int64 [example.ep 1; example.ep 3; example.ep 8]
      [example.ep 2; example.ep 3; example.ep 7] = Some calls /\
    CallEq 1 1 ∈ calls /\ (exists j, CallDel 2 j ∈ calls) /\
    (exists i, CallAdd i 0 ∈ calls) /\ ~ (exists j, CallDel 1 j ∈ calls).
Proof.
  destruct (DiffEndpoints_reports_differences Int64
              [example.ep 1; example.ep 3; example.ep 8]
              [example.ep 2; example.ep 3; example.ep 7])
    as (calls & Hrun & Hm & Hr & Ha).
  - intros x y Hx%list_elem_of_In Hy%list_elem_of_In. simpl in Hx, Hy.
    destruct Hx as [<-|[<-|[<-|[]]]], Hy as [<-|[<-|[<-|[]]]]; simpl; lia.
  - repeat constructor; simpl; lia.
  - repeat constructor; simpl; lia.
  - exists calls. split; [exact Hrun|]. split_and!.
    + apply Hm. by exists (example.ep 3), (example.ep 3).
    + apply Hr. exists (example.ep 8). split; [done|].
      intros y Hy%list_elem_of_In. simpl in Hy.
      destruct Hy as [<-|[<-|[<-|[]]]]; simpl; lia.
    + apply Ha. exists (example.ep 2). split; [done|].
      intros x Hx%list_elem_of_In. simpl in Hx.
      destruct Hx as [<-|[<-|[<-|[]]]]; simpl; lia.
    + intros Hd. apply Hr in Hd as (x & [= <-] & Hne).
      apply (Hne (example.ep 3)); [|done].
      apply list_elem_of_In. simpl. tauto.
Defined.

Lemma omap_Added_seq j n :
  omap report_curr (Added <$> seq j n) = [] /\
  omap report_next (Added <$> seq j n) = seq j n.
Proof.
  revert j. induction n as [|n IH]; intros j; [done|].
  destruct (IH (S j)) as [IH1 IH2].
  change (seq j (S n)) with (j :: seq (S j) n). rewrite fmap_cons.
  cbn [omap list_omap report_curr report_next]. by rewrite IH1, IH2.
Qed.

Lemma omap_Removed_seq i n :
  omap report_curr (Removed <$> seq i n) = seq i n /\
  omap report_next (Removed <$> seq i n) = [].
Proof.
  revert i. induction n as [|n IH]; intros i; [done|].
  destruct (IH (S i)) as [IH1 IH2].
  change (seq i (S n)) with (i :: seq (S i) n). rewrite fmap_cons.
  cbn [omap list_omap report_curr report_next]. by rewrite IH1, IH2.
Qed.

Lemma merge_by_positions cmp curr : forall i next j,
  omap report_curr (merge_by cmp curr i next j) = seq i (length curr) /\
  omap report_next (merge_by cmp curr i next j) = seq j (length next).
Proof.
  induction curr as [|x curr IHc]; intros i next j.
  { rewrite merge_by_nil. apply omap_Added_seq. }
  induction next as [|y next IHn] in j |- *.
  { rewrite merge_by_cons_nil. apply omap_Removed_seq. }
  rewrite merge_by_cons_cons.
  destruct (cmp x y <? 0); [|destruct (0 <? cmp x y)].
  - destruct (IHc (S i) (y :: next) j) as [H1 H2].
    cbn [omap list_omap report_curr report_next]. by rewrite H1, H2.
  - destruct (IHn (S j)) as [H1 H2].
    cbn [omap list_omap report_curr report_next]. by rewrite H1, H2.
  - destruct (IHc (S i) next (S j)) as [H1 H2].
    cbn [omap list_omap report_curr report_next]. by rewrite H1, H2.
Qed.

(** X3. Whatever the two lists hold, sorted or not, and whatever the
    comparator makes of their NodeIDs, the diff terminates and reports every
    position of [curr] exactly once, in ascending order, as removed or
    matched, and every position of [next] exactly once, in ascending order,
    as added or matched. *)
Theorem DiffEndpoints_reports_every_position (w : int_size)
    (curr next : list endpoint.Endpoint) :
  exists calls,
    DiffEndpoints_calls w curr next = Some calls /\
    omap report_curr (report_of <$> calls) = seq 0 (length curr) /\
    omap report_next (report_of <$> calls) = seq 0 (length next).
Proof.
  destruct (DiffEndpoints_calls_merge w curr next) as (calls & Hrun & Hrep).
  exists calls. split; [exact Hrun|]. rewrite Hrep.
  apply merge_by_positions.
Qed.

Lemma tally_app kind l1 l2 :
  tally kind (l1 ++ l2) = (tally kind l1 + tally kind l2)%nat.
Proof. unfold tally. by rewrite List.filter_app, length_app. Qed.

Lemma cursor_ok_dels j n : forall i,
  cursor_ok i j ((fun k => CallDel k j) <$> seq i n) /\
  tally advances_curr ((fun k => CallDel k j) <$> seq i n) = n /\
  tally advances_next ((fun k => CallDel k j) <$> seq i n) = 0%nat.
Proof.
  induction n as [|n IH]; intros i; [done|].
  destruct (IH (S i)) as (H1 & H2 & H3).
  split_and!; [by split | |]; unfold tally in *; simpl; by f_equal.
Qed.

Lemma cursor_ok_adds i n : forall j,
  cursor_ok i j (CallAdd i <$> seq j n).
Proof.
  induction n as [|n IH]; intros j; [done|]. split; [done|]. apply IH.
Qed.

Lemma cursor_ok_app l1 : forall i j l2,
  cursor_ok i j l1 ->
  cursor_ok (i + tally advances_curr l1) (j + tally advances_next l1) l2 ->
  cursor_ok i j (l1 ++ l2).
Proof.
  induction l1 as [|c l1 IH]; intros i j l2 H1 H2.
  { unfold tally in H2. simpl in H2. by rewrite !Nat.add_0_r in H2. }
  destruct H1 as [Hc H1]. split; [exact Hc|].
  apply IH; [exact H1|].
  unfold tally in *. simpl in H2.
  destruct (advances_curr c), (advances_next c); simpl in H2;
    rewrite <- ?Nat.add_succ_comm in H2; exact H2.
Qed.

Lemma cursor_ok_split calls : forall i j pre c post,
  cursor_ok i j calls -> calls = pre ++ c :: post ->
  call_args c = ((i + tally advances_curr pre)%nat, (j + tally advances_next pre)%nat).
Proof.
  induction calls as [|c0 calls IH]; intros i j pre c post Hok Heq.
  { by destruct pre. }
  destruct Hok as [Hc0 Hok].
  destruct pre as [|c1 pre]; simpl in Heq; injection Heq as -> ->.
  { unfold tally. simpl. by rewrite !Nat.add_0_r. }
  rewrite (IH _ _ pre c post Hok eq_refl).
  unfold tally. simpl.
  destruct (advances_curr c1), (advances_next c1); simpl; f_equal; lia.
Qed.

Lemma diff_from_cursor w curr next fuel : forall i j acc calls,
  diff_from w curr next fuel i j acc = Some calls ->
  exists rest, calls = acc ++ rest /\ cursor_ok i j rest.
Proof.
  induction fuel as [|fuel IH]; intros i j acc calls Hrun.
  - destruct ((i <? length curr)%nat && (j <? length next)%nat) eqn:Hc.
    + unfold diff_from in Hrun. simpl in Hrun. by rewrite Hc in Hrun.
    + rewrite diff_from_done in Hrun by exact Hc. injection Hrun as <-.
      eexists. split; [done|].
      destruct (cursor_ok_dels j (length curr - i) i) as (Hd & Hdc & Hdn).
      apply cursor_ok_app; [exact Hd|]. rewrite Hdc, Hdn.
      replace (i + (length curr - i))%nat with (Nat.max i (length curr)) by lia.
      rewrite Nat.add_0_r. apply cursor_ok_adds.
  - destruct ((i <? length curr)%nat && (j <? length next)%nat) eqn:Hc.
    + apply andb_true_iff in Hc as [Hi%Nat.ltb_lt Hj%Nat.ltb_lt].
      destruct (lookup_lt_is_Some_2 curr i Hi) as [x Hx].
      destruct (lookup_lt_is_Some_2 next j Hj) as [y Hy].
      rewrite (diff_from_step w curr next fuel i j acc x y Hx Hy) in Hrun.
      cbv zeta in Hrun.
      destruct (compareEndpoints w x y <? 0);
        [|destruct (0 <? compareEndpoints w x y)];
        apply IH in Hrun as (rest & -> & Hok); rewrite <- app_assoc;
        eexists; (split; [reflexivity|]); by split.
    + rewrite diff_from_done in Hrun by exact Hc. injection Hrun as <-.
      eexists. split; [done|].
      destruct (cursor_ok_dels j (length curr - i) i) as (Hd & Hdc & Hdn).
      apply cursor_ok_app; [exact Hd|]. rewrite Hdc, Hdn.
      replace (i + (length curr - i))%nat with (Nat.max i (length curr)) by lia.
      rewrite Nat.add_0_r. apply cursor_ok_adds.
Qed.

(** X4. The arguments [(i, j)] of every call the diff makes are the cursor of
    the merge at that moment: [i] is the number of earlier calls of [eq] and
    [del], [j] the number of earlier calls of [eq] and [add].  So [del(i, j)]
    names, besides the removed position [i], the position of [next] before
    which it falls, and [add(i, j)] the position of [curr] before which the
    added one falls. *)
Theorem DiffEndpoints_arguments_are_cursor (w : int_size)
    (curr next : list endpoint.Endpoint) :
  exists calls,
    DiffEndpoints_calls w curr next = Some calls /\
    forall pre c post, calls = pre ++ c :: post ->
      call_args c = (tally advances_curr pre, tally advances_next pre).
Proof.
  destruct (DiffEndpoints_calls_merge w curr next) as (calls & Hrun & _).
  exists calls. split; [exact Hrun|].
  rewrite DiffEndpoints_calls_run in Hrun.
  apply diff_from_cursor in Hrun as (rest & -> & Hok).
  intros pre c post Heq. simpl in Heq.
  by rewrite (cursor_ok_split _ 0 0 pre c post Hok Heq).
Qed.

(** X5. With nothing in [curr] the diff makes one call [add(0, j)] for each
    position [j] of [next], in order, and no other; with nothing in [next]
    one call [del(i, 0)] for each position [i] of [curr], in order, and no
    other; no comparison is made, no [eq] is called. *)
Theorem DiffEndpoints_empty_side (w : int_size) (l : list endpoint.Endpoint) :
  DiffEndpoints_calls w [] l = Some (CallAdd 0 <$> seq 0 (length l)) /\
  DiffEndpoints_calls w l [] = Some ((fun i => CallDel i 0) <$> seq 0 (length l)).
Proof.
  rewrite !DiffEndpoints_calls_run. split.
  - rewrite diff_from_done by done. simpl. by rewrite Nat.sub_0_r.
  - rewrite diff_from_done by (simpl; apply andb_false_r).
    simpl. by rewrite Nat.sub_0_r, app_nil_r.
Qed.

Lemma cmp_exact_perm w l1 l2 l1' l2' :
  l1' ≡ₚ l1 -> l2' ≡ₚ l2 -> cmp_exact w l1 l2 -> cmp_exact w l1' l2'.
Proof.
  intros H1 H2 Hex x y Hx Hy. apply Hex; [by rewrite <- H1 | by rewrite <- H2].
Qed.

Lemma sorted_distinct_ascending l :
  Sorted (fun a b => endpoint.ID a <= endpoint.ID b) l ->
  NoDup (endpoint.ID <$> l) -> ascending l.
Proof.
  intros Hs Hnd.
  apply Sorted_StronglySorted in Hs; [|intros a b c; lia].
  induction Hs as [|x l Hs IH Hx]; [constructor|].
  rewrite fmap_cons in Hnd. apply NoDup_cons in Hnd as [Hnx Hnd].
  constructor; [by apply IH|].
  rewrite Forall_forall in Hx |- *. intros z Hz.
  specialize (Hx z Hz). simpl in Hx.
  assert (endpoint.ID z <> endpoint.ID x); [|lia].
  intros Heq. apply Hnx. rewrite <- Heq.
  by apply list_elem_of_fmap_2.
Qed.

Lemma SortEndpoints_ascending w es :
  cmp_exact w es es -> NoDup (endpoint.ID <$> es) ->
  ascending (SortEndpoints w es).
Proof.
  intros Hex Hnd. destruct (SortEndpoints_sorts w es Hex) as [Hs Hp].
  apply sorted_distinct_ascending; [exact Hs|]. by rewrite Hp.
Qed.

Lemma ascending_NoDup l : ascending l -> NoDup (endpoint.ID <$> l).
Proof.
  induction l as [|x l IH]; intros Ha; [constructor|].
  destruct (ascending_cons _ _ Ha) as [Ha' Hx].
  rewrite fmap_cons. constructor; [|by apply IH].
  intros (z & Hz & Hin)%list_elem_of_fmap. specialize (Hx z Hin). lia.
Qed.

(** A set of endpoints has one arrangement in strictly ascending order. *)
Lemma ascending_perm_unique l1 : forall l2,
  ascending l1 -> ascending l2 -> l1 ≡ₚ l2 -> l1 = l2.
Proof.
  induction l1 as [|x l1 IH]; intros l2 H1 H2 Hp.
  { by apply Permutation_nil_l in Hp. }
  destruct l2 as [|y l2]; [by apply Permutation_nil_r in Hp|].
  destruct (ascending_cons _ _ H1) as [H1' Hx].
  destruct (ascending_cons _ _ H2) as [H2' Hy].
  assert (x = y) as <-.
  { assert (Hxin : x ∈ y :: l2) by (rewrite <- Hp; left).
    assert (Hyin : y ∈ x :: l1) by (rewrite Hp; left).
    apply elem_of_cons in Hxin as [->|Hxin]; [done|].
    apply elem_of_cons in Hyin as [->|Hyin]; [done|].
    specialize (Hx y Hyin). specialize (Hy x Hxin). lia. }
  f_equal. apply IH; [done..|]. by apply Permutation_cons_inv in Hp.
Qed.

(** X6. Where the comparator is exact on the NodeIDs of a slice,
    [SortEndpoints] rearranges the slice into ascending order of NodeID.
    When no NodeID occurs twice the order is strict and sorting the result
    again changes nothing, and a slice that is strictly ascending already is
    left as it is: a set of endpoints has one ascending arrangement.  Slices
    that hold a NodeID twice, which a sort may arrange in more than one way,
    are left out of the last two. *)
Theorem SortEndpoints_orders (w : int_size) (es : list endpoint.Endpoint) :
  cmp_exact w es es ->
  Sorted (fun a b => endpoint.ID a <= endpoint.ID b) (SortEndpoints w es) /\
  SortEndpoints w es ≡ₚ es /\
  (NoDup (endpoint.ID <$> es) ->
     ascending (SortEndpoints w es) /\
     SortEndpoints w (SortEndpoints w es) = SortEndpoints w es) /\
  (ascending es -> SortEndpoints w es = es).
Proof.
  intros Hex. destruct (SortEndpoints_sorts w es Hex) as [Hs Hp].
  assert (Hfix : forall l, cmp_exact w l l -> ascending l -> SortEndpoints w l = l).
  { intros l Hl Ha. destruct (SortEndpoints_sorts w l Hl) as [_ Hpl].
    apply ascending_perm_unique; [|exact Ha|exact Hpl].
    apply SortEndpoints_ascending; [exact Hl | by apply ascending_NoDup]. }
  split_and!; [exact Hs | exact Hp | |].
  - intros Hnd. split; [by apply SortEndpoints_ascending|].
    apply Hfix; [by apply (cmp_exact_perm w es es) | by apply SortEndpoints_ascending].
  - by apply Hfix.
Qed.

Lemma SortEndpoints_orders_witness :
  SortEndpoints Int64 [example.ep 4; example.ep 1; example.ep 3] ≡ₚ
    [example.ep 4; example.ep 1; example.ep 3] /\
  ascending (SortEndpoints Int64 [example.ep 4; example.ep 1; example.ep 3]) /\
  SortEndpoints Int64
    (SortEndpoints Int64 [example.ep 4; example.ep 1; example.ep 3])
  = SortEndpoints Int64 [example.ep 4; example.ep 1; example.ep 3].
Proof.
  destruct (SortEndpoints_orders Int64 [example.ep 4; example.ep 1; example.ep 3])
    as (_ & Hp & Hnd & _).
  - intros x y Hx%list_elem_of_In Hy%list_elem_of_In. simpl in Hx, Hy.
    destruct Hx as [<-|[<-|[<-|[]]]], Hy as [<-|[<-|[<-|[]]]]; simpl; lia.
  - split; [exact Hp|]. apply Hnd.
    apply (bool_decide_unpack _). vm_compute. reflexivity.
Defined.

(** X7. Sorting the current and the next list and diffing the results tells
    the two sets of NodeIDs apart, when no NodeID occurs twice in a list and
    the comparator is exact on all of them: the position a current endpoint
    is sorted to is matched exactly when [next] holds its NodeID and removed
    exactly when it does not; the position a next endpoint is sorted to is
    matched exactly when [curr] holds its NodeID and added exactly when it
    does not. *)
Theorem SortEndpoints_then_DiffEndpoints (w : int_size)
    (curr next : list endpoint.Endpoint) :
  NoDup (endpoint.ID <$> curr) -> NoDup (endpoint.ID <$> next) ->
  cmp_exact w (curr ++ next) (curr ++ next) ->
  exists calls,
    DiffEndpoints_calls w (SortEndpoints w curr) (SortEndpoints w next) = Some calls /\
    (forall i x, SortEndpoints w curr !! i = Some x ->
       ((exists j, CallEq i j ∈ calls) <-> endpoint.ID x ∈ endpoint.ID <$> next) /\
       ((exists j, CallDel i j ∈ calls) <-> endpoint.ID x ∉ endpoint.ID <$> next)) /\
    (forall j y, SortEndpoints w next !! j = Some y ->
       ((exists i, CallEq i j ∈ calls) <-> endpoint.ID y ∈ endpoint.ID <$> curr) /\
       ((exists i, CallAdd i j ∈ calls) <-> endpoint.ID y ∉ endpoint.ID <$> curr)).
Proof.
  intros Hnc Hnn Hex.
  assert (Hcc : cmp_exact w curr curr).
  { intros x y Hx Hy. apply Hex; apply elem_of_app; by left. }
  assert (Hnx : cmp_exact w next next).
  { intros x y Hx Hy. apply Hex; apply elem_of_app; by right. }
  assert (Hcn : cmp_exact w curr next).
  { intros x y Hx Hy. apply Hex; apply elem_of_app; [by left | by right]. }
  destruct (SortEndpoints_sorts w curr Hcc) as [_ Hpc].
  destruct (SortEndpoints_sorts w next Hnx) as [_ Hpn].
  destruct (DiffEndpoints_calls_sound w (SortEndpoints w curr) (SortEndpoints w next))
    as (calls & Hrun & Hm & Hr & Ha).
  { by apply (cmp_exact_perm w curr next). }
  { by apply SortEndpoints_ascending. }
  { by apply SortEndpoints_ascending. }
  exists calls. split; [exact Hrun|]. split.
  - intros i x Hi. split.
    + split.
      * intros (j & Hj). apply Hm in Hj as (x' & y & Hx' & Hy & He).
        rewrite Hi in Hx'. injection Hx' as <-. rewrite He, <- Hpn.
        apply list_elem_of_fmap_2. by eapply list_elem_of_lookup_2.
      * rewrite <- Hpn. intros (y & He & Hy)%list_elem_of_fmap.
        apply list_elem_of_lookup_1 in Hy as (j & Hj).
        exists j. apply Hm. by exists x, y.
    + rewrite Hr, <- Hpn. split.
      * intros (x' & Hx' & Hne) (y & He & Hy)%list_elem_of_fmap.
        rewrite Hi in Hx'. injection Hx' as <-. by apply (Hne y).
      * intros Hne. exists x. split; [done|]. intros y Hy He. apply Hne.
        rewrite <- He. by apply list_elem_of_fmap_2.
  - intros j y Hj. split.
    + split.
      * intros (i & Hi). apply Hm in Hi as (x & y' & Hx & Hy' & He).
        rewrite Hj in Hy'. injection Hy' as <-. rewrite <- He, <- Hpc.
        apply list_elem_of_fmap_2. by eapply list_elem_of_lookup_2.
      * rewrite <- Hpc. intros (x & He & Hx)%list_elem_of_fmap.
        apply list_elem_of_lookup_1 in Hx as (i & Hi).
        exists i. apply Hm. by exists x, y.
    + rewrite Ha, <- Hpc. split.
      * intros (y' & Hy' & Hne) (x & He & Hx)%list_elem_of_fmap.
        rewrite Hj in Hy'. injection Hy' as <-. by apply (Hne x).
      * intros Hne. exists y. split; [done|]. intros x Hx He. apply Hne.
        rewrite <- He. by apply list_elem_of_fmap_2.
Qed.

Lemma SortEndpoints_then_DiffEndpoints_witness :
  exists calls,
    DiffEndpoints_calls Int64
      (SortEndpoints Int64 [example.ep 4; example.ep 1; example.ep 3])
      (SortEndpoints Int64 [example.ep 3; example.ep 2]) = Some calls /\
    ((exists j, CallEq 1 j ∈ calls) <->
       3 ∈ endpoint.ID <$> [example.ep 3; example.ep 2]) /\
    ((exists j, CallDel 2 j ∈ calls) <->
       4 ∉ endpoint.ID <$> [example.ep 3; example.ep 2]).
Proof.
  destruct (SortEndpoints_then_DiffEndpoints Int64
              [example.ep 4; example.ep 1; example.ep 3]
              [example.ep 3; example.ep 2])
    as (calls & Hrun & Hc & _).
  - apply (bool_decide_unpack _). vm_compute. reflexivity.
  - apply (bool_decide_unpack _). vm_compute. reflexivity.
  - intros x y Hx%list_elem_of_In Hy%list_elem_of_In. simpl in Hx, Hy.
    destruct Hx as [<-|[<-|[<-|[<-|[<-|[]]]]]],
             Hy as [<-|[<-|[<-|[<-|[<-|[]]]]]]; simpl; lia.
  - exists calls. split; [exact Hrun|]. split.
    + apply (Hc 1%nat (example.ep 3)). vm_compute. reflexivity.
    + apply (Hc 2%nat (example.ep 4)). vm_compute. reflexivity.
Defined.

(** * Further properties of the registry *)

Section tracking.
Context {B : Type} `{!balancer.Balancer B}.
Variable conn_init : state.State.
Implicit Types (σ : config B) (e : endpoint.Endpoint).

(** X8. [Insert] of a NodeID an open registry does not hold returns, and
    tracks the node: the mapping gains, under that NodeID and no other, an
    entry with the load factor and locality of the endpoint, the connection
    [conn.New] just built and the handle the balancer gave for it; the
    ready counter grows by one; the gate is cleared and, when there was
    one, released; no other connection is touched; a [Get] with that NodeID
    as hint returns the new connection from then on. *)
Theorem Insert_tracks_endpoint σ e opts :
  closed (reg σ) = false -> gate_open σ ->
  index (reg σ) !! endpoint.NodeID e = None ->
  let r := fresh_conn (mem σ) in
  let i := info.mk (endpoint.LoadFactor e) (endpoint.Local e) in
  let hb := balancer.Insert (Some r) i (balancer (reg σ)) in
  exists σ',
    Insert conn_init e opts σ = Returned tt σ' /\
    index (reg σ') !! endpoint.NodeID e = Some (entry.mk i (Some r) hb.1) /\
    (forall k, k <> endpoint.NodeID e -> index (reg σ') !! k = index (reg σ) !! k) /\
    balancer (reg σ') = hb.2 /\
    ready (reg σ') = ready (reg σ) + 1 /\
    wait (reg σ') = None /\
    released (mem σ')
      = match wait (reg σ) with
        | Some ch => {[ch]} ∪ released (mem σ)
        | None => released (mem σ)
        end /\
    closed (reg σ') = false /\
    explorer (reg σ') = explorer (reg σ) /\
    conns (mem σ') !!! r = conn.mk e conn_init 0 /\
    (forall r', r' <> r -> conns (mem σ') !!! r' = conns (mem σ) !!! r') /\
    traced (mem σ')
      = traced (mem σ) ++ [trace.ClusterInsert e; trace.ClusterInsertDone] /\
    exists σ'',
      Get (mkctx (Some (endpoint.NodeID e))) σ' = Returned (Some r, None) σ''.
Proof.
  intros Hc Hg He r i hb. subst r i hb.
  unfold Insert, entry_InsertInto. go_unfold.
  unfold gate_open in Hg. simpl. rewrite Hc, He. simpl.
  destruct (balancer.Insert _ _ _) as [h b'] eqn:Hins. simpl.
  unfold close_chan. simpl.
  destruct (wait (reg σ)) as [ch|]; simpl;
    rewrite ?decide_False by done;
    destruct (wg (apply_options opts)); simpl;
    eexists; (split; [reflexivity|]); simpl;
    (split_and!;
     [by rewrite lookup_insert_eq
     |by intros k Hk; rewrite lookup_insert_ne
     |done|done|done|done|done|done
     |by rewrite lookup_total_insert_eq
     |by intros r' Hr'; rewrite lookup_total_insert_ne
     |by rewrite <- app_assoc
     |]);
    unfold Get; go_unfold; simpl; rewrite Hc; simpl;
    rewrite lookup_insert_eq; simpl; by eexists.
Qed.

Lemma Update_present σ e opts ent r :
  closed (reg σ) = false ->
  index (reg σ) !! endpoint.NodeID e = Some ent ->
  entry.Conn ent = Some r ->
  let i := info.mk (endpoint.LoadFactor e) (endpoint.Local e) in
  exists σ',
    Update e opts σ = Returned tt σ' /\
    index (reg σ')
      = <[endpoint.NodeID e := entry.mk i (Some r) (entry.Handle ent)]>
          (index (reg σ)) /\
    balancer (reg σ')
      = match entry.Handle ent with
        | Some _ => balancer.Update (entry.Handle ent) i (balancer (reg σ))
        | None => balancer (reg σ)
        end /\
    ready (reg σ') = ready (reg σ) /\
    wait (reg σ') = wait (reg σ) /\
    closed (reg σ') = false /\
    explorer (reg σ') = explorer (reg σ) /\
    conns (mem σ') = conns (store_state r state.Online (mem σ)) /\
    fresh_conn (mem σ') = fresh_conn (mem σ) /\
    reps (mem σ') = reps (mem σ) /\
    released (mem σ') = released (mem σ) /\
    traced (mem σ')
      = traced (mem σ) ++ [trace.ClusterUpdate e; trace.ClusterUpdateDone state.Online].
Proof.
  intros Hc He Hr i. subst i. unfold Update. go_unfold. simpl.
  rewrite Hc, He, Hr. simpl.
  destruct (entry.Handle ent); simpl;
    destruct (wg (apply_options opts)); simpl;
    eexists; (split; [reflexivity|]); simpl;
    rewrite lookup_total_insert_eq; simpl; rewrite <- ?app_assoc, ?Hc;
    split_and!; done.
Qed.

(** X9. [Update] of a NodeID an open registry holds with a connection
    returns, and refreshes the entry: the load factor and locality become
    those of the endpoint, the connection and the handle stay, the
    connection is set Online whatever its state was, and the balancer is
    told of the new values exactly when the entry has a handle.  Nothing
    else changes: no entry comes or goes, the ready counter, the gate and
    the other connections are as before, and nothing is closed. *)
Theorem Update_refreshes_entry σ e opts ent r :
  closed (reg σ) = false ->
  index (reg σ) !! endpoint.NodeID e = Some ent ->
  entry.Conn ent = Some r ->
  let i := info.mk (endpoint.LoadFactor e) (endpoint.Local e) in
  exists σ',
    Update e opts σ = Returned tt σ' /\
    index (reg σ') !! endpoint.NodeID e
      = Some (entry.mk i (Some r) (entry.Handle ent)) /\
    (forall k, k <> endpoint.NodeID e -> index (reg σ') !! k = index (reg σ) !! k) /\
    size (index (reg σ')) = size (index (reg σ)) /\
    balancer (reg σ')
      = match entry.Handle ent with
        | Some _ => balancer.Update (entry.Handle ent) i (balancer (reg σ))
        | None => balancer (reg σ)
        end /\
    ready (reg σ') = ready (reg σ) /\
    wait (reg σ') = wait (reg σ) /\
    closed (reg σ') = false /\
    state_of r σ' = state.Online /\
    (forall r', closes_of r' σ' = closes_of r' σ) /\
    (forall r', r' <> r -> conns (mem σ') !!! r' = conns (mem σ) !!! r').
Proof.
  intros Hc He Hr i.
  destruct (Update_present σ e opts ent r Hc He Hr)
    as (σ' & HU & Hi & Hb & Hrd & Hw & Hc' & _ & Hcs & _).
  exists σ'. split; [exact HU|]. rewrite Hi.
  split_and!; try done.
  - by rewrite lookup_insert_eq.
  - intros k Hk. by rewrite lookup_insert_ne.
  - rewrite map_size_insert_Some; [done | by eexists].
  - unfold state_of. rewrite Hcs. apply store_state_lookup.
  - intros r'. unfold closes_of. rewrite Hcs. unfold store_state. simpl.
    destruct (decide (r' = r)) as [->|Hne].
    + by rewrite lookup_total_insert_eq.
    + by rewrite lookup_total_insert_ne.
  - intros r' Hne. rewrite Hcs. unfold store_state. simpl.
    by rewrite lookup_total_insert_ne.
Qed.

(** X10. An [Update] undoes a [Pessimize]: after a [Pessimize] that
    returned no error the connection of the node is Banned, and an
    [Update] of the same endpoint returns and sets it Online again, the
    entry keeping its connection. *)
Theorem Update_undoes_Pessimize σ e opts σ1 :
  Pessimize e σ = Returned None σ1 ->
  exists ent r σ2,
    index (reg σ) !! endpoint.NodeID e = Some ent /\
    entry.Conn ent = Some r /\
    state_of r σ1 = state.Banned /\
    Update e opts σ1 = Returned tt σ2 /\
    state_of r σ2 = state.Online /\
    (exists ent', index (reg σ2) !! endpoint.NodeID e = Some ent' /\
                  entry.Conn ent' = Some r /\
                  entry.Handle ent' = entry.Handle ent).
Proof.
  intros HP.
  destruct (Pessimize_success σ e σ1 HP) as (ent & r & Hc & He & _ & _ & Hr & ->).
  destruct (Update_present (demote r σ) e opts ent r)
    as (σ2 & HU & Hi & _ & _ & _ & _ & _ & Hcs & _).
  { by rewrite demote_reg. }
  { by rewrite demote_reg. }
  { exact Hr. }
  exists ent, r, σ2. split_and!; try done.
  - apply demote_state.
  - unfold state_of. rewrite Hcs. apply store_state_lookup.
  - eexists. rewrite Hi, lookup_insert_eq. by split_and!.
Qed.

Lemma Remove_present_store σ e opts ent r :
  closed (reg σ) = false ->
  index (reg σ) !! endpoint.NodeID e = Some ent ->
  entry.Conn ent = Some r ->
  exists σ',
    Remove e opts σ = Returned tt σ' /\
    reg σ' = mkcluster (unregistered ent (balancer (reg σ))) (explorer (reg σ))
               (delete (endpoint.NodeID e) (index (reg σ))) (ready (reg σ) - 1)
               (wait (reg σ)) false /\
    conns (mem σ') = conns (store_close r (mem σ)) /\
    fresh_conn (mem σ') = fresh_conn (mem σ) /\
    reps (mem σ') = reps (mem σ) /\
    released (mem σ') = released (mem σ) /\
    traced (mem σ')
      = traced (mem σ)
        ++ [trace.ClusterRemove e;
            trace.ClusterRemoveDone (conn.st (conns (mem σ) !!! r))].
Proof.
  intros Hc He Hr. unfold Remove, entry_RemoveFrom, unregistered.
  go_unfold. simpl. rewrite Hc, He. simpl.
  destruct (entry.Handle ent); simpl; rewrite Hr; simpl;
    destruct (wg (apply_options opts)); simpl;
    eexists; (split; [reflexivity|]); simpl;
    rewrite lookup_total_insert_eq; simpl; rewrite <- ?app_assoc;
    unfold set_index, set_ready, set_balancer; simpl; rewrite ?Hc;
    split_and!; done.
Qed.

(** X11. [Remove] of a NodeID an open registry holds with a connection
    returns, and forgets the node: the entry leaves the mapping, the others
    stay, the ready counter drops by one, the handle is taken out of the
    balancer when there is one, and the connection is closed once, no
    other.  From then on a [Get] with that NodeID as hint is a [Get]
    without hint, [Pessimize] of the node fails with the wrapped "unknown
    endpoint" error, and a second [Remove] panics. *)
Theorem Remove_forgets_endpoint σ e opts ent r :
  closed (reg σ) = false ->
  index (reg σ) !! endpoint.NodeID e = Some ent ->
  entry.Conn ent = Some r ->
  exists σ',
    Remove e opts σ = Returned tt σ' /\
    index (reg σ') !! endpoint.NodeID e = None /\
    (forall k, k <> endpoint.NodeID e -> index (reg σ') !! k = index (reg σ) !! k) /\
    ready (reg σ') = ready (reg σ) - 1 /\
    balancer (reg σ') = unregistered ent (balancer (reg σ)) /\
    closes_of r σ' = S (closes_of r σ) /\
    (forall r', r' <> r -> conns (mem σ') !!! r' = conns (mem σ) !!! r') /\
    Get (mkctx (Some (endpoint.NodeID e))) σ' = Get (mkctx None) σ' /\
    Pessimize e σ'
      = Returned (Some (Errorf pessimize_failed ErrUnknownEndpoint)) σ' /\
    (forall opts', exists σ'',
       Remove e opts' σ'
         = Panicked (PanicMsg "ydb: can't remove not-existing endpoint") σ'').
Proof.
  intros Hc He Hr.
  destruct (Remove_present_store σ e opts ent r Hc He Hr)
    as (σ' & HR & Hreg & Hcs & _).
  assert (Hi : index (reg σ') = delete (endpoint.NodeID e) (index (reg σ)))
    by (by rewrite Hreg).
  assert (Hn : index (reg σ') !! endpoint.NodeID e = None)
    by (by rewrite Hi, lookup_delete_eq).
  assert (Hc' : closed (reg σ') = false) by (by rewrite Hreg).
  exists σ'. split; [exact HR|]. split_and!.
  - exact Hn.
  - intros k Hk. by rewrite Hi, lookup_delete_ne.
  - by rewrite Hreg.
  - by rewrite Hreg.
  - unfold closes_of. rewrite Hcs. unfold store_close. simpl.
    by rewrite lookup_total_insert_eq.
  - intros r' Hne. rewrite Hcs. unfold store_close. simpl.
    by rewrite lookup_total_insert_ne.
  - by apply Get_miss.
  - by apply Pessimize_unknown.
  - intros opts'. destruct (Remove_missing σ' e opts' Hc' Hn) as (σ'' & H' & _).
    by exists σ''.
Qed.

Lemma Insert_returned σ e opts σ1 :
  closed (reg σ) = false ->
  index (reg σ) !! endpoint.NodeID e = None ->
  Insert conn_init e opts σ = Returned tt σ1 ->
  index (reg σ1)
    = <[endpoint.NodeID e :=
          entry.mk (info.mk (endpoint.LoadFactor e) (endpoint.Local e))
            (Some (fresh_conn (mem σ)))
            (balancer.Insert (Some (fresh_conn (mem σ)))
               (info.mk (endpoint.LoadFactor e) (endpoint.Local e))
               (balancer (reg σ))).1]> (index (reg σ)) /\
  ready (reg σ1) = ready (reg σ) + 1 /\
  closed (reg σ1) = false.
Proof.
  intros Hc He. unfold Insert, entry_InsertInto, close_chan. go_unfold.
  simpl. rewrite Hc, He. simpl.
  destruct (balancer.Insert _ _ _) as [h b']. simpl.
  destruct (wait (reg σ)) as [ch|]; simpl;
    try destruct (decide (ch ∈ released (mem σ)));
    destruct (wg (apply_options opts)); simpl;
    intros HI; try discriminate; injection HI as <-; simpl;
    by rewrite ?Hc.
Qed.

(** X12. [Insert] followed by [Remove] of the same endpoint is a round
    trip for the mapping and the ready counter.  When the [Insert] of a
    NodeID an open registry did not hold has returned and the entry it
    stored holds a connection, the [Remove] returns, the mapping and the
    counter are as before the [Insert], the registry is open, and that
    connection was closed once, no other.  An entry stored without a
    connection is left out: there [Remove] does not return. *)
Theorem Insert_then_Remove σ e opts opts' σ1 ent r :
  closed (reg σ) = false ->
  index (reg σ) !! endpoint.NodeID e = None ->
  Insert conn_init e opts σ = Returned tt σ1 ->
  index (reg σ1) !! endpoint.NodeID e = Some ent ->
  entry.Conn ent = Some r ->
  exists σ2,
    Remove e opts' σ1 = Returned tt σ2 /\
    index (reg σ2) = index (reg σ) /\
    ready (reg σ2) = ready (reg σ) /\
    closed (reg σ2) = false /\
    closes_of r σ2 = S (closes_of r σ1) /\
    (forall r', r' <> r -> conns (mem σ2) !!! r' = conns (mem σ1) !!! r').
Proof.
  intros Hc He HI He1 Hr.
  destruct (Insert_returned σ e opts σ1 Hc He HI) as (Hi1 & Hr1 & Hc1).
  destruct (Remove_present_store σ1 e opts' ent r Hc1 He1 Hr)
    as (σ2 & HR & Hreg2 & Hcs2 & _).
  exists σ2. split; [exact HR|].
  rewrite Hreg2. simpl. split_and!.
  - by rewrite Hi1, delete_insert_id.
  - lia.
  - done.
  - unfold closes_of. rewrite Hcs2. unfold store_close. simpl.
    by rewrite lookup_total_insert_eq.
  - intros r' Hne. rewrite Hcs2. unfold store_close. simpl.
    by rewrite lookup_total_insert_ne.
Qed.
End tracking.

Section lifecycle.
Context {B : Type} `{!balancer.Balancer B}.
Variable conn_init : state.State.
Implicit Types (σ : config B) (e : endpoint.Endpoint).

Lemma after_keeps_open k σ :
  k <> CallClose -> closed (reg (after conn_init k σ)) = closed (reg σ).
Proof.
  intros Hk. destruct k; simpl; try done.
  - (* Insert *)
    unfold Insert, entry_InsertInto, close_chan. go_unfold. simpl.
    destruct (closed (reg σ)) eqn:Hc.
    { by destruct (wg (apply_options opts)). }
    destruct (index (reg σ) !! endpoint.NodeID e) as [ent|] eqn:He.
    { by destruct (wg (apply_options opts)). }
    simpl. destruct (balancer.Insert _ _ _) as [h b']. simpl.
    destruct (wait (reg σ)) as [ch|]; simpl;
      try destruct (decide (ch ∈ released (mem σ)));
      by destruct (wg (apply_options opts)).
  - (* Update *)
    unfold Update. go_unfold. simpl.
    destruct (closed (reg σ)) eqn:Hc.
    { by destruct (wg (apply_options opts)). }
    destruct (index (reg σ) !! endpoint.NodeID e) as [ent|];
      [|by destruct (wg (apply_options opts))].
    destruct (entry.Conn ent);
      [|by destruct (wg (apply_options opts))].
    simpl. destruct (entry.Handle ent); simpl;
      by destruct (wg (apply_options opts)).
  - (* Get *)
    unfold Get. go_unfold. destruct (closed (reg σ)) eqn:Hc; [done|]. simpl.
    destruct (match ContextNodeID ctx with
              | Some nodeID => index (reg σ) !! nodeID
              | None => None
              end); [done|].
    simpl. by destruct (balancer.Next _ _) as [[r|] b].
  - (* Pessimize *)
    by rewrite Pessimize_reg.
  - (* Remove *)
    unfold Remove, entry_RemoveFrom. go_unfold. simpl.
    destruct (closed (reg σ)) eqn:Hc.
    { by destruct (wg (apply_options opts)). }
    destruct (index (reg σ) !! endpoint.NodeID e) as [ent|];
      [|by destruct (wg (apply_options opts))].
    simpl. destruct (entry.Handle ent); simpl;
      destruct (entry.Conn ent); simpl;
      by destruct (wg (apply_options opts)).
  - (* Force *)
    unfold Force. go_unfold. by destruct (explorer (reg σ)).
Qed.

Lemma Close_closes σ : closed (reg (final (Close σ))) = true.
Proof.
  unfold Close, close_chan. unfold bind at 1. unfold gets at 1.
  destruct (closed (reg σ)) eqn:Hc; [done|].
  destruct σ as [c h]; simpl in *.
  destruct (explorer c), (wait c) as [ch|];
    unfold bind, ret, modify, repeater_Stop, with_reg, with_mem; simpl;
    try destruct (decide (ch ∈ released _)); simpl;
    rewrite ?for_each_close; simpl; done.
Qed.

(** X13. The registry is closed by [Close] and by nothing else: a call
    leaves an open registry closed exactly when the call is [Close], and
    [Close] leaves it closed however it ends, also when it panics on a gate
    that was released before. *)
Theorem closed_only_by_Close k σ :
  closed (reg σ) = false ->
  (closed (reg (after conn_init k σ)) = true <-> k = CallClose).
Proof.
  intros Hc. split.
  - intros Hk. destruct k; try done;
      rewrite after_keeps_open in Hk by done; congruence.
  - intros ->. apply Close_closes.
Qed.

(** X14. A wait group given with [WithWG] is marked done exactly once by
    [Insert], by [Update] and by [Remove], however the call ends: on a
    closed registry, on success and on each of the panics.  The last
    [WithWG] of the options counts; [WithConnConfig] does not change the
    wait group; without [WithWG] none is marked. *)
Theorem wg_Done_exactly_once σ e opts :
  let marked := match wg (apply_options opts) with
                | Some w => [w]
                | None => []
                end in
  wg_done (mem (final (Insert conn_init e opts σ))) = wg_done (mem σ) ++ marked /\
  wg_done (mem (final (Update e opts σ))) = wg_done (mem σ) ++ marked /\
  wg_done (mem (final (Remove e opts σ))) = wg_done (mem σ) ++ marked /\
  (forall w, wg (apply_options (opts ++ [WithWG w])) = Some w) /\
  (forall cfg, wg (apply_options (opts ++ [WithConnConfig cfg]))
               = wg (apply_options opts)) /\
  wg (apply_options []) = None.
Proof.
  intros marked. subst marked. split_and!.
  - unfold Insert, entry_InsertInto, close_chan. go_unfold. simpl.
    destruct (closed (reg σ)) eqn:Hc.
    { destruct (wg (apply_options opts)); simpl; by rewrite ?app_nil_r. }
    destruct (index (reg σ) !! endpoint.NodeID e) as [ent|] eqn:He.
    { destruct (wg (apply_options opts)); simpl; by rewrite ?app_nil_r. }
    simpl. destruct (balancer.Insert _ _ _) as [h b']. simpl.
    destruct (wait (reg σ)) as [ch|]; simpl;
      try destruct (decide (ch ∈ released (mem σ)));
      destruct (wg (apply_options opts)); simpl; by rewrite ?app_nil_r.
  - unfold Update. go_unfold. simpl.
    destruct (closed (reg σ)) eqn:Hc.
    { destruct (wg (apply_options opts)); simpl; by rewrite ?app_nil_r. }
    destruct (index (reg σ) !! endpoint.NodeID e) as [ent|];
      [|destruct (wg (apply_options opts)); simpl; by rewrite ?app_nil_r].
    destruct (entry.Conn ent);
      [|destruct (wg (apply_options opts)); simpl; by rewrite ?app_nil_r].
    simpl. destruct (entry.Handle ent); simpl;
      destruct (wg (apply_options opts)); simpl; by rewrite ?app_nil_r.
  - unfold Remove, entry_RemoveFrom. go_unfold. simpl.
    destruct (closed (reg σ)) eqn:Hc.
    { destruct (wg (apply_options opts)); simpl; by rewrite ?app_nil_r. }
    destruct (index (reg σ) !! endpoint.NodeID e) as [ent|];
      [|destruct (wg (apply_options opts)); simpl; by rewrite ?app_nil_r].
    simpl. destruct (entry.Handle ent); simpl;
      destruct (entry.Conn ent); simpl;
      destruct (wg (apply_options opts)); simpl; by rewrite ?app_nil_r.
  - intros w. unfold apply_options. by rewrite foldl_app.
  - intros cfg. unfold apply_options. by rewrite foldl_app.
  - done.
Qed.

(** X15. [Force] forwards to the rediscovery trigger without looking at
    anything else: on a registry that has none, as [New] leaves it, [Force]
    panics on the nil trigger; with a trigger it returns, the trigger was
    forced once more, and the registry is as before, closed or not.
    [SetExplorer] replaces the trigger, also by nil, and touches nothing
    else. *)
Theorem Force_forwards_to_explorer σ :
  (explorer (reg σ) = None -> Force σ = Panicked NilDereference σ) /\
  (forall x, explorer (reg σ) = Some x ->
     exists σ',
       Force σ = Returned tt σ' /\ reg σ' = reg σ /\
       forced_of x σ' = S (forced_of x σ) /\
       (forall y, y <> x -> forced_of y σ' = forced_of y σ) /\
       (forall y, stopped_of y σ' = stopped_of y σ) /\
       conns (mem σ') = conns (mem σ)) /\
  (forall r, exists σ',
     SetExplorer r σ = Returned tt σ' /\
     reg σ' = set_explorer r (reg σ) /\ mem σ' = mem σ) /\
  (forall (b : B) h, Force (mkconfig (New b) h)
                     = Panicked NilDereference (mkconfig (New b) h)).
Proof.
  split_and!.
  - intros Hx. unfold Force. go_unfold. by rewrite Hx.
  - intros x Hx. unfold Force. go_unfold. rewrite Hx. simpl.
    eexists. split; [reflexivity|]. unfold forced_of, stopped_of. simpl.
    split_and!; try done.
    + by rewrite lookup_total_insert_eq.
    + intros y Hy. by rewrite lookup_total_insert_ne.
    + intros y. destruct (decide (y = x)) as [->|Hy].
      * by rewrite lookup_total_insert_eq.
      * by rewrite lookup_total_insert_ne.
  - intros r. by eexists.
  - done.
Qed.
End lifecycle.

Section routing.
Context {B : Type} `{!balancer.Balancer B}.
Variable conn_init : state.State.
Implicit Types (σ : config B) (e : endpoint.Endpoint).

Lemma store_state_twice r s h :
  conns (store_state r s (store_state r s h)) = conns (store_state r s h).
Proof.
  unfold store_state. simpl. rewrite lookup_total_insert_eq. simpl.
  by rewrite insert_insert_eq.
Qed.

(** X16. [Pessimize] keeps no memory of what it did: pessimizing again a
    node whose [Pessimize] just returned no error returns no error again,
    leaves the states of the connections and the online count as they
    are, and, with a trigger configured, forces a rediscovery once more
    whenever fewer than half of the entries are online. *)
Theorem Pessimize_again σ e σ1 :
  Pessimize e σ = Returned None σ1 ->
  exists σ2,
    Pessimize e σ1 = Returned None σ2 /\
    reg σ2 = reg σ /\
    conns (mem σ2) = conns (mem σ1) /\
    online σ2 = online σ1 /\
    forall x, explorer (reg σ) = Some x ->
      forced_of x σ2
      = (forced_of x σ1
         + (if (online σ1 * 2 <? Z.of_nat (size (index (reg σ))))%Z
            then 1 else 0))%nat.
Proof.
  intros HP.
  destruct (Pessimize_success σ e σ1 HP)
    as (ent & r & Hc & He & Hh & Hb & Hr & ->).
  assert (Hcs : conns (mem (demote r (demote r σ))) = conns (mem (demote r σ))).
  { rewrite demote_conns. unfold store_state.
    rewrite (demote_conns r σ). apply store_state_twice. }
  assert (Hon : online (demote r (demote r σ)) = online (demote r σ)).
  { unfold online. by rewrite Hcs, !demote_reg. }
  exists (demote r (demote r σ)). split_and!.
  - apply (Pessimize_ok (demote r σ) e ent r); by rewrite ?demote_reg.
  - by rewrite !demote_reg.
  - exact Hcs.
  - exact Hon.
  - intros x Hx.
    rewrite (demote_forced r (demote r σ) x) by (by rewrite demote_reg).
    by rewrite Hon, !demote_reg.
Qed.

(** X17. Without a hint that the mapping holds, [Get] on an open registry
    returns the connection the balancer selects, with no error, whatever
    the state of that connection and whether or not the mapping holds it;
    the call leaves the balancer as the selection left it and nothing else
    changed, and traces the endpoint of the connection. *)
Theorem Get_returns_selection σ ctx r b' :
  closed (reg σ) = false ->
  match ContextNodeID ctx with
  | Some nodeID => index (reg σ) !! nodeID
  | None => None
  end = None ->
  balancer.Next (conns (mem σ)) (balancer (reg σ)) = (Some r, b') ->
  exists σ',
    Get ctx σ = Returned (Some r, None) σ' /\
    reg σ' = set_balancer b' (reg σ) /\
    conns (mem σ') = conns (mem σ) /\
    reps (mem σ') = reps (mem σ) /\
    released (mem σ') = released (mem σ) /\
    traced (mem σ')
      = traced (mem σ)
        ++ [trace.ClusterGet;
            trace.ClusterGetDone (conn.ep (conns (mem σ) !!! r)) None].
Proof.
  intros Hc Hm Hn. unfold Get. go_unfold. rewrite Hc. simpl.
  rewrite Hm. simpl. rewrite Hn. simpl.
  eexists. split; [reflexivity|]. simpl. rewrite <- app_assoc.
  by split_and!.
Qed.

(** X18. The function [await] returns makes the gate: called while the
    gate is the one [await] saw, it makes a channel, installs it as the
    gate and returns it, and the gate is open; called again, it returns
    that channel and makes none.  Called when the gate is no more the one
    [await] saw, it returns the gate of the moment, nil when there is
    none, and makes no channel. *)
Theorem await_makes_gate σ :
  fresh_chan (mem σ) ∉ released (mem σ) ->
  wait (reg σ) <> Some (fresh_chan (mem σ)) ->
  exists gate σ1,
    await σ = Returned gate σ /\
    gate σ = Returned (Some (fresh_chan (mem σ))) σ1 /\
    reg σ1 = set_wait (Some (fresh_chan (mem σ))) (reg σ) /\
    fresh_chan (mem σ1) = S (fresh_chan (mem σ)) /\
    released (mem σ1) = released (mem σ) /\
    conns (mem σ1) = conns (mem σ) /\
    gate_open σ1 /\
    gate σ1 = Returned (Some (fresh_chan (mem σ))) σ1 /\
    forall σ', wait (reg σ') <> wait (reg σ) ->
               gate σ' = Returned (wait (reg σ')) σ'.
Proof.
  intros Hrel Hw. unfold await. go_unfold. unfold make_chan. simpl.
  eexists.
  exists (mkconfig (set_wait (Some (fresh_chan (mem σ))) (reg σ))
            (mkworld (conns (mem σ)) (fresh_conn (mem σ)) (reps (mem σ))
               (released (mem σ)) (S (fresh_chan (mem σ))) (traced (mem σ))
               (wg_done (mem σ)))).
  split; [reflexivity|]. simpl.
  rewrite !decide_True by done. simpl.
  rewrite decide_False by done.
  split_and!; try done.
  intros σ' Hσ'. by rewrite decide_False.
Qed.

(** X19. The gate is released by an [Insert] that stores an entry and by
    [Close], and by no other call: on an open registry with an open gate,
    such an [Insert] and [Close] clear the gate and release its channel,
    and that channel only; [Update], [Get], [Pessimize], [Remove],
    [SetExplorer], [Force] and an [Insert] of a NodeID the mapping holds
    leave the gate in place and release nothing. *)
Theorem gate_released_by_Insert_and_Close σ ch :
  closed (reg σ) = false ->
  wait (reg σ) = Some ch -> ch ∉ released (mem σ) ->
  (forall e opts, index (reg σ) !! endpoint.NodeID e = None ->
     wait (reg (after conn_init (CallInsert e opts) σ)) = None /\
     released (mem (after conn_init (CallInsert e opts) σ))
       = {[ch]} ∪ released (mem σ)) /\
  (wait (reg (after conn_init CallClose σ)) = None /\
   released (mem (after conn_init CallClose σ)) = {[ch]} ∪ released (mem σ)) /\
  (forall k,
     match k with
     | CallInsert e _ => is_Some (index (reg σ) !! endpoint.NodeID e)
     | CallClose => False
     | _ => True
     end ->
     wait (reg (after conn_init k σ)) = Some ch /\
     released (mem (after conn_init k σ)) = released (mem σ)).
Proof.
  intros Hc Hw Hrel. split_and!.
  - intros e opts He. simpl.
    unfold Insert, entry_InsertInto, close_chan. go_unfold. simpl.
    rewrite Hc, He. simpl.
    destruct (balancer.Insert _ _ _) as [h b']. simpl. rewrite Hw. simpl.
    rewrite decide_False by done.
    by destruct (wg (apply_options opts)).
  - assert (Hg : gate_open σ) by (unfold gate_open; by rewrite Hw).
    simpl. by rewrite (Close_open σ Hc Hg).
  - assert (Hg : gate_open σ) by (unfold gate_open; by rewrite Hw).
    simpl. rewrite (Close_open σ Hc Hg).
    unfold shut. simpl.
    destruct (close_list_rest (map_to_list (index (reg σ)))
                (release_world (wait (reg σ))
                   (stop_world (explorer (reg σ)) (mem σ)))) as [_ ->].
    rewrite Hw. simpl. by destruct (explorer (reg σ)).
  - intros k Hk. destruct k; simpl; try done.
    + (* Insert *)
      destruct Hk as [ent He].
      unfold Insert. go_unfold. simpl. rewrite Hc, He. simpl.
      by destruct (wg (apply_options opts)).
    + (* Update *)
      unfold Update. go_unfold. simpl. rewrite Hc.
      destruct (index (reg σ) !! endpoint.NodeID e) as [ent|];
        [|by destruct (wg (apply_options opts))].
      destruct (entry.Conn ent);
        [|by destruct (wg (apply_options opts))].
      simpl. destruct (entry.Handle ent); simpl;
        by destruct (wg (apply_options opts)).
    + (* Get *)
      unfold Get. go_unfold. rewrite Hc. simpl.
      destruct (match ContextNodeID ctx with
                | Some nodeID => index (reg σ) !! nodeID
                | None => None
                end); [done|].
      simpl. by destruct (balancer.Next _ _) as [[r|] b].
    + (* Pessimize *)
      rewrite Pessimize_reg. split; [done|].
      unfold Pessimize. go_unfold. rewrite Hc.
      destruct (index (reg σ) !! endpoint.NodeID e) as [ent|]; [|done].
      destruct (entry.Handle ent); [|done].
      destruct (balancer.Contains _ _); [|done]. simpl.
      destruct (entry.Conn ent); [|done]. simpl.
      destruct (explorer (reg σ)); [|done]. simpl.
      by destruct (_ <? _).
    + (* Remove *)
      unfold Remove, entry_RemoveFrom. go_unfold. simpl. rewrite Hc.
      destruct (index (reg σ) !! endpoint.NodeID e) as [ent|];
        [|by destruct (wg (apply_options opts))].
      simpl. destruct (entry.Handle ent); simpl;
        destruct (entry.Conn ent); simpl;
        by destruct (wg (apply_options opts)).
    + (* Force *)
      unfold Force. go_unfold. by destruct (explorer (reg σ)).
Qed.
End routing.

(** The connections stay in order along the calls of the interface. *)
Section connections.
Context {B : Type} `{!balancer.Balancer B}.
Variable conn_init : state.State.
Implicit Types (σ : config B) (e : endpoint.Endpoint).

Lemma tidy_frame σ σ' :
  index (reg σ') = index (reg σ) ->
  fresh_conn (mem σ') = fresh_conn (mem σ) ->
  (forall r, closes_of r σ' = closes_of r σ) ->
  tidy σ -> tidy σ'.
Proof.
  intros Hi Hf Hcl (Ha & Hb & Hc & Hd). unfold tidy.
  rewrite Hi, Hf. setoid_rewrite Hcl. done.
Qed.

Lemma tidy_built σ σ' :
  index (reg σ') = index (reg σ) ->
  fresh_conn (mem σ') = S (fresh_conn (mem σ)) ->
  (forall r, closes_of r σ'
             = if decide (r = fresh_conn (mem σ)) then 0%nat else closes_of r σ) ->
  tidy σ -> tidy σ'.
Proof.
  intros Hi Hf Hcl (Ha & Hb & Hc & Hd). unfold tidy.
  rewrite Hi, Hf. split_and!.
  - intros k ent r Hk Hr. destruct (Ha k ent r Hk Hr) as [Hlt H0].
    split; [lia|]. rewrite Hcl. by destruct (decide _).
  - exact Hb.
  - intros r. rewrite Hcl. destruct (decide _); [lia | apply Hc].
  - intros r Hr. rewrite Hcl. destruct (decide _); [done|]. apply Hd. lia.
Qed.

Lemma tidy_stored σ σ' k ent :
  index (reg σ) !! k = None ->
  entry.Conn ent = Some (fresh_conn (mem σ)) ->
  index (reg σ') = <[k := ent]> (index (reg σ)) ->
  fresh_conn (mem σ') = S (fresh_conn (mem σ)) ->
  (forall r, closes_of r σ'
             = if decide (r = fresh_conn (mem σ)) then 0%nat else closes_of r σ) ->
  tidy σ -> tidy σ'.
Proof.
  intros Hk He Hi Hf Hcl (Ha & Hb & Hc & Hd). unfold tidy.
  rewrite Hi, Hf. split_and!.
  - intros k' ent' r Hk' Hr. rewrite Hcl.
    destruct (decide (k' = k)) as [->|Hne].
    + rewrite lookup_insert_eq in Hk'. injection Hk' as <-.
      rewrite He in Hr. injection Hr as <-.
      split; [lia|]. by rewrite decide_True.
    + rewrite lookup_insert_ne in Hk' by done.
      destruct (Ha k' ent' r Hk' Hr) as [Hlt H0].
      split; [lia|]. by destruct (decide _).
  - intros k1 k2 ent1 ent2 r H1 H2 Hr1 Hr2.
    destruct (decide (k1 = k)) as [->|Hn1], (decide (k2 = k)) as [->|Hn2];
      [done | | |].
    + rewrite lookup_insert_eq in H1. injection H1 as <-.
      rewrite lookup_insert_ne in H2 by done.
      rewrite He in Hr1. injection Hr1 as <-.
      destruct (Ha k2 ent2 _ H2 Hr2). lia.
    + rewrite lookup_insert_eq in H2. injection H2 as <-.
      rewrite lookup_insert_ne in H1 by done.
      rewrite He in Hr2. injection Hr2 as <-.
      destruct (Ha k1 ent1 _ H1 Hr1). lia.
    + rewrite lookup_insert_ne in H1, H2 by done. by eapply Hb.
  - intros r. rewrite Hcl. destruct (decide _); [lia | apply Hc].
  - intros r Hr. rewrite Hcl. destruct (decide _); [done|]. apply Hd. lia.
Qed.

Lemma tidy_updated σ σ' k ent ent' :
  index (reg σ) !! k = Some ent ->
  entry.Conn ent' = entry.Conn ent ->
  index (reg σ') = <[k := ent']> (index (reg σ)) ->
  fresh_conn (mem σ') = fresh_conn (mem σ) ->
  (forall r, closes_of r σ' = closes_of r σ) ->
  tidy σ -> tidy σ'.
Proof.
  intros Hk He Hi Hf Hcl (Ha & Hb & Hc & Hd). unfold tidy.
  rewrite Hi, Hf. setoid_rewrite Hcl.
  assert (Hold : forall k1 ent1 r,
            <[k := ent']> (index (reg σ)) !! k1 = Some ent1 ->
            entry.Conn ent1 = Some r ->
            exists ent0, index (reg σ) !! k1 = Some ent0 /\ entry.Conn ent0 = Some r).
  { intros k1 ent1 r H1 Hr. destruct (decide (k1 = k)) as [->|Hne].
    - rewrite lookup_insert_eq in H1. injection H1 as <-.
      exists ent. by rewrite <- He.
    - rewrite lookup_insert_ne in H1 by done. by exists ent1. }
  split_and!; [| |done|done].
  - intros k1 ent1 r H1 Hr.
    destruct (Hold _ _ _ H1 Hr) as (ent0 & H0 & Hr0). by eapply Ha.
  - intros k1 k2 ent1 ent2 r H1 H2 Hr1 Hr2.
    destruct (Hold _ _ _ H1 Hr1) as (e1 & ? & ?).
    destruct (Hold _ _ _ H2 Hr2) as (e2 & ? & ?). by eapply Hb.
Qed.

Lemma tidy_removed σ σ' k ent :
  index (reg σ) !! k = Some ent ->
  index (reg σ') = delete k (index (reg σ)) ->
  fresh_conn (mem σ') = fresh_conn (mem σ) ->
  (forall r, closes_of r σ'
             = (closes_of r σ
                + (if decide (entry.Conn ent = Some r) then 1 else 0))%nat) ->
  tidy σ -> tidy σ'.
Proof.
  intros Hk Hi Hf Hcl (Ha & Hb & Hc & Hd). unfold tidy.
  rewrite Hi, Hf. split_and!.
  - intros k' ent' r Hk' Hr.
    apply lookup_delete_Some in Hk' as [Hne Hk'].
    destruct (Ha k' ent' r Hk' Hr) as [Hlt H0]. split; [done|].
    rewrite Hcl, H0. destruct (decide _) as [Hr'|]; [|done].
    destruct Hne. by eapply Hb.
  - intros k1 k2 ent1 ent2 r H1 H2 Hr1 Hr2.
    apply lookup_delete_Some in H1 as [_ H1].
    apply lookup_delete_Some in H2 as [_ H2]. by eapply Hb.
  - intros r. rewrite Hcl. destruct (decide _) as [Hr|].
    + destruct (Ha k ent r Hk Hr) as [_ ->]. lia.
    + specialize (Hc r). lia.
  - intros r Hr. rewrite Hcl. destruct (decide _) as [Hr'|].
    + destruct (Ha k ent r Hk Hr'). lia.
    + rewrite Hd by done. lia.
Qed.

Lemma holders_none (m : gmap Z entry.Entry) r :
  (forall k ent, m !! k = Some ent -> entry.Conn ent <> Some r) ->
  holders r m = 0%nat.
Proof.
  intros Hno. unfold holders. rewrite filter_none; [done|].
  intros [k ent] Hin%elem_of_map_to_list. simpl. by eapply Hno.
Qed.

Lemma tidy_shut σ σ' :
  index (reg σ') = ∅ ->
  fresh_conn (mem σ') = fresh_conn (mem σ) ->
  (forall r, closes_of r σ'
             = (closes_of r σ + holders r (index (reg σ)))%nat) ->
  tidy σ -> tidy σ'.
Proof.
  intros Hi Hf Hcl (Ha & Hb & Hc & Hd). unfold tidy.
  rewrite Hi, Hf. split_and!.
  - intros k ent r Hk. by rewrite lookup_empty in Hk.
  - intros k1 k2 ent1 ent2 r Hk. by rewrite lookup_empty in Hk.
  - intros r. rewrite Hcl.
    destruct (decide (exists k ent, index (reg σ) !! k = Some ent
                                    /\ entry.Conn ent = Some r))
      as [(k & ent & Hk & Hr)|Hno].
    + rewrite (holders_one _ k ent r Hk Hr).
      * destruct (Ha k ent r Hk Hr) as [_ ->]. lia.
      * intros k' ent' Hk' Hr'. by eapply Hb.
    + rewrite holders_none; [specialize (Hc r); lia|].
      intros k ent Hk Hr. apply Hno. by exists k, ent.
  - intros r Hr. rewrite Hcl, Hd by done.
    rewrite holders_none; [done|].
    intros k ent Hk Hr'. destruct (Ha k ent r Hk Hr'). lia.
Qed.

Lemma closes_insert_same (m : gmap nat conn.object) r r' ep s :
  conn.closes (<[r := conn.mk ep s (conn.closes (m !!! r))]> m !!! r')
  = conn.closes (m !!! r').
Proof.
  destruct (decide (r' = r)) as [->|Hne].
  - by rewrite lookup_total_insert_eq.
  - by rewrite lookup_total_insert_ne.
Qed.

Lemma closes_insert_new (m : gmap nat conn.object) r r' o :
  conn.closes o = 0%nat ->
  conn.closes (<[r := o]> m !!! r')
  = if decide (r' = r) then 0%nat else conn.closes (m !!! r').
Proof.
  intros Ho. destruct (decide (r' = r)) as [->|Hne].
  - by rewrite lookup_total_insert_eq.
  - by rewrite lookup_total_insert_ne.
Qed.

Lemma closes_insert_closed (m : gmap nat conn.object) r r' ep s :
  conn.closes (<[r := conn.mk ep s (S (conn.closes (m !!! r)))]> m !!! r')
  = (conn.closes (m !!! r') + (if decide (Some r = Some r') then 1 else 0))%nat.
Proof.
  destruct (decide (r' = r)) as [->|Hne].
  - rewrite lookup_total_insert_eq, decide_True by done. simpl. lia.
  - rewrite lookup_total_insert_ne by done.
    rewrite decide_False by congruence. lia.
Qed.

Lemma tidy_emptied σ σ' :
  index (reg σ') = ∅ ->
  fresh_conn (mem σ') = fresh_conn (mem σ) ->
  (forall r, closes_of r σ' = closes_of r σ) ->
  tidy σ -> tidy σ'.
Proof.
  intros Hi Hf Hcl (Ha & Hb & Hc & Hd). unfold tidy.
  rewrite Hi, Hf. setoid_rewrite Hcl. split_and!; [| |done|done].
  - intros k ent r Hk. by rewrite lookup_empty in Hk.
  - intros k1 k2 ent1 ent2 r Hk. by rewrite lookup_empty in Hk.
Qed.

Lemma close_list_fresh l : forall h,
  fresh_conn (close_list l h) = fresh_conn h.
Proof.
  induction l as [|[k ent] l IH]; intros h; simpl; [done|].
  rewrite IH. by destruct (entry.Conn ent).
Qed.

Lemma tidy_after k σ : tidy σ -> tidy (after conn_init k σ).
Proof.
  intros Ht. destruct k; simpl.
  - (* Insert *)
    unfold Insert, entry_InsertInto, close_chan. go_unfold. simpl.
    destruct (closed (reg σ)) eqn:Hc.
    { destruct (wg (apply_options opts)); simpl;
        (eapply tidy_built; [| | |exact Ht]; [done|done|]);
        intros r0; unfold closes_of; simpl; by apply closes_insert_new. }
    destruct (index (reg σ) !! endpoint.NodeID e) as [ent|] eqn:He.
    { destruct (wg (apply_options opts)); simpl;
        (eapply tidy_built; [| | |exact Ht]; [done|done|]);
        intros r0; unfold closes_of; simpl; by apply closes_insert_new. }
    simpl. destruct (balancer.Insert _ _ _) as [h b']. simpl.
    destruct (wait (reg σ)) as [ch|]; simpl;
      try destruct (decide (ch ∈ released (mem σ)));
      destruct (wg (apply_options opts)); simpl;
      (eapply (tidy_stored σ _ (endpoint.NodeID e));
       [exact He| |reflexivity|reflexivity| |exact Ht]; [reflexivity|]);
      intros r0; unfold closes_of; simpl; by apply closes_insert_new.
  - (* Update *)
    unfold Update. go_unfold. simpl.
    destruct (closed (reg σ)) eqn:Hc.
    { destruct (wg (apply_options opts)); simpl;
        by (eapply tidy_frame; [| | |exact Ht]). }
    destruct (index (reg σ) !! endpoint.NodeID e) as [ent|] eqn:He;
      [|destruct (wg (apply_options opts)); simpl;
        by (eapply tidy_frame; [| | |exact Ht])].
    destruct (entry.Conn ent) as [r|] eqn:Hr;
      [|destruct (wg (apply_options opts)); simpl;
        by (eapply tidy_frame; [| | |exact Ht])].
    simpl. destruct (entry.Handle ent); simpl;
      destruct (wg (apply_options opts)); simpl;
      (eapply (tidy_updated σ _ (endpoint.NodeID e) ent);
       [exact He| |reflexivity|reflexivity| |exact Ht]; [simpl; by rewrite Hr|]);
      intros r0; unfold closes_of; simpl;
      by rewrite closes_insert_same.
  - (* Get *)
    unfold Get. go_unfold. destruct (closed (reg σ)) eqn:Hc; [done|]. simpl.
    destruct (match ContextNodeID ctx with
              | Some nodeID => index (reg σ) !! nodeID
              | None => None
              end); [by (eapply tidy_frame; [| | |exact Ht])|].
    simpl. destruct (balancer.Next _ _) as [[r|] b]; simpl;
      by (eapply tidy_frame; [| | |exact Ht]).
  - (* Pessimize *)
    unfold Pessimize. go_unfold. destruct (closed (reg σ)); [done|].
    destruct (index (reg σ) !! endpoint.NodeID e) as [ent|]; [|done].
    destruct (entry.Handle ent); [|done].
    destruct (balancer.Contains _ _); [|done]. simpl.
    destruct (entry.Conn ent); [|done]. simpl.
    destruct (explorer (reg σ)); simpl; [destruct (_ <? _); simpl|];
      (eapply tidy_frame; [| | |exact Ht]; [done|done|]);
      intros r0; unfold closes_of; simpl; apply closes_insert_same.
  - (* Close *)
    destruct (closed (reg σ)) eqn:Hc; [by rewrite Close_closed|].
    assert (Hshut : gate_open σ -> tidy (final (Close σ))).
    { intros Hg. rewrite Close_open by done. simpl.
      eapply tidy_shut; [| | |exact Ht].
      - done.
      - unfold shut. simpl. rewrite close_list_fresh.
        by destruct (wait (reg σ)), (explorer (reg σ)).
      - intros r0. apply shut_closes. }
    destruct (wait (reg σ)) as [ch|] eqn:Hw;
      [|apply Hshut; unfold gate_open; by rewrite Hw].
    destruct (decide (ch ∈ released (mem σ))) as [Hin|Hout];
      [|apply Hshut; unfold gate_open; by rewrite Hw].
    clear Hshut. unfold Close, close_chan. unfold bind at 1. unfold gets at 1.
    rewrite Hc. destruct σ as [c h]; simpl in *. rewrite Hw.
    destruct (explorer c);
      unfold bind, ret, modify, repeater_Stop, with_reg, with_mem; simpl;
      rewrite decide_True by done; simpl;
      by (eapply tidy_emptied; [| | |exact Ht]).
  - (* Remove *)
    unfold Remove, entry_RemoveFrom. go_unfold. simpl.
    destruct (closed (reg σ)) eqn:Hc.
    { destruct (wg (apply_options opts)); simpl;
        by (eapply tidy_frame; [| | |exact Ht]). }
    destruct (index (reg σ) !! endpoint.NodeID e) as [ent|] eqn:He;
      [|destruct (wg (apply_options opts)); simpl;
        by (eapply tidy_frame; [| | |exact Ht])].
    simpl. destruct (entry.Handle ent); simpl;
      destruct (entry.Conn ent) as [r|] eqn:Hr; simpl;
      destruct (wg (apply_options opts)); simpl;
      (eapply (tidy_removed σ _ (endpoint.NodeID e) ent); [exact He| | | |exact Ht];
       [reflexivity|reflexivity|]);
      intros r0; unfold closes_of; simpl; rewrite Hr.
    all: try apply closes_insert_closed.
    all: rewrite decide_False by done; lia.
  - (* SetExplorer *)
    by (eapply tidy_frame; [| | |exact Ht]).
  - (* Force *)
    unfold Force. go_unfold. destruct (explorer (reg σ)); simpl;
      by (eapply tidy_frame; [| | |exact Ht]).
Qed.

Lemma tidy_new (b : B) (h : world) :
  (forall r, conn.closes (conns h !!! r) = 0%nat) ->
  tidy (mkconfig (New b) h).
Proof.
  intros Hh. unfold tidy, closes_of. simpl. split_and!.
  - intros k ent r Hk. by rewrite lookup_empty in Hk.
  - intros k1 k2 ent1 ent2 r Hk. by rewrite lookup_empty in Hk.
  - intros r. rewrite Hh. lia.
  - intros r _. apply Hh.
Qed.

(** X20. Along every sequence of calls of the interface on a new registry,
    over a store in which no connection was closed yet, the connections
    stay in order: no connection is ever closed twice, whether by [Remove]
    or by [Close]; a connection that an entry of the mapping holds was
    built by [conn.New] and was not closed; and no two entries hold the
    same connection. *)
Theorem connections_stay_in_order ks (b : B) (h : world) :
  (forall r, conn.closes (conns h !!! r) = 0%nat) ->
  let σ := after_all conn_init ks (mkconfig (New b) h) in
  tidy σ /\ forall r, (closes_of r σ <= 1)%nat.
Proof.
  intros Hh σ.
  assert (Ht : tidy σ).
  { subst σ. generalize (tidy_new b h Hh).
    generalize (mkconfig (New b) h). clear Hh.
    induction ks as [|k ks IH]; intros σ Ht; [done|].
    apply IH. by apply tidy_after. }
  split; [exact Ht|]. apply Ht.
Qed.

Lemma after_closed_reg k σ :
  closed (reg σ) = true ->
  index (reg (after conn_init k σ)) = index (reg σ) /\
  wait (reg (after conn_init k σ)) = wait (reg σ) /\
  ready (reg (after conn_init k σ)) = ready (reg σ).
Proof.
  intros Hc. destruct k; simpl.
  - destruct (Insert_closed conn_init σ e opts Hc) as (σ' & -> & Hr).
    simpl. by rewrite Hr.
  - destruct (Update_closed σ e opts Hc) as (σ' & -> & Hr).
    simpl. by rewrite Hr.
  - by rewrite Get_closed.
  - by rewrite Pessimize_reg.
  - by rewrite Close_closed.
  - destruct (Remove_closed σ e opts Hc) as (σ' & -> & Hr).
    simpl. by rewrite Hr.
  - done.
  - unfold Force. go_unfold. by destruct (explorer (reg σ)).
Qed.

Lemma Close_empties σ :
  closed (reg σ) = false ->
  index (reg (final (Close σ))) = ∅ /\ wait (reg (final (Close σ))) = None.
Proof.
  intros Hc.
  split; unfold Close, close_chan; unfold bind at 1; unfold gets at 1;
    rewrite Hc; destruct σ as [c h]; simpl in *;
    destruct (explorer c), (wait c) as [ch|];
    unfold bind, ret, modify, repeater_Stop, with_reg, with_mem; simpl;
    try destruct (decide (ch ∈ released _)); simpl;
    rewrite ?for_each_close; simpl; done.
Qed.

(** X21. In every configuration the calls of the interface reach from a
    new registry, the ready counter is the number of entries as long as
    the registry is open, and once it is closed the mapping is empty and
    there is no gate. *)
Theorem ready_counts_the_entries ks (b : B) (h : world) :
  let σ := after_all conn_init ks (mkconfig (New b) h) in
  (closed (reg σ) = false -> ready (reg σ) = Z.of_nat (size (index (reg σ)))) /\
  (closed (reg σ) = true -> index (reg σ) = ∅ /\ wait (reg σ) = None).
Proof.
  intros σ. split; [apply (ready_counts_reached conn_init ks b h)|].
  subst σ.
  assert (Hnew : closed (reg (mkconfig (New b) h)) = true ->
                 index (reg (mkconfig (New b) h)) = ∅ /\
                 wait (reg (mkconfig (New b) h)) = None) by done.
  revert Hnew. generalize (mkconfig (New b) h).
  induction ks as [|k ks IH]; intros σ Hσ; [done|].
  apply IH. intros Hc'.
  destruct (closed (reg σ)) eqn:Hc.
  - destruct (after_closed_reg k σ Hc) as (-> & -> & _). by apply Hσ.
  - destruct k; try (rewrite after_keeps_open in Hc' by done; congruence).
    by apply Close_empties.
Qed.
End connections.

Section leak.
Context {B : Type} `{!balancer.Balancer B}.
Variable conn_init : state.State.
Implicit Types (σ : config B) (e : endpoint.Endpoint).

(** X22. [Insert] builds the connection before it looks at the registry:
    on a closed registry, and on one that holds the NodeID already, the
    call has built a connection that no entry holds and that was not
    closed, the mapping, the ready counter and the balancer being as
    before. *)
Theorem Insert_builds_before_checking σ e opts :
  closed (reg σ) = true \/ is_Some (index (reg σ) !! endpoint.NodeID e) ->
  (forall k ent, index (reg σ) !! k = Some ent ->
                 entry.Conn ent <> Some (fresh_conn (mem σ))) ->
  let σ' := after conn_init (CallInsert e opts) σ in
  reg σ' = reg σ /\
  fresh_conn (mem σ') = S (fresh_conn (mem σ)) /\
  conns (mem σ') !!! fresh_conn (mem σ) = conn.mk e conn_init 0 /\
  holders (fresh_conn (mem σ)) (index (reg σ')) = 0%nat /\
  closes_of (fresh_conn (mem σ)) σ' = 0%nat.
Proof.
  intros Hcase Hnew σ'. subst σ'. simpl.
  assert (Hh : holders (fresh_conn (mem σ)) (index (reg σ)) = 0%nat).
  { unfold holders. rewrite filter_none; [done|].
    intros [k ent] Hin%elem_of_map_to_list. simpl. by eapply Hnew. }
  unfold Insert. go_unfold. unfold closes_of. simpl.
  destruct (closed (reg σ)) eqn:Hc.
  { destruct (wg (apply_options opts)); simpl;
      rewrite lookup_total_insert_eq; by split_and!. }
  destruct Hcase as [|[ent He]]; [done|]. rewrite He. simpl.
  destruct (wg (apply_options opts)); simpl;
    rewrite lookup_total_insert_eq; by split_and!.
Qed.
End leak.


(** * The diff as a driver of callbacks *)

Section callbacks.
Context {St : Type}.
Variable cmp : nat -> nat -> option Z.
Variables eq add del : nat -> nat -> St -> St.
Variables a b : nat.
Variable s0 : St.

Let run (s : St) (c : diff_call) : St := run_call eq add del c s.
Let rec_eq (i j : nat) (l : list diff_call) := l ++ [CallEq i j].
Let rec_add (i j : nat) (l : list diff_call) := l ++ [CallAdd i j].
Let rec_del (i j : nat) (l : list diff_call) := l ++ [CallDel i j].

Lemma diffslice_merge_calls fuel : forall i j acc,
  diffslice_merge cmp eq add del a b fuel i j (foldl run s0 acc)
  = match diffslice_merge cmp rec_eq rec_add rec_del a b fuel i j acc with
    | Some (i', j', l) => Some (i', j', foldl run s0 l)
    | None => None
    end.
Proof.
  induction fuel as [|fuel IH]; intros i j acc; simpl.
  - by destruct ((i <? a)%nat && (j <? b)%nat).
  - destruct ((i <? a)%nat && (j <? b)%nat); [|done].
    destruct (cmp i j) as [c|]; [|done].
    destruct (c <? 0); [|destruct (0 <? c)].
    + rewrite <- IH. unfold rec_del. by rewrite foldl_app.
    + rewrite <- IH. unfold rec_add. by rewrite foldl_app.
    + rewrite <- IH. unfold rec_eq. by rewrite foldl_app.
Qed.

Lemma diffslice_del_tail_calls i j acc :
  diffslice_del_tail del a i j (foldl run s0 acc)
  = foldl run s0 (diffslice_del_tail rec_del a i j acc).
Proof.
  unfold diffslice_del_tail. generalize (seq i (a - i)). intros l.
  revert acc. induction l as [|k l IH]; intros acc; simpl; [done|].
  rewrite <- IH. unfold rec_del. by rewrite foldl_app.
Qed.

Lemma diffslice_add_tail_calls i j acc :
  diffslice_add_tail add b i j (foldl run s0 acc)
  = foldl run s0 (diffslice_add_tail rec_add b i j acc).
Proof.
  unfold diffslice_add_tail. generalize (seq j (b - j)). intros l.
  revert acc. induction l as [|k l IH]; intros acc; simpl; [done|].
  rewrite <- IH. unfold rec_add. by rewrite foldl_app.
Qed.

Lemma diffslice_calls :
  diffslice cmp eq add del a b s0
  = match diffslice cmp rec_eq rec_add rec_del a b [] with
    | Some calls => Some (foldl run s0 calls)
    | None => None
    end.
Proof.
  unfold diffslice.
  change s0 with (foldl run s0 []) at 1. rewrite diffslice_merge_calls.
  destruct (diffslice_merge cmp rec_eq rec_add rec_del a b (a + b) 0 0 [])
    as [[[i j] l]|]; [|done].
  by rewrite diffslice_del_tail_calls, diffslice_add_tail_calls.
Qed.
End callbacks.

Lemma DiffEndpoints_calls_fold {St : Type} (w : int_size)
    (curr next : list endpoint.Endpoint)
    (eq add del : nat -> nat -> St -> St) (s : St) :
  exists calls,
    DiffEndpoints_calls w curr next = Some calls /\
    DiffEndpoints w curr next eq add del s
    = Some (foldl (fun s c => run_call eq add del c s) s calls).
Proof.
  destruct (DiffEndpoints_calls_merge w curr next) as (calls & Hrun & _).
  exists calls. split; [exact Hrun|].
  unfold DiffEndpoints_calls, DiffEndpoints in *.
  rewrite diffslice_calls. by rewrite Hrun.
Qed.

Lemma merge_spec_right_nil c i j :
  merge_spec c i [] j = Removed <$> seq i (length c).
Proof. destruct c; [done | apply merge_spec_cons_nil]. Qed.

Lemma merge_spec_nil_cons i y n j :
  merge_spec [] i (y :: n) j = Added j :: merge_spec [] i n (S j).
Proof. by rewrite !merge_spec_nil. Qed.

Lemma merge_spec_cons_nil_step x c i j :
  merge_spec (x :: c) i [] j = Removed i :: merge_spec c (S i) [] j.
Proof. by rewrite merge_spec_cons_nil, merge_spec_right_nil. Qed.

Section reconciling.
Context {B : Type} `{!balancer.Balancer B}.
Variable conn_init : state.State.
Variable w : int_size.
Variables curr next : list endpoint.Endpoint.
Implicit Types (σ : config B) (P c n : list endpoint.Endpoint).

Lemma reconcile_reports σ :
  exists calls,
    DiffEndpoints_calls w curr next = Some calls /\
    reconcile conn_init w curr next σ
    = Some (foldl (fun o r => apply_report conn_init curr next r o)
              (Returned tt σ) (report_of <$> calls)).
Proof.
  unfold reconcile.
  destruct (DiffEndpoints_calls_fold w curr next
              (fun _ j o => and_then o (at_index next j (fun e => Update e [])))
              (fun _ j o => and_then o (at_index next j (fun e => Insert conn_init e [])))
              (fun i _ o => and_then o (at_index curr i (fun e => Remove e [])))
              (Returned tt σ)) as (calls & Hrun & ->).
  exists calls. split; [exact Hrun|]. f_equal.
  generalize (Returned tt σ : outcome B unit). clear Hrun.
  induction calls as [|c calls IH]; intros o; [done|].
  rewrite fmap_cons. cbn [foldl]. rewrite IH. by destruct c.
Qed.

(** The registry when [P] was reconciled and [c] is still to be: open,
    the gate open, every entry with a connection, the NodeIDs tracked those
    of [P] and [c], the entries of [P] with the values of [P]. *)
Let good σ P c : Prop :=
  closed (reg σ) = false /\ gate_open σ /\ connected σ /\
  (forall k, is_Some (index (reg σ) !! k) <-> k ∈ endpoint.ID <$> (P ++ c)) /\
  (forall y, y ∈ P ->
     exists ent, index (reg σ) !! endpoint.ID y = Some ent /\
                 entry.Info ent
                 = info.mk (endpoint.LoadFactor y) (endpoint.Local y)).

Lemma step_insert σ P c y :
  good σ P c -> endpoint.ID y ∉ endpoint.ID <$> (P ++ c) ->
  exists σ1,
    Insert conn_init y [] σ = Returned tt σ1 /\
    good σ1 (P ++ [y]) c /\ ready (reg σ1) = ready (reg σ) + 1.
Proof.
  intros (Hc & Hg & Hcn & Hk & Hi) Hy.
  assert (Hnone : index (reg σ) !! endpoint.NodeID y = None).
  { apply eq_None_not_Some. intros Hs. by apply Hy, Hk. }
  destruct (Insert_fresh conn_init σ y [] Hc Hg Hnone) as (σ1 & HI & Hreg & _).
  exists σ1. split; [exact HI|].
  assert (Hafter : after conn_init (CallInsert y []) σ = σ1)
    by (simpl; by rewrite HI).
  split; [|by rewrite Hreg].
  split_and!.
  - by rewrite Hreg.
  - rewrite <- Hafter. by apply gate_open_after.
  - rewrite <- Hafter. by apply connected_after.
  - intros k. rewrite Hreg. unfold inserted. simpl.
    rewrite lookup_insert_is_Some, Hk, !fmap_app, !elem_of_app.
    rewrite fmap_cons, elem_of_cons, elem_of_nil.
    unfold endpoint.NodeID.
    destruct (decide (endpoint.ID y = k)) as [->|Hne]; [tauto|].
    split; [intros [?|[_ ?]]; [done|tauto] | intros [[?|[?|[]]]|?]; [tauto|done|tauto]].
  - intros y' [Hy'|Hy']%elem_of_app; rewrite Hreg; unfold inserted; simpl.
    + rewrite lookup_insert_ne.
      * by apply Hi.
      * unfold endpoint.NodeID. intros Heq. apply Hy. rewrite Heq, fmap_app.
        apply elem_of_app. left. by apply list_elem_of_fmap_2.
    + apply list_elem_of_singleton in Hy' as ->.
      rewrite lookup_insert_eq. by eexists.
Qed.

Lemma step_update σ P x c y :
  good σ P (x :: c) -> endpoint.ID x = endpoint.ID y ->
  endpoint.ID y ∉ endpoint.ID <$> P ->
  exists σ1,
    Update y [] σ = Returned tt σ1 /\
    good σ1 (P ++ [y]) c /\ ready (reg σ1) = ready (reg σ).
Proof.
  intros (Hc & Hg & Hcn & Hk & Hi) Hxy Hy.
  assert (Hs : is_Some (index (reg σ) !! endpoint.NodeID y)).
  { apply Hk. unfold endpoint.NodeID. rewrite <- Hxy, fmap_app.
    apply elem_of_app. right. rewrite fmap_cons. left. }
  destruct Hs as [ent He].
  destruct (entry.Conn ent) as [r|] eqn:Hr; [|by destruct (Hcn _ _ He)].
  destruct (Update_present σ y [] ent r Hc He Hr)
    as (σ1 & HU & Hidx & _ & Hrd & _ & Hc1 & _).
  exists σ1. split; [exact HU|].
  assert (Hafter : after conn_init (CallUpdate y []) σ = σ1)
    by (simpl; by rewrite HU).
  split; [|exact Hrd].
  split_and!.
  - exact Hc1.
  - rewrite <- Hafter. by apply gate_open_after.
  - rewrite <- Hafter. by apply connected_after.
  - intros k. rewrite Hidx.
    rewrite lookup_insert_is_Some, Hk, !fmap_app, !elem_of_app.
    rewrite !fmap_cons, !elem_of_cons, elem_of_nil.
    unfold endpoint.NodeID. rewrite Hxy.
    destruct (decide (endpoint.ID y = k)) as [->|Hne]; [tauto|].
    split; [intros [?|[_ [?|[?|?]]]]; try tauto; congruence
           | intros [[?|[?|[]]]|?]; try tauto; congruence].
  - intros y' [Hy'|Hy']%elem_of_app; rewrite Hidx.
    + rewrite lookup_insert_ne.
      * by apply Hi.
      * unfold endpoint.NodeID. intros Heq. apply Hy. rewrite Heq.
        by apply list_elem_of_fmap_2.
    + apply list_elem_of_singleton in Hy' as ->.
      rewrite lookup_insert_eq. by eexists.
Qed.

Lemma step_remove σ P x c :
  good σ P (x :: c) -> endpoint.ID x ∉ endpoint.ID <$> (P ++ c) ->
  exists σ1,
    Remove x [] σ = Returned tt σ1 /\
    good σ1 P c /\ ready (reg σ1) = ready (reg σ) - 1.
Proof.
  intros (Hc & Hg & Hcn & Hk & Hi) Hx.
  assert (Hs : is_Some (index (reg σ) !! endpoint.NodeID x)).
  { apply Hk. unfold endpoint.NodeID. rewrite fmap_app.
    apply elem_of_app. right. rewrite fmap_cons. left. }
  destruct Hs as [ent He].
  destruct (entry.Conn ent) as [r|] eqn:Hr; [|by destruct (Hcn _ _ He)].
  destruct (Remove_present_store σ x [] ent r Hc He Hr) as (σ1 & HR & Hreg & _).
  exists σ1. split; [exact HR|].
  assert (Hafter : after conn_init (CallRemove x []) σ = σ1)
    by (simpl; by rewrite HR).
  split; [|by rewrite Hreg].
  split_and!.
  - by rewrite Hreg.
  - rewrite <- Hafter. by apply gate_open_after.
  - rewrite <- Hafter. by apply connected_after.
  - intros k. rewrite Hreg. simpl.
    rewrite lookup_delete_is_Some, Hk. unfold endpoint.NodeID.
    rewrite !fmap_app, !elem_of_app, fmap_cons, elem_of_cons.
    rewrite fmap_app, elem_of_app in Hx.
    split; [intros [? [?|[?|?]]]; try tauto; congruence
           | intros Hin; split; [intros <-; tauto | tauto]].
  - intros y' Hy'. rewrite Hreg. simpl. rewrite lookup_delete_ne.
    + by apply Hi.
    + unfold endpoint.NodeID. intros Heq. apply Hx. rewrite Heq, fmap_app.
      apply elem_of_app. left. by apply list_elem_of_fmap_2.
Qed.

Let runs σ (rs : list diff_report) : outcome B unit :=
  foldl (fun o r => apply_report conn_init curr next r o) (Returned tt σ) rs.

Lemma runs_added σ j y rs σ1 :
  next !! j = Some y -> Insert conn_init y [] σ = Returned tt σ1 ->
  runs σ (Added j :: rs) = runs σ1 rs.
Proof.
  intros Hj HI. unfold runs. cbn [foldl apply_report and_then].
  unfold at_index. by rewrite Hj, HI.
Qed.

Lemma runs_matched σ i j y rs σ1 :
  next !! j = Some y -> Update y [] σ = Returned tt σ1 ->
  runs σ (Matched i j :: rs) = runs σ1 rs.
Proof.
  intros Hj HU. unfold runs. cbn [foldl apply_report and_then].
  unfold at_index. by rewrite Hj, HU.
Qed.

Lemma runs_removed σ i x rs σ1 :
  curr !! i = Some x -> Remove x [] σ = Returned tt σ1 ->
  runs σ (Removed i :: rs) = runs σ1 rs.
Proof.
  intros Hi HR. unfold runs. cbn [foldl apply_report and_then].
  unfold at_index. by rewrite Hi, HR.
Qed.

Lemma reconcile_merge c : forall i n j P σ,
  ascending c -> ascending n ->
  (forall p y, p ∈ P -> y ∈ n -> endpoint.ID p < endpoint.ID y) ->
  (forall p x, p ∈ P -> x ∈ c -> endpoint.ID p < endpoint.ID x) ->
  (forall q x, c !! q = Some x -> curr !! (i + q)%nat = Some x) ->
  (forall q y, n !! q = Some y -> next !! (j + q)%nat = Some y) ->
  good σ P c ->
  exists σ',
    runs σ (merge_spec c i n j) = Returned tt σ' /\
    good σ' (P ++ n) [] /\
    ready (reg σ')
    = ready (reg σ) + Z.of_nat (length n) - Z.of_nat (length c).
Proof.
  assert (Hlt : forall (l : list endpoint.Endpoint) (z : Z),
            (forall p, p ∈ l -> endpoint.ID p < z) -> z ∉ endpoint.ID <$> l).
  { intros l z Hl (p & -> & Hp)%list_elem_of_fmap. specialize (Hl p Hp). lia. }
  assert (Hgt : forall (l : list endpoint.Endpoint) (z : Z),
            (forall p, p ∈ l -> z < endpoint.ID p) -> z ∉ endpoint.ID <$> l).
  { intros l z Hl (p & -> & Hp)%list_elem_of_fmap. specialize (Hl p Hp). lia. }
  induction c as [|x c IHc]; intros i n j P σ Hac Han HPn HPc Hcl Hnl Hgood.
  { (* nothing left of the current list: the rest of the next one is inserted *)
    clear HPc Hcl Hac.
    induction n as [|y n IHn] in j, P, σ, Han, HPn, Hnl, Hgood |- *.
    { exists σ. rewrite merge_spec_nil. split; [done|].
      rewrite app_nil_r. split; [exact Hgood | simpl; lia]. }
    destruct (ascending_cons _ _ Han) as [Han' Hy].
    rewrite merge_spec_nil_cons.
    destruct (step_insert σ P [] y Hgood) as (σ1 & HI & Hgood1 & Hr1).
    { rewrite app_nil_r. apply Hlt. intros p Hp. apply HPn; [done | left]. }
    rewrite (runs_added σ j y _ σ1); [|by rewrite <- (Hnl 0%nat y), Nat.add_0_r | done].
    destruct (IHn (S j) (P ++ [y]) σ1 Han') as (σ' & Hrun & Hgood' & Hr').
    - intros p y' [Hp|Hp]%elem_of_app Hy'.
      + apply HPn; [done | by right].
      + apply list_elem_of_singleton in Hp as ->. by apply Hy.
    - intros q y' Hq. rewrite Nat.add_succ_comm. by apply Hnl.
    - exact Hgood1.
    - exists σ'. split; [exact Hrun|]. rewrite <- app_assoc in Hgood'.
      split; [exact Hgood'|]. rewrite Hr', Hr1. simpl length. lia. }
  induction n as [|y n IHn] in j, P, σ, Han, HPn, Hnl, Hgood, HPc |- *.
  { (* nothing left of the next list: the rest of the current one is removed *)
    destruct (ascending_cons _ _ Hac) as [Hac' Hx].
    rewrite merge_spec_cons_nil_step.
    destruct (step_remove σ P x c Hgood) as (σ1 & HR & Hgood1 & Hr1).
    { rewrite fmap_app. intros [Hin|Hin]%elem_of_app.
      - revert Hin. apply Hlt. intros p Hp. apply HPc; [done | left].
      - revert Hin. apply Hgt. exact Hx. }
    rewrite (runs_removed σ i x _ σ1); [|by rewrite <- (Hcl 0%nat x), Nat.add_0_r | done].
    destruct (IHc (S i) [] j P σ1 Hac' Han) as (σ' & Hrun & Hgood' & Hr').
    - intros p y _ Hy. by apply elem_of_nil in Hy.
    - intros p x' Hp Hx'. apply HPc; [done | by right].
    - intros q x' Hq. rewrite Nat.add_succ_comm. by apply Hcl.
    - intros q y Hq. by rewrite lookup_nil in Hq.
    - exact Hgood1.
    - exists σ'. split; [exact Hrun|]. split; [exact Hgood'|].
      rewrite Hr', Hr1. simpl length. lia. }
  destruct (ascending_cons _ _ Hac) as [Hac' Hx].
  destruct (ascending_cons _ _ Han) as [Han' Hy].
  assert (Hi0 : curr !! i = Some x) by (by rewrite <- (Hcl 0%nat x), Nat.add_0_r).
  assert (Hj0 : next !! j = Some y) by (by rewrite <- (Hnl 0%nat y), Nat.add_0_r).
  rewrite merge_spec_cons_cons.
  destruct (endpoint.ID x =? endpoint.ID y) eqn:Heq.
  { (* the same node on both sides: updated *)
    apply Z.eqb_eq in Heq.
    destruct (step_update σ P x c y Hgood Heq) as (σ1 & HU & Hgood1 & Hr1).
    { apply Hlt. intros p Hp. apply HPn; [done | left]. }
    rewrite (runs_matched σ i j y _ σ1 Hj0 HU).
    destruct (IHc (S i) n (S j) (P ++ [y]) σ1 Hac' Han')
      as (σ' & Hrun & Hgood' & Hr').
    - intros p y' [Hp|Hp]%elem_of_app Hy'.
      + apply HPn; [done | by right].
      + apply list_elem_of_singleton in Hp as ->. by apply Hy.
    - intros p x' [Hp|Hp]%elem_of_app Hx'.
      + apply HPc; [done | by right].
      + apply list_elem_of_singleton in Hp as ->. rewrite <- Heq. by apply Hx.
    - intros q x' Hq. rewrite Nat.add_succ_comm. by apply Hcl.
    - intros q y' Hq. rewrite Nat.add_succ_comm. by apply Hnl.
    - exact Hgood1.
    - exists σ'. split; [exact Hrun|]. rewrite <- app_assoc in Hgood'.
      split; [exact Hgood'|]. rewrite Hr', Hr1. simpl length. lia. }
  apply Z.eqb_neq in Heq.
  destruct (endpoint.ID x <? endpoint.ID y) eqn:Hcmp.
  { (* the current node is not in the next list: removed *)
    apply Z.ltb_lt in Hcmp.
    destruct (step_remove σ P x c Hgood) as (σ1 & HR & Hgood1 & Hr1).
    { rewrite fmap_app. intros [Hin|Hin]%elem_of_app.
      - revert Hin. apply Hlt. intros p Hp. apply HPc; [done | left].
      - revert Hin. apply Hgt. exact Hx. }
    rewrite (runs_removed σ i x _ σ1 Hi0 HR).
    destruct (IHc (S i) (y :: n) j P σ1 Hac' Han) as (σ' & Hrun & Hgood' & Hr').
    - exact HPn.
    - intros p x' Hp Hx'. apply HPc; [done | by right].
    - intros q x' Hq. rewrite Nat.add_succ_comm. by apply Hcl.
    - exact Hnl.
    - exact Hgood1.
    - exists σ'. split; [exact Hrun|]. split; [exact Hgood'|].
      rewrite Hr', Hr1. simpl length. lia. }
  (* the next node is not in the current list: inserted *)
  apply Z.ltb_ge in Hcmp.
  destruct (step_insert σ P (x :: c) y Hgood) as (σ1 & HI & Hgood1 & Hr1).
  { rewrite fmap_app. intros [Hin|Hin]%elem_of_app.
    - revert Hin. apply Hlt. intros p Hp. apply HPn; [done | left].
    - revert Hin. apply Hgt. intros p [->|Hp]%elem_of_cons; [lia|].
      specialize (Hx p Hp). lia. }
  rewrite (runs_added σ j y _ σ1 Hj0 HI).
  destruct (IHn (S j) (P ++ [y]) σ1 Han') as (σ' & Hrun & Hgood' & Hr').
  - intros p y' [Hp|Hp]%elem_of_app Hy'.
    + apply HPn; [done | by right].
    + apply list_elem_of_singleton in Hp as ->. by apply Hy.
  - intros p x' [Hp|Hp]%elem_of_app Hx'.
    + by apply HPc.
    + apply list_elem_of_singleton in Hp as ->.
      apply elem_of_cons in Hx' as [->|Hx']; [lia|].
      specialize (Hx x' Hx'). lia.
  - intros q y' Hq. rewrite Nat.add_succ_comm. by apply Hnl.
  - exact Hgood1.
  - exists σ'. split; [exact Hrun|]. rewrite <- app_assoc in Hgood'.
    split; [exact Hgood'|]. rewrite Hr', Hr1. simpl length. lia.
Qed.

(** X24. The diff drives the registry from one topology to the next.
    With [Update] for a matched pair, [Insert] for an added element and
    [Remove] for a removed one, on an open registry that tracks exactly the
    NodeIDs of [curr], each entry with a connection, the gate open, [curr]
    and [next] strictly ascending and compared exactly: the run terminates,
    no call panics, and the registry, still open, tracks exactly the
    NodeIDs of [next], each entry with the load factor and locality [next]
    gives, the ready counter moved by the difference of the lengths. *)
Theorem reconcile_reaches_next σ :
  closed (reg σ) = false -> gate_open σ -> connected σ ->
  (forall k, is_Some (index (reg σ) !! k) <-> k ∈ endpoint.ID <$> curr) ->
  ascending curr -> ascending next -> cmp_exact w curr next ->
  exists σ',
    reconcile conn_init w curr next σ = Some (Returned tt σ') /\
    closed (reg σ') = false /\ gate_open σ' /\ connected σ' /\
    (forall k, is_Some (index (reg σ') !! k) <-> k ∈ endpoint.ID <$> next) /\
    (forall y, y ∈ next ->
       exists ent, index (reg σ') !! endpoint.ID y = Some ent /\
                   entry.Info ent
                   = info.mk (endpoint.LoadFactor y) (endpoint.Local y)) /\
    ready (reg σ')
    = ready (reg σ) + Z.of_nat (length next) - Z.of_nat (length curr).
Proof.
  intros Hc Hg Hcn Hk Hac Han Hex.
  destruct (reconcile_reports σ) as (calls & Hrun & ->).
  destruct (DiffEndpoints_calls_merge w curr next) as (calls' & Hrun' & Hrep).
  rewrite Hrun in Hrun'. injection Hrun' as <-.
  rewrite Hrep, merge_by_exact by exact Hex.
  destruct (reconcile_merge curr 0 next 0 [] σ Hac Han)
    as (σ' & Hruns & (Hc' & Hg' & Hcn' & Hk' & Hi') & Hr').
  - intros p y Hp. by apply elem_of_nil in Hp.
  - intros p x Hp. by apply elem_of_nil in Hp.
  - by intros q x.
  - by intros q y.
  - split_and!; try done. intros y Hy. by apply elem_of_nil in Hy.
  - exists σ'. split; [by f_equal|]. rewrite app_nil_r in Hk'.
    by split_and!.
Qed.
End reconciling.

Section mirrored.
Variable w : int_size.
Variables curr next : list endpoint.Endpoint.
Hypothesis exact : cmp_exact w curr next.
Hypothesis exact' : cmp_exact w next curr.

Lemma diff_from_mirror fuel : forall i j (acc : list diff_call),
  (i <= length curr)%nat -> (j <= length next)%nat ->
  diff_from w next curr fuel j i (mirror <$> acc)
  = (fun l : list diff_call => mirror <$> l) <$> diff_from w curr next fuel i j acc.
Proof.
  assert (Hdone : forall fuel i j (acc : list diff_call),
            (i <= length curr)%nat -> (j <= length next)%nat ->
            (i <? length curr)%nat && (j <? length next)%nat = false ->
            diff_from w next curr fuel j i (mirror <$> acc)
            = (fun l : list diff_call => mirror <$> l)
                <$> diff_from w curr next fuel i j acc).
  { intros fuel' i j acc Hi Hj Hc.
    rewrite (diff_from_done w curr next) by exact Hc.
    rewrite (diff_from_done w next curr) by (by rewrite andb_comm).
    cbn [fmap option_fmap option_map]. f_equal.
    rewrite !fmap_app, <- !list_fmap_compose.
    apply andb_false_iff in Hc as [Hc%Nat.ltb_ge|Hc%Nat.ltb_ge].
    - replace (length curr - i)%nat with 0%nat by lia.
      replace (Nat.max i (length curr)) with i by lia.
      by rewrite app_nil_r.
    - replace (length next - j)%nat with 0%nat by lia.
      replace (Nat.max j (length next)) with j by lia.
      by rewrite app_nil_r. }
  induction fuel as [|fuel IH]; intros i j acc Hi Hj.
  - destruct ((i <? length curr)%nat && (j <? length next)%nat) eqn:Hc;
      [|by apply Hdone].
    unfold diff_from. simpl. rewrite Hc, (andb_comm (j <? _)%nat), Hc. done.
  - destruct ((i <? length curr)%nat && (j <? length next)%nat) eqn:Hc;
      [|by apply Hdone].
    apply andb_true_iff in Hc as [Hi'%Nat.ltb_lt Hj'%Nat.ltb_lt].
    destruct (lookup_lt_is_Some_2 curr i Hi') as [x Hx].
    destruct (lookup_lt_is_Some_2 next j Hj') as [y Hy].
    rewrite (diff_from_step w curr next fuel i j acc x y Hx Hy).
    rewrite (diff_from_step w next curr fuel j i (mirror <$> acc) y x Hy Hx).
    cbv zeta.
    rewrite (compareEndpoints_exact w x y)
      by (apply exact; by eapply list_elem_of_lookup_2).
    rewrite (compareEndpoints_exact w y x)
      by (apply exact'; by eapply list_elem_of_lookup_2).
    destruct (endpoint.ID x - endpoint.ID y <? 0) eqn:H1;
      destruct (0 <? endpoint.ID x - endpoint.ID y) eqn:H2;
      destruct (endpoint.ID y - endpoint.ID x <? 0) eqn:H3;
      destruct (0 <? endpoint.ID y - endpoint.ID x) eqn:H4;
      try (apply Z.ltb_lt in H1); try (apply Z.ltb_ge in H1);
      try (apply Z.ltb_lt in H2); try (apply Z.ltb_ge in H2);
      try (apply Z.ltb_lt in H3); try (apply Z.ltb_ge in H3);
      try (apply Z.ltb_lt in H4); try (apply Z.ltb_ge in H4);
      try lia.
    + rewrite <- IH by lia. by rewrite fmap_app.
    + rewrite <- IH by lia. by rewrite fmap_app.
    + rewrite <- IH by lia. by rewrite fmap_app.
Qed.

(** X25. The diff of [next] against [curr] is the mirror image of the diff
    of [curr] against [next], where the comparator is exact both ways: the
    same number of calls in the same order, [eq(j, i)] for [eq(i, j)],
    [add(j, i)] for [del(i, j)] and [del(j, i)] for [add(i, j)]. *)
Theorem DiffEndpoints_mirror :
  exists calls,
    DiffEndpoints_calls w curr next = Some calls /\
    DiffEndpoints_calls w next curr = Some (mirror <$> calls).
Proof.
  destruct (DiffEndpoints_calls_merge w curr next) as (calls & Hrun & _).
  exists calls. split; [exact Hrun|].
  rewrite DiffEndpoints_calls_run in *.
  rewrite (Nat.add_comm (length next)).
  change (@nil diff_call) with (mirror <$> @nil diff_call).
  rewrite diff_from_mirror by lia. by rewrite Hrun.
Qed.
End mirrored.

Section observations.
Context {B : Type} `{!balancer.Balancer B}.
Variable conn_init : state.State.
Implicit Types (σ : config B) (e : endpoint.Endpoint).

(** X26. [Pessimize] touches one connection and nothing else: however it
    ends, the registry, the closes of the connections, the released
    channels and the trace are as before, and a connection whose state
    changed is the connection of the pessimized entry, now Banned.  The
    connection is used unguarded: for an entry with a handle the balancer
    contains and no connection, [Pessimize] panics on the nil connection
    and returns no error value. *)
Theorem Pessimize_touches_one_connection σ e :
  let σ' := final (Pessimize e σ) in
  reg σ' = reg σ /\
  (forall r, closes_of r σ' = closes_of r σ) /\
  released (mem σ') = released (mem σ) /\
  traced (mem σ') = traced (mem σ) /\
  (forall r, state_of r σ' <> state_of r σ ->
     state_of r σ' = state.Banned /\
     exists ent, index (reg σ) !! endpoint.NodeID e = Some ent /\
                 entry.Conn ent = Some r) /\
  (forall ent,
     closed (reg σ) = false ->
     index (reg σ) !! endpoint.NodeID e = Some ent ->
     entry.Handle ent <> None ->
     balancer.Contains (entry.Handle ent) (balancer (reg σ)) = true ->
     entry.Conn ent = None ->
     Pessimize e σ = Panicked NilDereference σ).
Proof.
  intros σ'. subst σ'.
  split; [apply Pessimize_reg|].
  assert (Hstate : forall (m : gmap nat conn.object) r0 r,
            conn.st (<[r0 := conn.mk (conn.ep (m !!! r0)) state.Banned
                                (conn.closes (m !!! r0))]> m !!! r)
            <> conn.st (m !!! r) -> r = r0).
  { intros m r0 r Hne. destruct (decide (r = r0)) as [|Hr]; [done|].
    by rewrite lookup_total_insert_ne in Hne. }
  assert (Hcl : forall (m : gmap nat conn.object) r0 r,
            conn.closes (<[r0 := conn.mk (conn.ep (m !!! r0)) state.Banned
                                    (conn.closes (m !!! r0))]> m !!! r)
            = conn.closes (m !!! r)).
  { intros m r0 r. destruct (decide (r = r0)) as [->|Hr].
    - by rewrite lookup_total_insert_eq.
    - by rewrite lookup_total_insert_ne. }
  split_and!; try (intros ent; apply Pessimize_nil_conn);
    unfold Pessimize, closes_of, state_of; go_unfold;
    (destruct (closed (reg σ)); [done|]);
    (destruct (index (reg σ) !! endpoint.NodeID e) as [ent|] eqn:He; [|done]);
    (destruct (entry.Handle ent); [|done]);
    (destruct (balancer.Contains _ _); [|done]); simpl;
    (destruct (entry.Conn ent) as [r0|] eqn:Hr; [|done]); simpl;
    (destruct (explorer (reg σ)); simpl; [destruct (_ <? _); simpl|]);
    try done; try (intros r; apply Hcl);
    intros r Hne; apply Hstate in Hne as ->;
    rewrite lookup_total_insert_eq; (split; [done | by exists ent]).
Qed.

(** X27. The trace of a call is not always finished.  [Get] reports the
    start of the call and, when it serves the connection of a hinted
    NodeID, never its end.  [Update] reports its start before it looks at
    the registry, and its end only when it updates an entry: on a closed
    registry, for a NodeID the mapping does not hold and for an entry with
    no connection the start is all it reports.  [Close] reports
    nothing. *)
Theorem traces_left_unfinished σ :
  (forall nodeID ent,
     closed (reg σ) = false -> index (reg σ) !! nodeID = Some ent ->
     traced (mem (final (Get (mkctx (Some nodeID)) σ)))
     = traced (mem σ) ++ [trace.ClusterGet]) /\
  (forall e opts,
     closed (reg σ) = true \/
     index (reg σ) !! endpoint.NodeID e = None \/
     (exists ent, index (reg σ) !! endpoint.NodeID e = Some ent /\
                  entry.Conn ent = None) ->
     traced (mem (final (Update e opts σ)))
     = traced (mem σ) ++ [trace.ClusterUpdate e]) /\
  traced (mem (final (Close σ))) = traced (mem σ).
Proof.
  split_and!.
  - intros nodeID ent Hc He. unfold Get. go_unfold. rewrite Hc. simpl.
    by rewrite He.
  - intros e opts Hcase. unfold Update. go_unfold. simpl.
    destruct (closed (reg σ)) eqn:Hc.
    { by destruct (wg (apply_options opts)). }
    destruct Hcase as [|[He|(ent & He & Hr)]]; [done| |]; rewrite He.
    + by destruct (wg (apply_options opts)).
    + rewrite Hr. by destruct (wg (apply_options opts)).
  - unfold Close, close_chan. unfold bind at 1. unfold gets at 1.
    destruct (closed (reg σ)) eqn:Hc; [done|].
    destruct σ as [c h]; simpl in *.
    assert (Htr : forall l h', traced (close_list l h') = traced h').
    { induction l as [|[k ent] l IH]; intros h'; simpl; [done|].
      rewrite IH. by destruct (entry.Conn ent). }
    destruct (explorer c), (wait c) as [ch|];
      unfold bind, ret, modify, repeater_Stop, with_reg, with_mem; simpl;
      try destruct (decide (ch ∈ released _)); simpl;
      rewrite ?for_each_close; simpl; by rewrite ?Htr.
Qed.
End observations.


(** * The further properties at work *)

Lemma Insert_tracks_endpoint_witness :
  exists σ',
    Insert state.Online (example.ep 5) [] example.four = Returned tt σ' /\
    ready (reg σ') = ready (reg example.four) + 1 /\
    wait (reg σ') = None /\
    exists σ'',
      Get (mkctx (Some (endpoint.NodeID (example.ep 5)))) σ'
        = Returned (Some (fresh_conn (mem example.four)), None) σ''.
Proof.
  destruct (Insert_tracks_endpoint state.Online example.four (example.ep 5) [])
    as (σ' & HI & _ & _ & _ & Hr & Hw & _ & _ & _ & _ & _ & _ & HG).
  - vm_compute. reflexivity.
  - apply (bool_decide_unpack _). vm_compute. reflexivity.
  - vm_compute. reflexivity.
  - exists σ'. split; [exact HI|]. split; [exact Hr|]. split; [exact Hw|]. exact HG.
Defined.

Lemma Update_refreshes_entry_witness :
  exists σ',
    Update (endpoint.mk 1 "" 7 true) [] (demote 0 example.four) = Returned tt σ' /\
    index (reg σ') !! 1
      = Some (entry.mk (info.mk 7 true) (Some 0%nat) (Some 0%nat)) /\
    state_of 0 σ' = state.Online.
Proof.
  destruct (Update_refreshes_entry (demote 0 example.four) (endpoint.mk 1 "" 7 true) []
              (entry.mk (info.mk 0 false) (Some 0%nat) (Some 0%nat)) 0)
    as (σ' & HU & Hi & _ & _ & _ & _ & _ & _ & Hs & _).
  - vm_compute. reflexivity.
  - vm_compute. reflexivity.
  - reflexivity.
  - exists σ'. split; [exact HU|]. split; [exact Hi | exact Hs].
Defined.

Lemma Update_undoes_Pessimize_witness :
  exists ent r σ2,
    index (reg example.four) !! endpoint.NodeID (example.ep 1) = Some ent /\
    entry.Conn ent = Some r /\
    state_of r (demote 0 example.four) = state.Banned /\
    Update (example.ep 1) [] (demote 0 example.four) = Returned tt σ2 /\
    state_of r σ2 = state.Online.
Proof.
  destruct (Update_undoes_Pessimize example.four (example.ep 1) []
              (demote 0 example.four))
    as (ent & r & σ2 & He & Hr & Hb & HU & Ho & _).
  - vm_compute. reflexivity.
  - exists ent, r, σ2. by split_and!.
Defined.

Lemma Remove_forgets_endpoint_witness :
  exists σ',
    Remove (example.ep 2) [] example.four = Returned tt σ' /\
    index (reg σ') !! endpoint.NodeID (example.ep 2) = None /\
    ready (reg σ') = ready (reg example.four) - 1 /\
    closes_of 1 σ' = S (closes_of 1 example.four) /\
    Pessimize (example.ep 2) σ'
      = Returned (Some (Errorf pessimize_failed ErrUnknownEndpoint)) σ'.
Proof.
  destruct (Remove_forgets_endpoint example.four (example.ep 2) []
              (entry.mk (info.mk 0 false) (Some 1%nat) (Some 1%nat)) 1)
    as (σ' & HR & Hn & _ & Hr & _ & Hcl & _ & _ & HP & _).
  - vm_compute. reflexivity.
  - vm_compute. reflexivity.
  - reflexivity.
  - exists σ'. by split_and!.
Defined.

Lemma Insert_then_Remove_witness :
  exists σ2,
    Remove (example.ep 5) []
      (after state.Online (CallInsert (example.ep 5) []) example.four)
      = Returned tt σ2 /\
    index (reg σ2) = index (reg example.four) /\
    ready (reg σ2) = ready (reg example.four) /\
    closes_of 4 σ2
    = S (closes_of 4 (after state.Online (CallInsert (example.ep 5) []) example.four)).
Proof.
  destruct (Insert_then_Remove state.Online example.four (example.ep 5) [] []
              (after state.Online (CallInsert (example.ep 5) []) example.four)
              (entry.mk (info.mk 0 false) (Some 4%nat) (Some 4%nat)) 4)
    as (σ2 & HR & Hi & Hr & _ & Hcl & _).
  - vm_compute. reflexivity.
  - vm_compute. reflexivity.
  - vm_compute. reflexivity.
  - vm_compute. reflexivity.
  - reflexivity.
  - exists σ2. by split_and!.
Defined.

Lemma closed_only_by_Close_witness :
  closed (reg (after state.Online CallClose example.four)) = true /\
  (closed (reg (after state.Online (CallRemove (example.ep 1) []) example.four)) = true
   -> CallRemove (example.ep 1) [] = CallClose).
Proof.
  split.
  - apply (closed_only_by_Close state.Online CallClose example.four);
      [vm_compute; reflexivity | reflexivity].
  - apply (closed_only_by_Close state.Online (CallRemove (example.ep 1) []) example.four).
    vm_compute. reflexivity.
Defined.

Lemma Pessimize_again_witness :
  exists σ2,
    Pessimize (example.ep 1) (demote 0 example.four) = Returned None σ2 /\
    reg σ2 = reg example.four /\
    online σ2 = online (demote 0 example.four).
Proof.
  destruct (Pessimize_again example.four (example.ep 1) (demote 0 example.four))
    as (σ2 & HP & Hr & _ & Ho & _).
  - vm_compute. reflexivity.
  - exists σ2. by split_and!.
Defined.

Lemma Get_returns_selection_witness :
  exists σ' σ'',
    Get (mkctx None) example.four = Returned (Some 0%nat, None) σ' /\
    Get (mkctx (Some 9)) σ' = Returned (Some 1%nat, None) σ''.
Proof.
  destruct (Get_returns_selection example.four (mkctx None) 0
              (rr.mk [rr.mkelem 1 (Some 1%nat) (info.mk 0 false);
                      rr.mkelem 2 (Some 2%nat) (info.mk 0 false);
                      rr.mkelem 3 (Some 3%nat) (info.mk 0 false);
                      rr.mkelem 0 (Some 0%nat) (info.mk 0 false)] 4))
    as (σ' & HG & Hreg & Hcs & _).
  - vm_compute. reflexivity.
  - reflexivity.
  - vm_compute. reflexivity.
  - destruct (Get_returns_selection σ' (mkctx (Some 9)) 1
                (rr.mk [rr.mkelem 2 (Some 2%nat) (info.mk 0 false);
                        rr.mkelem 3 (Some 3%nat) (info.mk 0 false);
                        rr.mkelem 0 (Some 0%nat) (info.mk 0 false);
                        rr.mkelem 1 (Some 1%nat) (info.mk 0 false)] 4))
      as (σ'' & HG' & _).
    + rewrite Hreg. vm_compute. reflexivity.
    + rewrite Hreg. vm_compute. reflexivity.
    + rewrite Hreg, Hcs. vm_compute. reflexivity.
    + by exists σ', σ''.
Defined.

Lemma await_makes_gate_witness :
  exists gate σ1,
    await example.four = Returned gate example.four /\
    gate example.four = Returned (Some (fresh_chan (mem example.four))) σ1 /\
    gate_open σ1 /\
    gate σ1 = Returned (Some (fresh_chan (mem example.four))) σ1.
Proof.
  destruct (await_makes_gate example.four)
    as (gate & σ1 & Ha & Hg & _ & _ & _ & _ & Ho & Hg' & _).
  - apply (bool_decide_unpack _). vm_compute. reflexivity.
  - vm_compute. discriminate.
  - exists gate, σ1. by split_and!.
Defined.

Lemma gate_released_by_Insert_and_Close_witness :
  wait (reg (after state.Online (CallInsert (example.ep 5) []) example.gated)) = None /\
  released (mem (after state.Online CallClose example.gated))
    = {[0%nat]} ∪ released (mem example.gated) /\
  wait (reg (after state.Online (CallRemove (example.ep 1) []) example.gated))
    = Some 0%nat.
Proof.
  destruct (gate_released_by_Insert_and_Close state.Online example.gated 0)
    as (HI & [_ HC] & Hk).
  - vm_compute. reflexivity.
  - vm_compute. reflexivity.
  - apply (bool_decide_unpack _). vm_compute. reflexivity.
  - split; [|split].
    + apply (HI (example.ep 5) []). vm_compute. reflexivity.
    + exact HC.
    + apply (Hk (CallRemove (example.ep 1) [])). exact I.
Defined.

Lemma connections_stay_in_order_witness :
  (closes_of 0
     (after_all state.Online
        [CallInsert (example.ep 1) []; CallInsert (example.ep 2) [];
         CallRemove (example.ep 1) []; CallClose; CallClose]
        (mkconfig (New rr.empty) world0)) <= 1)%nat.
Proof.
  destruct (connections_stay_in_order state.Online
              [CallInsert (example.ep 1) []; CallInsert (example.ep 2) [];
               CallRemove (example.ep 1) []; CallClose; CallClose]
              rr.empty world0)
    as (_ & Hcl).
  - intros r. simpl. by rewrite lookup_total_empty.
  - exact (Hcl 0%nat).
Defined.

Lemma Insert_builds_before_checking_witness :
  fresh_conn
    (mem (after state.Online (CallInsert (example.ep 5) [])
            (mkconfig (mkcluster rr.empty None ∅ 0 None true) world0)))
    = S (fresh_conn (mem (mkconfig (mkcluster rr.empty None ∅ 0 None true) world0))) /\
  holders (fresh_conn (mem (mkconfig (mkcluster rr.empty None ∅ 0 None true) world0)))
    (index
       (reg (after state.Online (CallInsert (example.ep 5) [])
               (mkconfig (mkcluster rr.empty None ∅ 0 None true) world0))))
    = 0%nat.
Proof.
  destruct (Insert_builds_before_checking state.Online
              (mkconfig (mkcluster rr.empty None ∅ 0 None true) world0)
              (example.ep 5) [])
    as (_ & Hf & _ & Hh & _).
  - by left.
  - intros k ent Hk. simpl in Hk. by rewrite lookup_empty in Hk.
  - split; [exact Hf | exact Hh].
Defined.

Lemma reconcile_reaches_next_witness :
  exists σ',
    reconcile state.Online Int64
      [example.ep 1; example.ep 2; example.ep 3; example.ep 4]
      [example.ep 2; endpoint.mk 3 "" 9 true; example.ep 5]
      example.four = Some (Returned tt σ') /\
    closed (reg σ') = false /\
    forall k, is_Some (index (reg σ') !! k)
              <-> k ∈ endpoint.ID
                      <$> [example.ep 2; endpoint.mk 3 "" 9 true; example.ep 5].
Proof.
  destruct (reconcile_reaches_next state.Online Int64
              [example.ep 1; example.ep 2; example.ep 3; example.ep 4]
              [example.ep 2; endpoint.mk 3 "" 9 true; example.ep 5]
              example.four)
    as (σ' & Hrun & Hc & _ & _ & Hk & _).
  - vm_compute. reflexivity.
  - apply (bool_decide_unpack _). vm_compute. reflexivity.
  - apply (connected_reached state.Online).
  - assert (Hd : dom (index (reg example.four))
                 = list_to_set (endpoint.ID
                     <$> [example.ep 1; example.ep 2; example.ep 3; example.ep 4]))
      by (vm_compute; reflexivity).
    intros k. by rewrite <- elem_of_dom, Hd, elem_of_list_to_set.
  - repeat constructor; simpl; lia.
  - repeat constructor; simpl; lia.
  - intros x y Hx%list_elem_of_In Hy%list_elem_of_In. simpl in Hx, Hy.
    destruct Hx as [<-|[<-|[<-|[<-|[]]]]], Hy as [<-|[<-|[<-|[]]]]; simpl; lia.
  - exists σ'. split; [exact Hrun|]. split; [exact Hc | exact Hk].
Defined.

Lemma DiffEndpoints_mirror_witness :
  exists calls,
    DiffEndpoints_calls Int64 [example.ep 1; example.ep 3] [example.ep 2; example.ep 3]
      = Some calls /\
    DiffEndpoints_calls Int64 [example.ep 2; example.ep 3] [example.ep 1; example.ep 3]
      = Some (mirror <$> calls).
Proof.
  apply (DiffEndpoints_mirror Int64 [example.ep 1; example.ep 3]
           [example.ep 2; example.ep 3]).
  - intros x y Hx%list_elem_of_In Hy%list_elem_of_In. simpl in Hx, Hy.
    destruct Hx as [<-|[<-|[]]], Hy as [<-|[<-|[]]]; simpl; lia.
  - intros x y Hx%list_elem_of_In Hy%list_elem_of_In. simpl in Hx, Hy.
    destruct Hx as [<-|[<-|[]]], Hy as [<-|[<-|[]]]; simpl; lia.
Defined.
